(** * Catan rules engine: board topology, command handlers, trading.

    A shallow embedding of the JavaScript sources
    - [game-types.js]            (data model, victory points, placement rules),
    - the board generator        ([generateTiles], [generateNodesAndEdges]),
    - [CatanGameEngine]          (the command handlers),
    - [TradingManager], [EnhancedTradingSystem], [DevelopmentCardManager].

    Conventions of the embedding.
    - JS numbers that count things are [Z]; array indices and ids are [nat]
      (an index outside the array reads [undefined], exactly like [!!]
      returning [None]); [null] is [None].
    - A handler is a function from the game state to the state it leaves
      behind together with either its return value or the exception it
      threw.  A [throw] keeps every mutation performed before it, as in JS.
    - Reading a property of [undefined] raises [TypeError].
    - [Math.random] is an oracle argument of the handler that draws.
    - [emit] is not modelled: the engine starts with no listener, and
      without listeners [emit] does nothing.
    - Display-only data (names, colours, pixel coordinates) is left out. *)

From Stdlib Require Import ZArith Lia.
From stdpp Require Import base numbers list option strings gmap sorting.

Local Open Scope Z_scope.

(** ** Constants of [game-types.js] *)

Inductive Resource := wood | brick | sheep | wheat | ore.

(** A tile's [resource] string: one of the five resources or ['desert']. *)
Inductive TileResource := land (r : Resource) | desert.

Inductive Building := settlement | city.

Inductive BuildingType := bt_settlement | bt_city | bt_road | bt_developmentCard.

Inductive Phase := SETUP | MAIN_GAME | GAME_OVER.

(** [TURN_PHASES], plus the literal ['discard_cards'] that [handleRobberRoll]
    writes. *)
Inductive TurnPhase := DICE_ROLL | ROBBER_PLACEMENT | ACTIONS | END_TURN | DISCARD_CARDS.

Inductive DevCardType := KNIGHT | ROAD_BUILDING | MONOPOLY | YEAR_OF_PLENTY | VICTORY_POINT.

Inductive PortType := GENERIC | port_of (r : Resource).

#[global] Instance Resource_eq_dec : EqDecision Resource.
Proof. solve_decision. Defined.
#[global] Instance TileResource_eq_dec : EqDecision TileResource.
Proof. solve_decision. Defined.
#[global] Instance Building_eq_dec : EqDecision Building.
Proof. solve_decision. Defined.
#[global] Instance Phase_eq_dec : EqDecision Phase.
Proof. solve_decision. Defined.
#[global] Instance TurnPhase_eq_dec : EqDecision TurnPhase.
Proof. solve_decision. Defined.
#[global] Instance DevCardType_eq_dec : EqDecision DevCardType.
Proof. solve_decision. Defined.
#[global] Instance PortType_eq_dec : EqDecision PortType.
Proof. solve_decision. Defined.

Definition RESOURCES : list Resource := [wood; brick; sheep; wheat; ore].

Definition TOKENS : list Z :=
  [2; 3; 3; 4; 4; 5; 5; 6; 6; 8; 8; 9; 9; 10; 10; 11; 11; 12].

(** ** Data model *)

Module Tile.
Record t := mk {
  id : nat;
  q : Z;
  r : Z;
  resource : TileResource;
  token : option Z;
  hasRobber : bool;
  isBlocked : bool
}.
Definition set_robber (b : bool) (x : t) : t :=
  mk (id x) (q x) (r x) (resource x) (token x) b b.
End Tile.

Module Node.
Record t := mk {
  id : nat;
  adjacentTiles : list nat;
  neighborNodes : list nat;
  building : option Building;
  owner : option nat;
  port : option PortType
}.
Definition push_adjacentTile (tid : nat) (x : t) : t :=
  mk (id x) (adjacentTiles x ++ [tid]) (neighborNodes x) (building x) (owner x) (port x).
Definition push_neighborNode (n : nat) (x : t) : t :=
  mk (id x) (adjacentTiles x) (neighborNodes x ++ [n]) (building x) (owner x) (port x).
Definition set_building (b : option Building) (x : t) : t :=
  mk (id x) (adjacentTiles x) (neighborNodes x) b (owner x) (port x).
Definition set_owner (o : option nat) (x : t) : t :=
  mk (id x) (adjacentTiles x) (neighborNodes x) (building x) o (port x).
Definition set_port (p : option PortType) (x : t) : t :=
  mk (id x) (adjacentTiles x) (neighborNodes x) (building x) (owner x) p.
End Node.

Module Edge.
Record t := mk {
  id : nat;
  fromNode : nat;
  toNode : nat;
  road : option nat;
  isCoastal : bool
}.
Definition set_road (o : option nat) (x : t) : t :=
  mk (id x) (fromNode x) (toNode x) o (isCoastal x).
End Edge.

Module Port.
Record t := mk {
  nodeIds : list nat;
  type : PortType;
  ratio : Z
}.
End Port.

Module Board.
Record t := mk {
  tiles : list Tile.t;
  nodes : list Node.t;
  edges : list Edge.t;
  ports : list Port.t;
  robberPosition : option nat
}.
Definition set_tiles (v : list Tile.t) (b : t) : t :=
  mk v (nodes b) (edges b) (ports b) (robberPosition b).
Definition set_nodes (v : list Node.t) (b : t) : t :=
  mk (tiles b) v (edges b) (ports b) (robberPosition b).
Definition set_edges (v : list Edge.t) (b : t) : t :=
  mk (tiles b) (nodes b) v (ports b) (robberPosition b).
Definition set_robberPosition (v : option nat) (b : t) : t :=
  mk (tiles b) (nodes b) (edges b) (ports b) v.
End Board.

(** ** Board generation *)

Definition createTile (id : nat) (q r : Z) (resource : TileResource)
    (token : option Z) : Tile.t :=
  Tile.mk id q r resource token false false.

Definition createNode (id : nat) (adjacentTiles neighborNodes : list nat) : Node.t :=
  Node.mk id adjacentTiles neighborNodes None None None.

Definition createEdge (id fromNode toNode : nat) : Edge.t :=
  Edge.mk id fromNode toNode None false.

Definition createPort (nodeIds : list nat) (type : PortType) (ratio : Z) : Port.t :=
  Port.mk nodeIds type ratio.

Definition STANDARD_HEX_LAYOUT : list (Z * Z) :=
  [ (0, -2); (1, -2); (2, -2);
    (-1, -1); (0, -1); (1, -1); (2, -1);
    (-2, 0); (-1, 0); (0, 0); (1, 0); (2, 0);
    (-2, 1); (-1, 1); (0, 1); (1, 1);
    (-2, 2); (-1, 2); (0, 2) ].

Definition STANDARD_RESOURCES : list TileResource :=
  replicate 4 (land wood) ++ replicate 3 (land brick) ++ replicate 4 (land sheep)
  ++ replicate 4 (land wheat) ++ replicate 3 (land ore) ++ [desert].

Definition STANDARD_PORTS : list (list nat * PortType) :=
  [ ([0; 1], GENERIC); ([3; 4], GENERIC); ([15; 22], GENERIC); ([46; 47], GENERIC);
    ([7; 17], port_of wood); ([14; 23], port_of brick); ([28; 38], port_of sheep);
    ([45; 51], port_of wheat); ([26; 37], port_of ore) ]%nat.

(** [[a[i], a[j]] = [a[j], a[i]]]: both reads happen first, then [a[i]] and
    [a[j]] are written in that order. *)
Definition swap {A} (a : list A) (i j : nat) : list A :=
  match a !! i, a !! j with
  | Some x, Some y => <[j := x]> (<[i := y]> a)
  | _, _ => a
  end.

(** The loop of [shuffleArray], [i] counting down to 1.  [rnd i] is the raw
    draw of iteration [i]; [Math.floor(Math.random() * (i + 1))] can be any
    index in [0..i], modelled as [rnd i mod (i + 1)]. *)
Fixpoint shuffle_loop {A} (rnd : nat -> nat) (i : nat) (shuffled : list A) : list A :=
  match i with
  | O => shuffled
  | S i' => shuffle_loop rnd i' (swap shuffled i (rnd i mod (i + 1))%nat)
  end.

Definition shuffleArray {A} (rnd : nat -> nat) (array : list A) : list A :=
  shuffle_loop rnd (length array - 1)%nat array.

(** [Array.prototype.pop]: the last element ([None] on an empty array) and
    the array without it. *)
Definition pop {A} (a : list A) : option A * list A :=
  match rev a with
  | [] => (None, [])
  | x :: r => (Some x, rev r)
  end.

(** The [map] callback of [generateTiles], threading the token array that
    [tokens.pop()] consumes.  An index outside [resources] cannot occur (the
    bag has 19 entries); that branch stops the map. *)
Fixpoint assignTiles (layout : list (Z * Z)) (index : nat)
    (resources : list TileResource) (tokens : list Z) : list Tile.t :=
  match layout with
  | [] => []
  | (q, r) :: rest =>
      match resources !! (index mod length resources)%nat with
      | None => []
      | Some resource =>
          let '(token, tokens') :=
            match resource with
            | desert => (None, tokens)
            | land _ => pop tokens
            end in
          createTile index q r resource token
            :: assignTiles rest (S index) resources tokens'
      end
  end.

Definition generateTiles (rnd1 rnd2 : nat -> nat) : list Tile.t :=
  let resources := shuffleArray rnd1 STANDARD_RESOURCES in
  let tokens := shuffleArray rnd2 TOKENS in
  assignTiles STANDARD_HEX_LAYOUT 0 resources tokens.

(** *** Corner keys

    [axialToPixel] and [getHexCorners] with [HEX_SIZE = 48] and centre
    [(300, 300)] put corner [i] of hex [(q, r)] at
    [x = 300 + 24·√3·(2q + r + cx i)], [y = 300 + 72·r + 24·sy i],
    since [cos] of -30°, 30°, 90°, 150°, 210°, 270° is
    [√3/2, √3/2, 0, -√3/2, -√3/2, 0] and [sin] is [-1/2, 1/2, 1, 1/2, -1/2, -1].
    The map key is [(Math.round x, Math.round y)].  The model computes the
    nearest integers of these real numbers exactly; the doubles of the
    source are within 1e-9 of them, while on the board (|2q + r + cx| <= 5)
    every real [x] is at least 0.06 away from a half-integer and every [y]
    is an integer, so [Math.round] returns the same integers. *)

Definition corner_cx (i : nat) : Z :=
  match i with
  | 0%nat => 1 | 1%nat => 1 | 2%nat => 0 | 3%nat => -1 | 4%nat => -1 | _ => 0
  end.

Definition corner_sy (i : nat) : Z :=
  match i with
  | 0%nat => -1 | 1%nat => 1 | 2%nat => 2 | 3%nat => 1 | 4%nat => -1 | _ => -2
  end.

(** Nearest integer to [24·√3·k]: [24·√3·|k| = √(1728·k²)], and
    [floor (√n + 1/2) = (floor (√(4n)) + 1) / 2]. *)
Definition round_24_sqrt3 (k : Z) : Z :=
  Z.sgn k * ((Z.sqrt (6912 * k * k) + 1) / 2).

Definition cornerKey (q r : Z) (i : nat) : Z * Z :=
  (300 + round_24_sqrt3 (2 * q + r + corner_cx i), 300 + 72 * r + 24 * corner_sy i).

Definition hexCornerKeys (q r : Z) : list (Z * Z) :=
  map (cornerKey q r) (seq 0 6).

(** [nodeMap.get(key)] on the insertion-ordered map. *)
Fixpoint nodeMap_get (nodeMap : list ((Z * Z) * nat)) (key : Z * Z) : option nat :=
  match nodeMap with
  | [] => None
  | (k, v) :: rest => if decide (k = key) then Some v else nodeMap_get rest key
  end.

(** One corner of the first [tiles.forEach] of [generateNodesAndEdges]. *)
Definition addCorner (tileId : nat) (st : list ((Z * Z) * nat) * list Node.t)
    (key : Z * Z) : list ((Z * Z) * nat) * list Node.t :=
  let '(nodeMap, nodes) := st in
  match nodeMap_get nodeMap key with
  | None =>
      let id := length nodes in
      (nodeMap ++ [(key, id)], nodes ++ [createNode id [tileId] []])
  | Some existing =>
      (nodeMap, alter (Node.push_adjacentTile tileId) existing nodes)
  end.

Definition addTileCorners (st : list ((Z * Z) * nat) * list Node.t) (tile : Tile.t)
    : list ((Z * Z) * nat) * list Node.t :=
  foldl (addCorner (Tile.id tile)) st (hexCornerKeys (Tile.q tile) (Tile.r tile)).

(** The edge key [`${min}-${max}`] as the ordered pair. *)
Definition edgeKey (nodeA nodeB : nat) : nat * nat :=
  if (nodeA <? nodeB)%nat then (nodeA, nodeB) else (nodeB, nodeA).

(** One side [i] of a hex in the second [tiles.forEach].  A corner missing
    from [nodeMap] cannot occur (the first pass inserted every corner); the
    side is then skipped. *)
Definition addSide (nodeIds : list (option nat))
    (st : list (nat * nat) * list Edge.t * list Node.t) (i : nat)
    : list (nat * nat) * list Edge.t * list Node.t :=
  let '(edgeSet, edges, nodes) := st in
  match nodeIds !! i, nodeIds !! ((i + 1) mod 6)%nat with
  | Some (Some nodeA), Some (Some nodeB) =>
      let key := edgeKey nodeA nodeB in
      if decide (key ∈ edgeSet) then st
      else
        (edgeSet ++ [key],
         edges ++ [createEdge (length edges) nodeA nodeB],
         alter (Node.push_neighborNode nodeA) nodeB
           (alter (Node.push_neighborNode nodeB) nodeA nodes))
  | _, _ => st
  end.

Definition addTileSides (nodeMap : list ((Z * Z) * nat))
    (st : list (nat * nat) * list Edge.t * list Node.t) (tile : Tile.t)
    : list (nat * nat) * list Edge.t * list Node.t :=
  let nodeIds := map (nodeMap_get nodeMap) (hexCornerKeys (Tile.q tile) (Tile.r tile)) in
  foldl (addSide nodeIds) st (seq 0 6).

Definition generateNodesAndEdges (tiles : list Tile.t) : list Node.t * list Edge.t :=
  let '(nodeMap, nodes) := foldl addTileCorners ([], []) tiles in
  let '(_, edges, nodes') := foldl (addTileSides nodeMap) ([], [], nodes) tiles in
  (nodes', edges).

(** [generatePorts]: the port table, and the [port] flag written on the
    nodes that exist. *)
Definition generatePorts (nodes : list Node.t) : list Port.t * list Node.t :=
  (map (fun '(ns, ty) => createPort ns ty (if decide (ty = GENERIC) then 3 else 2))
       STANDARD_PORTS,
   foldl (fun nodes '(ns, ty) =>
            foldl (fun nodes nodeId => alter (Node.set_port (Some ty)) nodeId nodes) nodes ns)
         nodes STANDARD_PORTS).

Definition findDesertTile (tiles : list Tile.t) : option Tile.t :=
  List.find (fun tile => bool_decide (Tile.resource tile = desert)) tiles.

(** [findDesertTile(tiles)?.id || 0]. *)
Definition generateRandomBoard (rnd1 rnd2 : nat -> nat) : Board.t :=
  let tiles := generateTiles rnd1 rnd2 in
  let '(nodes, edges) := generateNodesAndEdges tiles in
  let '(ports, nodes') := generatePorts nodes in
  Board.mk tiles nodes' edges ports
    (Some (match findDesertTile tiles with Some t => Tile.id t | None => O end)).

(** ** Players and game state *)

Module Resources.
Record t := mk { n_wood : Z; n_brick : Z; n_sheep : Z; n_wheat : Z; n_ore : Z }.
End Resources.

(** [resources[r]] and [resources[r] = v]. *)
Definition res_get (r : Resource) (x : Resources.t) : Z :=
  match r with
  | wood => Resources.n_wood x
  | brick => Resources.n_brick x
  | sheep => Resources.n_sheep x
  | wheat => Resources.n_wheat x
  | ore => Resources.n_ore x
  end.

Definition res_set (r : Resource) (v : Z) (x : Resources.t) : Resources.t :=
  let '(Resources.mk a b c d e) := x in
  match r with
  | wood => Resources.mk v b c d e
  | brick => Resources.mk a v c d e
  | sheep => Resources.mk a b v d e
  | wheat => Resources.mk a b c v e
  | ore => Resources.mk a b c d v
  end.

Definition res_add (r : Resource) (d : Z) (x : Resources.t) : Resources.t :=
  res_set r (res_get r x + d) x.

(** [player.developmentCards].  [createPlayer] creates the five camelCase
    keys.  [DEV_CARD_TYPES] names three of the cards in snake_case
    (['road_building'], ['year_of_plenty'], ['victory_point']), so
    [developmentCards[cardType]++] and [--] on those read [undefined] and
    store [NaN] under a new key; the [nan_] flags record that such a key
    exists.  Only ['knight'] and ['monopoly'] address an initial key. *)
Module DevCards.
Record t := mk {
  knight : Z;
  roadBuilding : Z;
  monopoly : Z;
  yearOfPlenty : Z;
  victoryPoint : Z;
  nan_road_building : bool;
  nan_year_of_plenty : bool;
  nan_victory_point : bool
}.
End DevCards.

(** [developmentCards[cardType] += d] for [d] = 1 or -1. *)
Definition dev_bump (c : DevCardType) (d : Z) (x : DevCards.t) : DevCards.t :=
  let '(DevCards.mk k rb m yp vp n1 n2 n3) := x in
  match c with
  | KNIGHT => DevCards.mk (k + d) rb m yp vp n1 n2 n3
  | MONOPOLY => DevCards.mk k rb (m + d) yp vp n1 n2 n3
  | ROAD_BUILDING => DevCards.mk k rb m yp vp true n2 n3
  | YEAR_OF_PLENTY => DevCards.mk k rb m yp vp n1 true n3
  | VICTORY_POINT => DevCards.mk k rb m yp vp n1 n2 true
  end.

(** [developmentCards[cardType] <= 0]; a comparison with [undefined] or
    [NaN] is false. *)
Definition dev_le_0 (c : DevCardType) (x : DevCards.t) : bool :=
  match c with
  | KNIGHT => bool_decide (DevCards.knight x <= 0)
  | MONOPOLY => bool_decide (DevCards.monopoly x <= 0)
  | _ => false
  end.

Module Remaining.
Record t := mk { settlements : Z; cities : Z; roads : Z }.
End Remaining.

Module Player.
Record t := mk {
  id : nat;
  resources : Resources.t;
  settlements : list nat;
  cities : list nat;
  roads : list nat;
  developmentCards : DevCards.t;
  developmentCardsPlayedThisTurn : list DevCardType;
  knightsPlayed : Z;
  victoryPoints : Z;
  publicVictoryPoints : Z;
  hasPlayedDevCard : bool;
  mustDiscardCards : Z;
  buildingsRemaining : Remaining.t
}.
Definition set_resources (v : Resources.t) (p : t) : t :=
  mk (id p) v (settlements p) (cities p) (roads p) (developmentCards p)
     (developmentCardsPlayedThisTurn p) (knightsPlayed p) (victoryPoints p)
     (publicVictoryPoints p) (hasPlayedDevCard p) (mustDiscardCards p)
     (buildingsRemaining p).
Definition set_settlements (v : list nat) (p : t) : t :=
  mk (id p) (resources p) v (cities p) (roads p) (developmentCards p)
     (developmentCardsPlayedThisTurn p) (knightsPlayed p) (victoryPoints p)
     (publicVictoryPoints p) (hasPlayedDevCard p) (mustDiscardCards p)
     (buildingsRemaining p).
Definition set_cities (v : list nat) (p : t) : t :=
  mk (id p) (resources p) (settlements p) v (roads p) (developmentCards p)
     (developmentCardsPlayedThisTurn p) (knightsPlayed p) (victoryPoints p)
     (publicVictoryPoints p) (hasPlayedDevCard p) (mustDiscardCards p)
     (buildingsRemaining p).
Definition set_roads (v : list nat) (p : t) : t :=
  mk (id p) (resources p) (settlements p) (cities p) v (developmentCards p)
     (developmentCardsPlayedThisTurn p) (knightsPlayed p) (victoryPoints p)
     (publicVictoryPoints p) (hasPlayedDevCard p) (mustDiscardCards p)
     (buildingsRemaining p).
Definition set_developmentCards (v : DevCards.t) (p : t) : t :=
  mk (id p) (resources p) (settlements p) (cities p) (roads p) v
     (developmentCardsPlayedThisTurn p) (knightsPlayed p) (victoryPoints p)
     (publicVictoryPoints p) (hasPlayedDevCard p) (mustDiscardCards p)
     (buildingsRemaining p).
Definition set_turnFlags (played : bool) (cards : list DevCardType) (p : t) : t :=
  mk (id p) (resources p) (settlements p) (cities p) (roads p) (developmentCards p)
     cards (knightsPlayed p) (victoryPoints p)
     (publicVictoryPoints p) played (mustDiscardCards p)
     (buildingsRemaining p).
Definition set_points (vp pvp : Z) (p : t) : t :=
  mk (id p) (resources p) (settlements p) (cities p) (roads p) (developmentCards p)
     (developmentCardsPlayedThisTurn p) (knightsPlayed p) vp pvp
     (hasPlayedDevCard p) (mustDiscardCards p) (buildingsRemaining p).
Definition set_mustDiscardCards (v : Z) (p : t) : t :=
  mk (id p) (resources p) (settlements p) (cities p) (roads p) (developmentCards p)
     (developmentCardsPlayedThisTurn p) (knightsPlayed p) (victoryPoints p)
     (publicVictoryPoints p) (hasPlayedDevCard p) v (buildingsRemaining p).
Definition set_buildingsRemaining (v : Remaining.t) (p : t) : t :=
  mk (id p) (resources p) (settlements p) (cities p) (roads p) (developmentCards p)
     (developmentCardsPlayedThisTurn p) (knightsPlayed p) (victoryPoints p)
     (publicVictoryPoints p) (hasPlayedDevCard p) (mustDiscardCards p) v.
End Player.

Module GameState.
Record t := mk {
  phase : Phase;
  turnPhase : TurnPhase;
  currentPlayer : nat;
  setupRound : Z;
  setupDirection : Z;
  turnNumber : Z;
  lastDiceRoll : option Z;
  gameWinner : option nat;
  board : Board.t;
  players : list Player.t;
  developmentCardDeck : list DevCardType;
  longestRoadPlayer : option nat;
  longestRoadLength : Z;
  largestArmyPlayer : option nat;
  largestArmySize : Z;
  victoryPointsToWin : Z
}.
Definition set_phase (v : Phase) (s : t) : t :=
  mk v (turnPhase s) (currentPlayer s) (setupRound s) (setupDirection s)
     (turnNumber s) (lastDiceRoll s) (gameWinner s) (board s) (players s)
     (developmentCardDeck s) (longestRoadPlayer s) (longestRoadLength s)
     (largestArmyPlayer s) (largestArmySize s) (victoryPointsToWin s).
Definition set_turnPhase (v : TurnPhase) (s : t) : t :=
  mk (phase s) v (currentPlayer s) (setupRound s) (setupDirection s)
     (turnNumber s) (lastDiceRoll s) (gameWinner s) (board s) (players s)
     (developmentCardDeck s) (longestRoadPlayer s) (longestRoadLength s)
     (largestArmyPlayer s) (largestArmySize s) (victoryPointsToWin s).
Definition set_currentPlayer (v : nat) (s : t) : t :=
  mk (phase s) (turnPhase s) v (setupRound s) (setupDirection s)
     (turnNumber s) (lastDiceRoll s) (gameWinner s) (board s) (players s)
     (developmentCardDeck s) (longestRoadPlayer s) (longestRoadLength s)
     (largestArmyPlayer s) (largestArmySize s) (victoryPointsToWin s).
Definition set_setup (round direction : Z) (s : t) : t :=
  mk (phase s) (turnPhase s) (currentPlayer s) round direction
     (turnNumber s) (lastDiceRoll s) (gameWinner s) (board s) (players s)
     (developmentCardDeck s) (longestRoadPlayer s) (longestRoadLength s)
     (largestArmyPlayer s) (largestArmySize s) (victoryPointsToWin s).
Definition set_turnNumber (v : Z) (s : t) : t :=
  mk (phase s) (turnPhase s) (currentPlayer s) (setupRound s) (setupDirection s)
     v (lastDiceRoll s) (gameWinner s) (board s) (players s)
     (developmentCardDeck s) (longestRoadPlayer s) (longestRoadLength s)
     (largestArmyPlayer s) (largestArmySize s) (victoryPointsToWin s).
Definition set_lastDiceRoll (v : option Z) (s : t) : t :=
  mk (phase s) (turnPhase s) (currentPlayer s) (setupRound s) (setupDirection s)
     (turnNumber s) v (gameWinner s) (board s) (players s)
     (developmentCardDeck s) (longestRoadPlayer s) (longestRoadLength s)
     (largestArmyPlayer s) (largestArmySize s) (victoryPointsToWin s).
Definition set_gameWinner (v : option nat) (s : t) : t :=
  mk (phase s) (turnPhase s) (currentPlayer s) (setupRound s) (setupDirection s)
     (turnNumber s) (lastDiceRoll s) v (board s) (players s)
     (developmentCardDeck s) (longestRoadPlayer s) (longestRoadLength s)
     (largestArmyPlayer s) (largestArmySize s) (victoryPointsToWin s).
Definition set_board (v : Board.t) (s : t) : t :=
  mk (phase s) (turnPhase s) (currentPlayer s) (setupRound s) (setupDirection s)
     (turnNumber s) (lastDiceRoll s) (gameWinner s) v (players s)
     (developmentCardDeck s) (longestRoadPlayer s) (longestRoadLength s)
     (largestArmyPlayer s) (largestArmySize s) (victoryPointsToWin s).
Definition set_players (v : list Player.t) (s : t) : t :=
  mk (phase s) (turnPhase s) (currentPlayer s) (setupRound s) (setupDirection s)
     (turnNumber s) (lastDiceRoll s) (gameWinner s) (board s) v
     (developmentCardDeck s) (longestRoadPlayer s) (longestRoadLength s)
     (largestArmyPlayer s) (largestArmySize s) (victoryPointsToWin s).
Definition set_developmentCardDeck (v : list DevCardType) (s : t) : t :=
  mk (phase s) (turnPhase s) (currentPlayer s) (setupRound s) (setupDirection s)
     (turnNumber s) (lastDiceRoll s) (gameWinner s) (board s) (players s)
     v (longestRoadPlayer s) (longestRoadLength s)
     (largestArmyPlayer s) (largestArmySize s) (victoryPointsToWin s).
Definition set_longestRoad (who : option nat) (len : Z) (s : t) : t :=
  mk (phase s) (turnPhase s) (currentPlayer s) (setupRound s) (setupDirection s)
     (turnNumber s) (lastDiceRoll s) (gameWinner s) (board s) (players s)
     (developmentCardDeck s) who len
     (largestArmyPlayer s) (largestArmySize s) (victoryPointsToWin s).
Definition set_largestArmy (who : option nat) (size : Z) (s : t) : t :=
  mk (phase s) (turnPhase s) (currentPlayer s) (setupRound s) (setupDirection s)
     (turnNumber s) (lastDiceRoll s) (gameWinner s) (board s) (players s)
     (developmentCardDeck s) (longestRoadPlayer s) (longestRoadLength s)
     who size (victoryPointsToWin s).
End GameState.

#[global] Instance Tile_eq_dec : EqDecision Tile.t.
Proof. solve_decision. Defined.
#[global] Instance Node_eq_dec : EqDecision Node.t.
Proof. solve_decision. Defined.
#[global] Instance Edge_eq_dec : EqDecision Edge.t.
Proof. solve_decision. Defined.

Definition BUILDING_LIMITS : Remaining.t := Remaining.mk 5 4 15.

Definition createPlayer (id : nat) : Player.t :=
  Player.mk id (Resources.mk 0 0 0 0 0) [] [] []
    (DevCards.mk 0 0 0 0 0 false false false) [] 0 0 0 false 0 BUILDING_LIMITS.

Definition DEV_CARD_DECK : list DevCardType :=
  replicate 14 KNIGHT ++ replicate 2 ROAD_BUILDING ++ replicate 2 MONOPOLY
  ++ replicate 2 YEAR_OF_PLENTY ++ replicate 5 VICTORY_POINT.

(** [createInitialGameState(numPlayers)] followed by the constructor's
    [gameState.board = generateRandomBoard()].  [deck] is the outcome of the
    comparator-based shuffle of [DEV_CARD_DECK]. *)
Definition createInitialGameState (numPlayers : nat) (board : Board.t)
    (deck : list DevCardType) : GameState.t :=
  GameState.mk SETUP DICE_ROLL 0 1 1 0 None None board
    (map createPlayer (seq 0 numPlayers)) deck None 0 None 0 10.

(** ** Exceptions and the handler monad *)

(** [Error_ msg] is [new Error(msg)]; [TypeError] is a property read or
    write on [undefined].  [OutOfFuel] is not a JS exception: it marks a
    recursion bound of the model that was too small, so that a bounded
    recursion never passes for a result of the source. *)
Inductive Error := Error_ (message : string) | TypeError | OutOfFuel.

Inductive Outcome (A : Type) := Return (a : A) | Throw (e : Error).
Arguments Return {A} a.
Arguments Throw {A} e.

(** A query reads the state and may throw; a handler may also mutate. *)
Definition Query (A : Type) : Type := GameState.t -> Outcome A.
Definition Eng (A : Type) : Type := GameState.t -> GameState.t * Outcome A.

Definition qret {A} (a : A) : Query A := fun _ => Return a.
Definition qbind {A B} (m : Query A) (k : A -> Query B) : Query B :=
  fun s => match m s with Return a => k a s | Throw e => Throw e end.
Definition qthrow {A} (e : Error) : Query A := fun _ => Throw e.
Definition qgets {A} (f : GameState.t -> A) : Query A := fun s => Return (f s).
(** [x = a[i]] immediately followed by a property read of [x]. *)
Definition qdefined {A} (o : option A) : Query A :=
  fun _ => match o with Some a => Return a | None => Throw TypeError end.

Definition ret {A} (a : A) : Eng A := fun s => (s, Return a).
Definition bind {A B} (m : Eng A) (k : A -> Eng B) : Eng B :=
  fun s => match m s with
           | (s', Return a) => k a s'
           | (s', Throw e) => (s', Throw e)
           end.
Definition throw {A} (e : Error) : Eng A := fun s => (s, Throw e).
Definition gets {A} (f : GameState.t -> A) : Eng A := fun s => (s, Return (f s)).
Definition modify (f : GameState.t -> GameState.t) : Eng unit := fun s => (f s, Return tt).
Definition query {A} (m : Query A) : Eng A := fun s => (s, m s).
Definition defined {A} (o : option A) : Eng A :=
  fun s => (s, match o with Some a => Return a | None => Throw TypeError end).

Declare Scope eng_scope.
Delimit Scope eng_scope with eng.
Notation "x <- c1 ;; c2" := (bind c1 (fun x => c2))
  (at level 100, c1 at next level, right associativity) : eng_scope.
Notation "c1 ;; c2" := (bind c1 (fun _ => c2))
  (at level 100, right associativity) : eng_scope.
Declare Scope query_scope.
Delimit Scope query_scope with query.
Notation "x <- c1 ;; c2" := (qbind c1 (fun x => c2))
  (at level 100, c1 at next level, right associativity) : query_scope.
Notation "c1 ;; c2" := (qbind c1 (fun _ => c2))
  (at level 100, right associativity) : query_scope.

(** [if (cond) throw new Error(msg)] *)
Definition throw_if (cond : bool) (msg : string) : Eng unit :=
  if cond then throw (Error_ msg) else ret tt.

(** [forEach] with a handler body. *)
Fixpoint forEach {A} (l : list A) (body : A -> Eng unit) : Eng unit :=
  match l with
  | [] => ret tt
  | x :: rest => bind (body x) (fun _ => forEach rest body)
  end.

(** [Array.prototype.some] with a predicate that may throw: stops at the
    first [true]. *)
Fixpoint some_q {A} (l : list A) (pred : A -> Query bool) : Query bool :=
  match l with
  | [] => qret false
  | x :: rest => qbind (pred x) (fun b => if b then qret true else some_q rest pred)
  end.

(** Mutation through an object reference held in the arrays of the state. *)
Definition modify_player (i : nat) (f : Player.t -> Player.t) : Eng unit :=
  modify (fun s => GameState.set_players (alter f i (GameState.players s)) s).
Definition modify_board (f : Board.t -> Board.t) : Eng unit :=
  modify (fun s => GameState.set_board (f (GameState.board s)) s).
Definition modify_node (i : nat) (f : Node.t -> Node.t) : Eng unit :=
  modify_board (fun b => Board.set_nodes (alter f i (Board.nodes b)) b).
Definition modify_edge (i : nat) (f : Edge.t -> Edge.t) : Eng unit :=
  modify_board (fun b => Board.set_edges (alter f i (Board.edges b)) b).
Definition modify_tile (i : nat) (f : Tile.t -> Tile.t) : Eng unit :=
  modify_board (fun b => Board.set_tiles (alter f i (Board.tiles b)) b).

Definition nodes_of (s : GameState.t) := Board.nodes (GameState.board s).
Definition edges_of (s : GameState.t) := Board.edges (GameState.board s).
Definition tiles_of (s : GameState.t) := Board.tiles (GameState.board s).

(** ** [game-types.js]: utility functions *)

Definition BUILDING_COSTS (b : BuildingType) : list (Resource * Z) :=
  match b with
  | bt_settlement => [(wood, 1); (brick, 1); (sheep, 1); (wheat, 1)]
  | bt_city => [(ore, 3); (wheat, 2)]
  | bt_road => [(wood, 1); (brick, 1)]
  | bt_developmentCard => [(ore, 1); (sheep, 1); (wheat, 1)]
  end.

Definition VP_settlement : Z := 1.
Definition VP_city : Z := 2.
Definition VP_longestRoad : Z := 2.
Definition VP_largestArmy : Z := 2.
Definition VP_victoryPointCard : Z := 1.

Definition calculateVictoryPoints (player : Player.t) : Z :=
  let points := 0 in
  let points := points + Z.of_nat (length (Player.settlements player)) * VP_settlement in
  let points := points + Z.of_nat (length (Player.cities player)) * VP_city in
  let points := points
    + DevCards.victoryPoint (Player.developmentCards player) * VP_victoryPointCard in
  points.

Definition calculatePublicVictoryPoints (player : Player.t) (gameState : GameState.t) : Z :=
  let points := calculateVictoryPoints player in
  let points := points
    - DevCards.victoryPoint (Player.developmentCards player) * VP_victoryPointCard in
  let points :=
    if decide (GameState.longestRoadPlayer gameState = Some (Player.id player))
    then points + VP_longestRoad else points in
  let points :=
    if decide (GameState.largestArmyPlayer gameState = Some (Player.id player))
    then points + VP_largestArmy else points in
  points.

Definition canAffordBuilding (player : Player.t) (buildingType : BuildingType) : bool :=
  forallb (fun '(resource, amount) =>
             bool_decide (res_get resource (Player.resources player) >= amount))
          (BUILDING_COSTS buildingType).

Definition payForBuilding (player : Player.t) (buildingType : BuildingType) : Resources.t :=
  foldl (fun newResources '(resource, amount) => res_add resource (- amount) newResources)
        (Player.resources player) (BUILDING_COSTS buildingType).

Definition getTotalResources (player : Player.t) : Z :=
  foldl (fun sum count => sum + count) 0
        (map (fun r => res_get r (Player.resources player)) RESOURCES).

(** [gameState.board.edges.find(e => (e.fromNode === a && e.toNode === b) ||
    (e.fromNode === b && e.toNode === a))] *)
Definition findEdgeBetween (edges : list Edge.t) (a b : nat) : option Edge.t :=
  List.find (fun e =>
    (bool_decide (Edge.fromNode e = a) && bool_decide (Edge.toNode e = b))
    || (bool_decide (Edge.fromNode e = b) && bool_decide (Edge.toNode e = a))) edges.

(** [edge && edge.road === playerId] *)
Definition isRoadOf (playerId : nat) (edge : option Edge.t) : bool :=
  match edge with
  | Some e => bool_decide (Edge.road e = Some playerId)
  | None => false
  end.

Definition isConnectedToRoadNetwork (playerId nodeId : nat) : Query bool :=
  (s <- qgets (fun s => s) ;;
   node <- qdefined (nodes_of s !! nodeId) ;;
   qret (existsb (fun neighborId =>
                    isRoadOf playerId (findEdgeBetween (edges_of s) nodeId neighborId))
                 (Node.neighborNodes node)))%query.

Definition canPlaceSettlement (playerId nodeId : nat) : Query bool :=
  (s <- qgets (fun s => s) ;;
   node <- qdefined (nodes_of s !! nodeId) ;;
   if bool_decide (Node.building node <> None) then qret false else
   hasNearbyBuilding <- some_q (Node.neighborNodes node) (fun neighborId =>
       neighbor <- qdefined (nodes_of s !! neighborId) ;;
       qret (bool_decide (Node.building neighbor <> None))) ;;
   if (hasNearbyBuilding : bool) then qret false else
   player <- qdefined (GameState.players s !! playerId) ;;
   if bool_decide (Remaining.settlements (Player.buildingsRemaining player) <= 0)
   then qret false else
   if decide (GameState.phase s = MAIN_GAME)
   then isConnectedToRoadNetwork playerId nodeId
   else qret true)%query.

Definition isConnectedToPlayerNetwork (playerId edgeId : nat) : Query bool :=
  (s <- qgets (fun s => s) ;;
   edge <- qdefined (edges_of s !! edgeId) ;;
   fromNode <- qdefined (nodes_of s !! Edge.fromNode edge) ;;
   let fromHasBuilding :=
     bool_decide (Node.building fromNode <> None)
     && bool_decide (Node.owner fromNode = Some playerId) in
   toNode <- qdefined (nodes_of s !! Edge.toNode edge) ;;
   let toHasBuilding :=
     bool_decide (Node.building toNode <> None)
     && bool_decide (Node.owner toNode = Some playerId) in
   if fromHasBuilding || toHasBuilding then qret true else
   let fromHasRoad :=
     existsb (fun neighborId =>
       if decide (neighborId = Edge.toNode edge) then false
       else isRoadOf playerId
              (findEdgeBetween (edges_of s) (Edge.fromNode edge) neighborId))
       (Node.neighborNodes fromNode) in
   let toHasRoad :=
     existsb (fun neighborId =>
       if decide (neighborId = Edge.fromNode edge) then false
       else isRoadOf playerId
              (findEdgeBetween (edges_of s) (Edge.toNode edge) neighborId))
       (Node.neighborNodes toNode) in
   qret (fromHasRoad || toHasRoad))%query.

Definition canPlaceRoad (playerId edgeId : nat) : Query bool :=
  (s <- qgets (fun s => s) ;;
   edge <- qdefined (edges_of s !! edgeId) ;;
   if bool_decide (Edge.road edge <> None) then qret false else
   player <- qdefined (GameState.players s !! playerId) ;;
   if bool_decide (Remaining.roads (Player.buildingsRemaining player) <= 0)
   then qret false else
   isConnectedToPlayerNetwork playerId edgeId)%query.

(** ** [CatanGameEngine] *)

(** *** Victory points *)

Definition getCurrentPlayer (s : GameState.t) : option Player.t :=
  GameState.players s !! GameState.currentPlayer s.

(** [updateVictoryPoints(player)], the player given by its array index. *)
Definition updateVictoryPoints (i : nat) : Eng unit :=
  modify (fun s =>
    GameState.set_players
      (alter (fun player =>
                Player.set_points (calculateVictoryPoints player)
                                  (calculatePublicVictoryPoints player s) player)
             i (GameState.players s)) s).

Definition player_indices (s : GameState.t) : list nat :=
  seq 0 (length (GameState.players s)).

Definition checkVictoryCondition : Eng unit :=
  (s0 <- gets (fun s => s) ;;
   forEach (player_indices s0) (fun i =>
     updateVictoryPoints i ;;
     player <- (s <- gets (fun s => s) ;; defined (GameState.players s !! i)) ;;
     threshold <- gets GameState.victoryPointsToWin ;;
     if bool_decide (Player.victoryPoints player >= threshold) then
       modify (GameState.set_phase GAME_OVER) ;;
       modify (GameState.set_gameWinner (Some (Player.id player)))
     else ret tt))%eng.

(** *** Longest road *)

(** The [Map] from node id to neighbour list, in insertion order. *)
Definition RoadNetwork := list (nat * list nat).

Definition net_get (roadNetwork : RoadNetwork) (k : nat) : option (list nat) :=
  snd <$> List.find (fun kv => bool_decide (fst kv = k)) roadNetwork.

(** [if (!roadNetwork.has(k)) roadNetwork.set(k, [])] *)
Definition net_ensure (k : nat) (roadNetwork : RoadNetwork) : RoadNetwork :=
  match net_get roadNetwork k with
  | Some _ => roadNetwork
  | None => roadNetwork ++ [(k, [])]
  end.

(** [roadNetwork.get(k).push(v)] *)
Definition net_push (k v : nat) (roadNetwork : RoadNetwork) : RoadNetwork :=
  map (fun kv => if decide (fst kv = k) then (fst kv, snd kv ++ [v]) else kv) roadNetwork.

Definition addRoadToNetwork (edge : Edge.t) (roadNetwork : RoadNetwork) : RoadNetwork :=
  let roadNetwork := net_ensure (Edge.fromNode edge) roadNetwork in
  let roadNetwork := net_ensure (Edge.toNode edge) roadNetwork in
  let roadNetwork := net_push (Edge.fromNode edge) (Edge.toNode edge) roadNetwork in
  net_push (Edge.toNode edge) (Edge.fromNode edge) roadNetwork.

Fixpoint buildRoadNetwork (edges : list Edge.t) (roads : list nat)
    (roadNetwork : RoadNetwork) : Outcome RoadNetwork :=
  match roads with
  | [] => Return roadNetwork
  | edgeId :: rest =>
      match edges !! edgeId with
      | None => Throw TypeError
      | Some edge => buildRoadNetwork edges rest (addRoadToNetwork edge roadNetwork)
      end
  end.

(** [dfsLongestPath].  [visited] is the set of nodes on the current path:
    the source adds [currentNode] on entry and deletes it on exit, which is
    the same as passing the extended set down.  The recursion depth is
    bounded by the number of keys of the network; [fuel] is that bound. *)
Fixpoint dfsLongestPath (fuel : nat) (nodes : list Node.t) (roadNetwork : RoadNetwork)
    (currentNode : nat) (visited : list nat) (playerId : nat) : Outcome Z :=
  match fuel with
  | O => Throw OutOfFuel
  | S fuel' =>
      let visited := currentNode :: visited in
      let neighbors := default [] (net_get roadNetwork currentNode) in
      (fix loop (ns : list nat) (maxLength : Z) : Outcome Z :=
         match ns with
         | [] => Return maxLength
         | neighbor :: rest =>
             if decide (neighbor ∈ visited) then loop rest maxLength else
             match nodes !! neighbor with
             | None => Throw TypeError
             | Some node =>
                 if bool_decide (Node.building node <> None)
                    && bool_decide (Node.owner node <> Some playerId)
                 then loop rest maxLength
                 else
                   match dfsLongestPath fuel' nodes roadNetwork neighbor visited playerId with
                   | Return length => loop rest (Z.max maxLength (1 + length))
                   | Throw e => Throw e
                   end
             end
         end) neighbors 0
  end.

Fixpoint longestFromStarts (nodes : list Node.t) (roadNetwork : RoadNetwork)
    (starts : list nat) (playerId : nat) (maxLength : Z) : Outcome Z :=
  match starts with
  | [] => Return maxLength
  | startNode :: rest =>
      match dfsLongestPath (S (length roadNetwork)) nodes roadNetwork startNode [] playerId with
      | Return length =>
          longestFromStarts nodes roadNetwork rest playerId (Z.max maxLength length)
      | Throw e => Throw e
      end
  end.

Definition calculateLongestRoadForPlayer (playerId : nat) : Query Z :=
  (s <- qgets (fun s => s) ;;
   player <- qdefined (GameState.players s !! playerId) ;;
   if decide (Player.roads player = []) then qret 0 else
   fun _ =>
     match buildRoadNetwork (edges_of s) (Player.roads player) [] with
     | Throw e => Throw e
     | Return roadNetwork =>
         longestFromStarts (nodes_of s) roadNetwork (map fst roadNetwork) playerId 0
     end)%query.

(** The [forEach] of [checkLongestRoad] that selects the candidate holder. *)
Fixpoint longestRoadCandidate (players : list Player.t)
    (longestRoadPlayer : option nat) (longestRoadLength : Z)
    : Query (option nat * Z) :=
  match players with
  | [] => qret (longestRoadPlayer, longestRoadLength)
  | player :: rest =>
      (roadLength <- calculateLongestRoadForPlayer (Player.id player) ;;
       if bool_decide (roadLength >= 5) && bool_decide (roadLength > longestRoadLength)
       then longestRoadCandidate rest (Some (Player.id player)) roadLength
       else longestRoadCandidate rest longestRoadPlayer longestRoadLength)%query
  end.

Definition checkLongestRoad : Eng unit :=
  (s <- gets (fun s => s) ;;
   candidate <- query (longestRoadCandidate (GameState.players s) None 0) ;;
   let longestRoadPlayer := fst candidate in
   let longestRoadLength := snd candidate in
   if decide (longestRoadPlayer <> GameState.longestRoadPlayer s) then
     modify (GameState.set_longestRoad longestRoadPlayer longestRoadLength) ;;
     forEach (player_indices s) updateVictoryPoints
   else ret tt)%eng.

(** *** Setup phase *)

(** [x = f(state)] followed by a property access on [x]. *)
Definition read {A} (f : GameState.t -> option A) : Eng A :=
  fun s => (s, match f s with Some a => Return a | None => Throw TypeError end).

Inductive SetupAction := place_settlement | place_road | end_turn.

#[global] Instance SetupAction_eq_dec : EqDecision SetupAction.
Proof. solve_decision. Defined.

Definition getNextSetupAction : Query SetupAction :=
  (s <- qgets (fun s => s) ;;
   player <- qdefined (getCurrentPlayer s) ;;
   let settlementsPlaced := Z.of_nat (length (Player.settlements player)) in
   let roadsPlaced := Z.of_nat (length (Player.roads player)) in
   if bool_decide (settlementsPlaced < GameState.setupRound s) then qret place_settlement
   else if bool_decide (roadsPlaced < GameState.setupRound s) then qret place_road
   else qret end_turn)%query.

Definition dec_settlements (x : Remaining.t) : Remaining.t :=
  Remaining.mk (Remaining.settlements x - 1) (Remaining.cities x) (Remaining.roads x).
Definition dec_roads (x : Remaining.t) : Remaining.t :=
  Remaining.mk (Remaining.settlements x) (Remaining.cities x) (Remaining.roads x - 1).
(** [buildingsRemaining.settlements++; buildingsRemaining.cities--] *)
Definition upgrade_remaining (x : Remaining.t) : Remaining.t :=
  Remaining.mk (Remaining.settlements x + 1) (Remaining.cities x - 1) (Remaining.roads x).

(** [player.settlements.push(nodeId); player.buildingsRemaining.settlements--] *)
Definition place_settlement_on (nodeId : nat) (p : Player.t) : Player.t :=
  Player.set_buildingsRemaining (dec_settlements (Player.buildingsRemaining p))
    (Player.set_settlements (Player.settlements p ++ [nodeId]) p).

(** [player.roads.push(edgeId); player.buildingsRemaining.roads--] *)
Definition place_road_on (edgeId : nat) (p : Player.t) : Player.t :=
  Player.set_buildingsRemaining (dec_roads (Player.buildingsRemaining p))
    (Player.set_roads (Player.roads p ++ [edgeId]) p).

(** [player.resources[r] += d] *)
Definition gain (r : Resource) (d : Z) (p : Player.t) : Player.t :=
  Player.set_resources (res_add r d (Player.resources p)) p.

(** [grantInitialResources(player, settlementNodeId)], the player by index. *)
Definition grantInitialResources (i settlementNodeId : nat) : Eng unit :=
  (node <- read (fun s => nodes_of s !! settlementNodeId) ;;
   forEach (Node.adjacentTiles node) (fun tileId =>
     tile <- read (fun s => tiles_of s !! tileId) ;;
     match Tile.resource tile with
     | land r => modify_player i (gain r 1)
     | desert => ret tt
     end))%eng.

Definition placeInitialSettlement (nodeId : nat) : Eng bool :=
  (s <- gets (fun s => s) ;;
   throw_if (bool_decide (GameState.phase s <> SETUP)) "Not in setup phase" ;;
   action <- query getNextSetupAction ;;
   throw_if (bool_decide (action <> place_settlement)) "Cannot place settlement now" ;;
   ok <- query (canPlaceSettlement (GameState.currentPlayer s) nodeId) ;;
   throw_if (negb ok) "Cannot place settlement at this location" ;;
   player <- read getCurrentPlayer ;;
   modify_player (GameState.currentPlayer s) (place_settlement_on nodeId) ;;
   modify_node nodeId (Node.set_building (Some settlement)) ;;
   modify_node nodeId (Node.set_owner (Some (Player.id player))) ;;
   (if decide (GameState.setupRound s = 2)
    then grantInitialResources (GameState.currentPlayer s) nodeId
    else ret tt) ;;
   updateVictoryPoints (GameState.currentPlayer s) ;;
   ret true)%eng.

Definition startMainGame : Eng unit :=
  (modify (GameState.set_phase MAIN_GAME) ;;
   modify (GameState.set_turnPhase DICE_ROLL) ;;
   modify (GameState.set_currentPlayer 0) ;;
   modify (GameState.set_turnNumber 1))%eng.

Definition endSetupTurn : Eng unit :=
  (s <- gets (fun s => s) ;;
   let totalPlayers := Z.of_nat (length (GameState.players s)) in
   if decide (GameState.setupRound s = 1) then
     if bool_decide (Z.of_nat (GameState.currentPlayer s) < totalPlayers - 1) then
       modify (GameState.set_currentPlayer (S (GameState.currentPlayer s)))
     else
       modify (GameState.set_setup 2 (-1))
   else
     if bool_decide (Z.of_nat (GameState.currentPlayer s) > 0) then
       modify (GameState.set_currentPlayer (pred (GameState.currentPlayer s)))
     else
       startMainGame)%eng.

Definition placeInitialRoad (edgeId : nat) : Eng bool :=
  (s <- gets (fun s => s) ;;
   throw_if (bool_decide (GameState.phase s <> SETUP)) "Not in setup phase" ;;
   action <- query getNextSetupAction ;;
   throw_if (bool_decide (action <> place_road)) "Cannot place road now" ;;
   player <- read getCurrentPlayer ;;
   edge <- read (fun s => edges_of s !! edgeId) ;;
   let lastSettlement := last (Player.settlements player) in
   let connectsToLastSettlement :=
     bool_decide (Some (Edge.fromNode edge) = lastSettlement)
     || bool_decide (Some (Edge.toNode edge) = lastSettlement) in
   throw_if (negb connectsToLastSettlement)
     "Road must connect to the settlement just placed" ;;
   throw_if (bool_decide (Edge.road edge <> None)) "Edge already has a road" ;;
   modify_player (GameState.currentPlayer s) (place_road_on edgeId) ;;
   modify_edge edgeId (Edge.set_road (Some (Player.id player))) ;;
   action' <- query getNextSetupAction ;;
   (if decide (action' = end_turn) then endSetupTurn else ret tt) ;;
   ret true)%eng.

(** *** Dice, robber, discard *)

(** The [forEach] of [handleRobberRoll], returning [playersNeedToDiscard]. *)
Fixpoint flagDiscards (indices : list nat) (playersNeedToDiscard : Z) : Eng Z :=
  match indices with
  | [] => ret playersNeedToDiscard
  | i :: rest =>
      (player <- read (fun s => GameState.players s !! i) ;;
       let totalCards := getTotalResources player in
       if bool_decide (totalCards > 7) then
         modify_player i (Player.set_mustDiscardCards (totalCards / 2)) ;;
         flagDiscards rest (playersNeedToDiscard + 1)
       else flagDiscards rest playersNeedToDiscard)%eng
  end.

Definition handleRobberRoll : Eng unit :=
  (s0 <- gets (fun s => s) ;;
   playersNeedToDiscard <- flagDiscards (player_indices s0) 0 ;;
   if bool_decide (playersNeedToDiscard > 0)
   then modify (GameState.set_turnPhase DISCARD_CARDS)
   else modify (GameState.set_turnPhase ROBBER_PLACEMENT))%eng.

(** The two inner loops of [produceResources] have the same body: one
    [resources[tile.resource]++] per building and matching tile.  A desert
    tile never carries a token ([generateTiles]); were it to match, the
    increment would go to a key outside the five resources, which the
    model leaves out. *)
Definition produceForNodes (diceRoll : Z) (i : nat) (nodeIds : list nat) : Eng unit :=
  forEach nodeIds (fun nodeId =>
    node <- read (fun s => nodes_of s !! nodeId) ;;
    forEach (Node.adjacentTiles node) (fun tileId =>
      tile <- read (fun s => tiles_of s !! tileId) ;;
      if bool_decide (Tile.token tile = Some diceRoll) && negb (Tile.isBlocked tile)
      then match Tile.resource tile with
           | land r => modify_player i (gain r 1)
           | desert => ret tt
           end
      else ret tt))%eng.

Definition produceResources (diceRoll : Z) : Eng unit :=
  (s0 <- gets (fun s => s) ;;
   forEach (player_indices s0) (fun i =>
     player <- read (fun s => GameState.players s !! i) ;;
     (* Check settlements *)
     produceForNodes diceRoll i (Player.settlements player) ;;
     (* Check cities (double production) *)
     produceForNodes diceRoll i (Player.cities player)))%eng.

(** [rollDice()], the two dice given by the caller. *)
Definition rollDice (dice1 dice2 : Z) : Eng (Z * Z * Z) :=
  (s <- gets (fun s => s) ;;
   throw_if (bool_decide (GameState.phase s <> MAIN_GAME)) "Not in main game phase" ;;
   throw_if (bool_decide (GameState.turnPhase s <> DICE_ROLL)) "Not dice roll phase" ;;
   let total := dice1 + dice2 in
   modify (GameState.set_lastDiceRoll (Some total)) ;;
   (if decide (total = 7) then handleRobberRoll
    else (produceResources total ;; modify (GameState.set_turnPhase ACTIONS))) ;;
   ret (dice1, dice2, total))%eng.

(** A JS object whose keys are resources, such as [cardsToDiscard]:
    [None] for an absent key. *)
Module Bundle.
Record t := mk {
  o_wood : option Z; o_brick : option Z; o_sheep : option Z;
  o_wheat : option Z; o_ore : option Z
}.
End Bundle.

Definition bundle_get (r : Resource) (b : Bundle.t) : option Z :=
  match r with
  | wood => Bundle.o_wood b
  | brick => Bundle.o_brick b
  | sheep => Bundle.o_sheep b
  | wheat => Bundle.o_wheat b
  | ore => Bundle.o_ore b
  end.

(** [Object.entries(b)].  The order of the entries only decides which of
    several failing checks throws first. *)
Definition entries (b : Bundle.t) : list (Resource * Z) :=
  omap (fun r => (fun v => (r, v)) <$> bundle_get r b) RESOURCES.

Definition sum_values (es : list (Resource * Z)) : Z :=
  foldl (fun sum e => sum + snd e) 0 es.

Definition discardCards (playerId : nat) (cardsToDiscard : Bundle.t) : Eng unit :=
  (player <- read (fun s => GameState.players s !! playerId) ;;
   throw_if (bool_decide (Player.mustDiscardCards player = 0))
     "Player does not need to discard" ;;
   let totalDiscarded := sum_values (entries cardsToDiscard) in
   throw_if (bool_decide (totalDiscarded <> Player.mustDiscardCards player))
     "Must discard exactly that many cards" ;;
   forEach (entries cardsToDiscard) (fun '(resource, count) =>
     throw_if (bool_decide (res_get resource (Player.resources player) < count))
       "Not enough cards to discard") ;;
   forEach (entries cardsToDiscard) (fun '(resource, count) =>
     modify_player playerId (gain resource (- count))) ;;
   modify_player playerId (Player.set_mustDiscardCards 0) ;;
   s <- gets (fun s => s) ;;
   let playersStillDiscarding :=
     existsb (fun p => bool_decide (Player.mustDiscardCards p > 0)) (GameState.players s) in
   if playersStillDiscarding then ret tt
   else modify (GameState.set_turnPhase ROBBER_PLACEMENT))%eng.

(** [stealRandomCard]; [rnd] is the raw draw behind
    [Math.floor(Math.random() * availableResources.length)]. *)
Definition stealRandomCard (stealerPlayerId victimPlayerId : nat) (rnd : nat)
    : Eng (option Resource) :=
  (victim <- read (fun s => GameState.players s !! victimPlayerId) ;;
   let availableResources :=
     flat_map (fun r => replicate (Z.to_nat (res_get r (Player.resources victim))) r)
              RESOURCES in
   match availableResources !! (rnd mod length availableResources)%nat with
   | None => ret None
   | Some stolenResource =>
       modify_player victimPlayerId (gain stolenResource (-1)) ;;
       _ <- read (fun s => GameState.players s !! stealerPlayerId) ;;
       modify_player stealerPlayerId (gain stolenResource 1) ;;
       ret (Some stolenResource)
   end)%eng.

Definition moveRobber (tileId : nat) (targetPlayerId : option nat) (rnd : nat) : Eng unit :=
  (s <- gets (fun s => s) ;;
   throw_if (bool_decide (GameState.turnPhase s <> ROBBER_PLACEMENT))
     "Not robber placement phase" ;;
   throw_if (bool_decide (tiles_of s !! tileId = None)) "Invalid tile" ;;
   throw_if (bool_decide (Some tileId = Board.robberPosition (GameState.board s)))
     "Robber must move to a different tile" ;;
   (* Clear robber from old position *)
   match Board.robberPosition (GameState.board s) with
   | Some old =>
       _ <- read (fun s => tiles_of s !! old) ;;
       modify_tile old (Tile.set_robber false)
   | None => ret tt
   end ;;
   (* Place robber on new tile *)
   modify_board (Board.set_robberPosition (Some tileId)) ;;
   modify_tile tileId (Tile.set_robber true) ;;
   (* Steal from adjacent player if specified *)
   match targetPlayerId with
   | Some victim =>
       _ <- stealRandomCard (GameState.currentPlayer s) victim rnd ;; ret tt
   | None => ret tt
   end ;;
   modify (GameState.set_turnPhase ACTIONS))%eng.

(** *** Building *)

Definition buildSettlement (nodeId : nat) : Eng bool :=
  (s <- gets (fun s => s) ;;
   throw_if (bool_decide (GameState.turnPhase s <> ACTIONS)) "Not in actions phase" ;;
   player <- read getCurrentPlayer ;;
   throw_if (negb (canAffordBuilding player bt_settlement)) "Cannot afford settlement" ;;
   ok <- query (canPlaceSettlement (Player.id player) nodeId) ;;
   throw_if (negb ok) "Cannot place settlement at this location" ;;
   (* Pay cost *)
   modify_player (GameState.currentPlayer s)
     (Player.set_resources (payForBuilding player bt_settlement)) ;;
   (* Place settlement *)
   modify_player (GameState.currentPlayer s) (place_settlement_on nodeId) ;;
   (* Update node *)
   modify_node nodeId (Node.set_building (Some settlement)) ;;
   modify_node nodeId (Node.set_owner (Some (Player.id player))) ;;
   updateVictoryPoints (GameState.currentPlayer s) ;;
   checkLongestRoad ;;
   ret true)%eng.

(** [Array.prototype.indexOf]: [None] is -1. *)
Fixpoint indexOf (x : nat) (l : list nat) : option nat :=
  match l with
  | [] => None
  | y :: rest => if decide (y = x) then Some O else S <$> indexOf x rest
  end.

(** [l.splice(index, 1)]; [splice(-1, 1)] removes the last element. *)
Definition splice1 (index : option nat) (l : list nat) : list nat :=
  match index with
  | Some i => delete i l
  | None => take (length l - 1) l
  end.

(** The player-side mutations of [buildCity] after the payment. *)
Definition upgrade_on (nodeId : nat) (p : Player.t) : Player.t :=
  let settlementIndex := indexOf nodeId (Player.settlements p) in
  Player.set_buildingsRemaining (upgrade_remaining (Player.buildingsRemaining p))
    (Player.set_cities (Player.cities p ++ [nodeId])
       (Player.set_settlements (splice1 settlementIndex (Player.settlements p)) p)).

Definition buildCity (nodeId : nat) : Eng bool :=
  (s <- gets (fun s => s) ;;
   throw_if (bool_decide (GameState.turnPhase s <> ACTIONS)) "Not in actions phase" ;;
   player <- read getCurrentPlayer ;;
   throw_if (negb (canAffordBuilding player bt_city)) "Cannot afford city" ;;
   node <- read (fun s => nodes_of s !! nodeId) ;;
   throw_if (bool_decide (Node.building node <> Some settlement)
             || bool_decide (Node.owner node <> Some (Player.id player)))
     "Must upgrade your own settlement" ;;
   throw_if (bool_decide (Remaining.cities (Player.buildingsRemaining player) <= 0))
     "No cities remaining" ;;
   (* Pay cost *)
   modify_player (GameState.currentPlayer s)
     (Player.set_resources (payForBuilding player bt_city)) ;;
   (* Upgrade settlement to city *)
   modify_player (GameState.currentPlayer s) (upgrade_on nodeId) ;;
   (* Update node *)
   modify_node nodeId (Node.set_building (Some city)) ;;
   updateVictoryPoints (GameState.currentPlayer s) ;;
   ret true)%eng.

Definition buildRoad (edgeId : nat) : Eng bool :=
  (s <- gets (fun s => s) ;;
   throw_if (bool_decide (GameState.turnPhase s <> ACTIONS)) "Not in actions phase" ;;
   player <- read getCurrentPlayer ;;
   throw_if (negb (canAffordBuilding player bt_road)) "Cannot afford road" ;;
   ok <- query (canPlaceRoad (Player.id player) edgeId) ;;
   throw_if (negb ok) "Cannot place road at this location" ;;
   (* Pay cost *)
   modify_player (GameState.currentPlayer s)
     (Player.set_resources (payForBuilding player bt_road)) ;;
   (* Place road *)
   modify_player (GameState.currentPlayer s) (place_road_on edgeId) ;;
   modify_edge edgeId (Edge.set_road (Some (Player.id player))) ;;
   checkLongestRoad ;;
   ret true)%eng.

(** *** Development cards *)

Definition buyDevelopmentCard : Eng DevCardType :=
  (s <- gets (fun s => s) ;;
   throw_if (bool_decide (GameState.turnPhase s <> ACTIONS)) "Not in actions phase" ;;
   player <- read getCurrentPlayer ;;
   throw_if (negb (canAffordBuilding player bt_developmentCard))
     "Cannot afford development card" ;;
   throw_if (bool_decide (length (GameState.developmentCardDeck s) = 0%nat))
     "No development cards remaining" ;;
   (* Pay cost *)
   modify_player (GameState.currentPlayer s)
     (Player.set_resources (payForBuilding player bt_developmentCard)) ;;
   (* Draw card *)
   let '(top, deck) := pop (GameState.developmentCardDeck s) in
   cardType <- defined top ;;
   modify (GameState.set_developmentCardDeck deck) ;;
   modify_player (GameState.currentPlayer s)
     (fun p => Player.set_developmentCards (dev_bump cardType 1 (Player.developmentCards p)) p) ;;
   updateVictoryPoints (GameState.currentPlayer s) ;;
   ret cardType)%eng.

(** *** Turn management *)

Definition endTurn : Eng unit :=
  (s <- gets (fun s => s) ;;
   throw_if (bool_decide (GameState.phase s <> MAIN_GAME)) "Not in main game" ;;
   (* Reset turn-specific flags *)
   _ <- read getCurrentPlayer ;;
   modify_player (GameState.currentPlayer s) (Player.set_turnFlags false []) ;;
   (* Next player *)
   modify (GameState.set_currentPlayer
             ((GameState.currentPlayer s + 1) mod length (GameState.players s))%nat) ;;
   modify (GameState.set_turnNumber (GameState.turnNumber s + 1)) ;;
   modify (GameState.set_turnPhase DICE_ROLL) ;;
   (* Check for victory *)
   checkVictoryCondition)%eng.

(** ** [TradingManager] ([trading-system.js])

    [getGameState()] returns a shallow copy: the [players] array and the
    player objects are those of the engine, so the manager's writes to
    [player.resources] are writes to the game state. *)

Inductive TradeStatus := pending | accepted | rejected | cancelled | expired.

#[global] Instance TradeStatus_eq_dec : EqDecision TradeStatus.
Proof. solve_decision. Defined.

Module Trade.
Record t := mk {
  fromPlayerId : nat;
  toPlayerId : nat;
  offerResources : Bundle.t;
  requestResources : Bundle.t;
  status : TradeStatus
}.
Definition set_status (v : TradeStatus) (x : t) : t :=
  mk (fromPlayerId x) (toPlayerId x) (offerResources x) (requestResources x) v.
End Trade.

(** [giveEntries.length !== 1] and [giveEntries[0]]. *)
Definition single_entry (b : Bundle.t) : option (Resource * Z) :=
  match entries b with
  | [e] => Some e
  | _ => None
  end.

Definition tradeWithBank (playerId : nat) (giveResources : Bundle.t)
    (receiveResource : Resource) : Eng bool :=
  (s <- gets (fun s => s) ;;
   throw_if (bool_decide (GameState.currentPlayer s <> playerId)) "Not your turn" ;;
   throw_if (bool_decide (GameState.turnPhase s <> ACTIONS)) "Not in actions phase" ;;
   match single_entry giveResources with
   | None => throw (Error_ "Can only trade one resource type at a time")
   | Some (giveResourceType, giveAmount) =>
       throw_if (bool_decide (giveAmount <> 4)) "Must trade exactly 4 resources to bank" ;;
       player <- read (fun s => GameState.players s !! playerId) ;;
       throw_if (bool_decide (res_get giveResourceType (Player.resources player) < giveAmount))
         "Not enough to trade" ;;
       modify_player playerId (gain giveResourceType (- giveAmount)) ;;
       modify_player playerId (gain receiveResource 1) ;;
       ret true
   end)%eng.

Definition playerHasAccessToPort (playerId : nat) (portType : PortType) : Query bool :=
  (s <- qgets (fun s => s) ;;
   some_q (Board.ports (GameState.board s)) (fun port =>
     if bool_decide (Port.type port <> portType) then qret false else
     some_q (Port.nodeIds port) (fun nodeId =>
       node <- qdefined (nodes_of s !! nodeId) ;;
       qret (bool_decide (Node.owner node = Some playerId)
             && bool_decide (Node.building node <> None)))))%query.

(** [getPortTradeRatio]: [inl error] or [inr ratio], the ratio [n] of
    ['n:1']. *)
Definition getPortTradeRatio (portType : PortType) (giveResources : Bundle.t)
    : string + Z :=
  match single_entry giveResources with
  | None => inl "Can only trade one resource type at a time"%string
  | Some (giveResourceType, giveAmount) =>
      match portType with
      | GENERIC =>
          if bool_decide (giveAmount <> 3)
          then inl "Generic port requires exactly 3 resources"%string
          else inr 3
      | port_of r =>
          if bool_decide (giveResourceType <> r)
          then inl "This port only accepts its resource"%string
          else if bool_decide (giveAmount <> 2)
          then inl "Specific port requires exactly 2 resources"%string
          else inr 2
      end
  end.

Definition tradeWithPort (playerId : nat) (portType : PortType)
    (giveResources : Bundle.t) (receiveResource : Resource) : Eng bool :=
  (s <- gets (fun s => s) ;;
   throw_if (bool_decide (GameState.currentPlayer s <> playerId)) "Not your turn" ;;
   throw_if (bool_decide (GameState.turnPhase s <> ACTIONS)) "Not in actions phase" ;;
   access <- query (playerHasAccessToPort playerId portType) ;;
   throw_if (negb access) "Player does not have access to this port" ;;
   match getPortTradeRatio portType giveResources with
   | inl error => throw (Error_ error)
   | inr _ =>
       player <- read (fun s => GameState.players s !! playerId) ;;
       forEach (entries giveResources) (fun '(resourceType, amount) =>
         throw_if (bool_decide (res_get resourceType (Player.resources player) < amount))
           "Not enough to trade") ;;
       forEach (entries giveResources) (fun '(resourceType, amount) =>
         modify_player playerId (gain resourceType (- amount))) ;;
       modify_player playerId (gain receiveResource 1) ;;
       ret true
   end)%eng.

(** [validateTradeResources]: at least one entry, every amount a positive
    integer (the keys are resources by typing). *)
Definition validateTradeResources (resources : Bundle.t) : bool :=
  negb (bool_decide (entries resources = []))
  && forallb (fun e => bool_decide (snd e > 0)) (entries resources).

(** [proposePlayerTrade]; [tradeId] is the id [generateTradeId()] returns.
    The result is the updated [activeTrades] map. *)
Definition proposePlayerTrade (activeTrades : gmap nat Trade.t) (tradeId : nat)
    (fromPlayerId toPlayerId : nat) (offerResources requestResources : Bundle.t)
    : Eng (gmap nat Trade.t) :=
  (s <- gets (fun s => s) ;;
   throw_if (bool_decide (GameState.currentPlayer s <> fromPlayerId))
     "Only current player can propose trades" ;;
   throw_if (bool_decide (GameState.turnPhase s <> ACTIONS)) "Not in actions phase" ;;
   match GameState.players s !! fromPlayerId, GameState.players s !! toPlayerId with
   | Some fromPlayer, Some toPlayer =>
       throw_if (bool_decide (fromPlayerId = toPlayerId)) "Cannot trade with yourself" ;;
       throw_if (negb (validateTradeResources offerResources)
                 || negb (validateTradeResources requestResources))
         "Invalid trade resources" ;;
       forEach (entries offerResources) (fun '(resourceType, amount) =>
         throw_if (bool_decide (res_get resourceType (Player.resources fromPlayer) < amount))
           "Not enough to offer") ;;
       ret (<[tradeId := Trade.mk fromPlayerId toPlayerId offerResources
                           requestResources pending]> activeTrades)
   | _, _ => throw (Error_ "Invalid player IDs")
   end)%eng.

Definition acceptPlayerTrade (activeTrades : gmap nat Trade.t) (tradeId : nat)
    (acceptingPlayerId : nat) : Eng (gmap nat Trade.t) :=
  match activeTrades !! tradeId with
  | None => throw (Error_ "Trade not found")
  | Some trade =>
      (throw_if (bool_decide (Trade.toPlayerId trade <> acceptingPlayerId))
         "Only the target player can accept this trade" ;;
       throw_if (bool_decide (Trade.status trade <> pending))
         "Trade is no longer available" ;;
       let offerEntries := entries (Trade.offerResources trade) in
       let requestEntries := entries (Trade.requestResources trade) in
       (* Revalidate both players still have required resources *)
       forEach offerEntries (fun '(resourceType, amount) =>
         fromPlayer <- read (fun s => GameState.players s !! Trade.fromPlayerId trade) ;;
         throw_if (bool_decide (res_get resourceType (Player.resources fromPlayer) < amount))
           "Offering player no longer has enough") ;;
       forEach requestEntries (fun '(resourceType, amount) =>
         toPlayer <- read (fun s => GameState.players s !! Trade.toPlayerId trade) ;;
         throw_if (bool_decide (res_get resourceType (Player.resources toPlayer) < amount))
           "You don't have enough to complete this trade") ;;
       (* Execute trade *)
       forEach offerEntries (fun '(resourceType, amount) =>
         _ <- read (fun s => GameState.players s !! Trade.fromPlayerId trade) ;;
         modify_player (Trade.fromPlayerId trade) (gain resourceType (- amount)) ;;
         _ <- read (fun s => GameState.players s !! Trade.toPlayerId trade) ;;
         modify_player (Trade.toPlayerId trade) (gain resourceType amount)) ;;
       forEach requestEntries (fun '(resourceType, amount) =>
         _ <- read (fun s => GameState.players s !! Trade.toPlayerId trade) ;;
         modify_player (Trade.toPlayerId trade) (gain resourceType (- amount)) ;;
         _ <- read (fun s => GameState.players s !! Trade.fromPlayerId trade) ;;
         modify_player (Trade.fromPlayerId trade) (gain resourceType amount)) ;;
       ret (<[tradeId := Trade.set_status accepted trade]> activeTrades))%eng
  end.

(** ** [DevelopmentCardManager] ([advanced-ai-engine.js]) *)

(** [canPlayDevelopmentCard]: [None] for [{canPlay: true}], otherwise the
    reason. *)
Definition canPlayDevelopmentCard (playerId : nat) (cardType : DevCardType)
    : Query (option string) :=
  (s <- qgets (fun s => s) ;;
   if bool_decide (GameState.currentPlayer s <> playerId)
   then qret (Some "Not your turn"%string) else
   if bool_decide (GameState.turnPhase s <> ACTIONS)
   then qret (Some "Not in actions phase"%string) else
   player <- qdefined (GameState.players s !! playerId) ;;
   if dev_le_0 cardType (Player.developmentCards player)
   then qret (Some "Player does not have this card"%string) else
   if bool_decide (cardType <> VICTORY_POINT) && Player.hasPlayedDevCard player
   then qret (Some "Already played a development card this turn"%string) else
   if bool_decide (cardType ∈ Player.developmentCardsPlayedThisTurn player)
   then qret (Some "Cannot play card bought this turn"%string) else
   qret None)%query.

(** [developmentCards[cardType]--; hasPlayedDevCard = true] *)
Definition use_card (cardType : DevCardType) (p : Player.t) : Player.t :=
  Player.set_turnFlags true (Player.developmentCardsPlayedThisTurn p)
    (Player.set_developmentCards (dev_bump cardType (-1) (Player.developmentCards p)) p).

(** The [forEach] of [playMonopoly], returning [totalStolen]. *)
Fixpoint monopolize (indices : list nat) (playerId : nat) (resourceType : Resource)
    (totalStolen : Z) : Eng Z :=
  match indices with
  | [] => ret totalStolen
  | i :: rest =>
      (otherPlayer <- read (fun s => GameState.players s !! i) ;;
       if bool_decide (Player.id otherPlayer <> playerId) then
         let stolen := res_get resourceType (Player.resources otherPlayer) in
         if bool_decide (stolen > 0) then
           modify_player i (fun p =>
             Player.set_resources (res_set resourceType 0 (Player.resources p)) p) ;;
           monopolize rest playerId resourceType (totalStolen + stolen)
         else monopolize rest playerId resourceType totalStolen
       else monopolize rest playerId resourceType totalStolen)%eng
  end.

Definition playMonopoly (playerId : nat) (resourceType : Resource) : Eng Z :=
  (canPlay <- query (canPlayDevelopmentCard playerId MONOPOLY) ;;
   match canPlay with
   | Some reason => throw (Error_ reason)
   | None =>
       s <- gets (fun s => s) ;;
       totalStolen <- monopolize (player_indices s) playerId resourceType 0 ;;
       (* Give to current player *)
       modify_player playerId (gain resourceType totalStolen) ;;
       (* Use the card *)
       modify_player playerId (use_card MONOPOLY) ;;
       ret totalStolen
   end)%eng.

(** [playYearOfPlenty]; [resources] is the array argument, whose length
    must be 2. *)
Definition playYearOfPlenty (playerId : nat) (resources : list Resource) : Eng bool :=
  (canPlay <- query (canPlayDevelopmentCard playerId YEAR_OF_PLENTY) ;;
   match canPlay with
   | Some reason => throw (Error_ reason)
   | None =>
       throw_if (bool_decide (length resources <> 2%nat)) "Must choose exactly 2 resources" ;;
       forEach resources (fun resource => modify_player playerId (gain resource 1)) ;;
       modify_player playerId (use_card YEAR_OF_PLENTY) ;;
       ret true
   end)%eng.

(** ** [EnhancedTradingSystem]

    This class has its own board convention: [attachPortsToNodes] stores the
    port object itself in [node.port], and the ratio resolution reads
    [port.type] from it. *)

Module Enhanced.

Definition BANK : Z := 4.
Definition GENERIC_PORT : Z := 3.
Definition SPECIALIZED_PORT : Z := 2.

(** The part of a node this class reads. *)
Record ENode := mkNode {
  building : option Building;
  owner : option nat;
  port : option Port.t
}.

(** The [gameState] argument: [players] and [board.nodes]. *)
Record EState := mkState {
  players : list Player.t;
  nodes : list ENode
}.

(** [attachPortsToNodes(nodes, ports)] *)
Definition attachPortsToNodes (nodes : list ENode) (ports : list Port.t) : list ENode :=
  foldl (fun nodes port =>
           foldl (fun nodes nodeId =>
                    alter (fun n => mkNode (building n) (owner n) (Some port)) nodeId nodes)
                 nodes (Port.nodeIds port))
        nodes ports.

(** [calculatePortAccess(gameState, playerId)]; [None] when
    [gameState.players[playerId]] is [undefined] (a [TypeError]). *)
Definition calculatePortAccess (gameState : EState) (playerId : nat)
    : option (list Port.t) :=
  player ← players gameState !! playerId;
  Some (omap (fun buildingNodeId =>
                node ← nodes gameState !! buildingNodeId; port node)
             (Player.settlements player ++ Player.cities player)).

(** [initializePortAccess]: [players.forEach((player, playerId) => ...)]
    after [portAccess.clear()]. *)
Definition initializePortAccess (gameState : EState) : gmap nat (list Port.t) :=
  foldl (fun portAccess playerId =>
           match calculatePortAccess gameState playerId with
           | Some accessiblePorts => <[playerId := accessiblePorts]> portAccess
           | None => portAccess
           end)
        ∅ (seq 0 (length (players gameState))).

(** [playerPorts.find(port => port.type === t)], as a truth value. *)
Definition has_port (t : PortType) (playerPorts : list Port.t) : bool :=
  match List.find (fun port => bool_decide (Port.type port = t)) playerPorts with
  | Some _ => true
  | None => false
  end.

Definition getBestTradingRatio (portAccess : gmap nat (list Port.t))
    (playerId : nat) (resourceType : Resource) : Z :=
  let playerPorts := default [] (portAccess !! playerId) in
  if has_port (port_of resourceType) playerPorts then SPECIALIZED_PORT
  else if has_port GENERIC playerPorts then GENERIC_PORT
  else BANK.

Definition validateBankTrade (player : Player.t) (giveResource : Resource)
    (requiredAmount : Z) : bool :=
  bool_decide (res_get giveResource (Player.resources player) >= requiredAmount).

(** [executeBankTrade]: the players after the call, and [success]. *)
Definition executeBankTrade (portAccess : gmap nat (list Port.t))
    (players : list Player.t) (playerId : nat) (giveResource receiveResource : Resource)
    (amount : Z) : list Player.t * Outcome bool :=
  match players !! playerId with
  | None => (players, Throw TypeError)
  | Some player =>
      let ratio := getBestTradingRatio portAccess playerId giveResource in
      let requiredAmount := ratio * amount in
      if negb (validateBankTrade player giveResource requiredAmount)
      then (players, Return false)
      else
        (alter (gain receiveResource amount)
           playerId (alter (gain giveResource (- requiredAmount)) playerId players),
         Return true)
  end.

(** [transferResources(fromPlayer, toPlayer, giveResources,
    receiveResources)], the two players by index. *)
Definition transferResources (fromIdx toIdx : nat) (giveResources receiveResources : Bundle.t)
    (players : list Player.t) : list Player.t :=
  let players :=
    foldl (fun ps e => alter (gain (fst e) (- snd e)) fromIdx ps)
          players (entries giveResources) in
  let players :=
    foldl (fun ps e => alter (gain (fst e) (snd e)) toIdx ps)
          players (entries receiveResources) in
  let players :=
    foldl (fun ps e => alter (gain (fst e) (- snd e)) toIdx ps)
          players (entries receiveResources) in
  foldl (fun ps e => alter (gain (fst e) (snd e)) fromIdx ps)
        players (entries giveResources).

End Enhanced.

(** ** Vocabulary of the statements *)

Definition count_resource (x : TileResource) (tiles : list Tile.t) : nat :=
  length (filter (fun t => Tile.resource t = x) tiles).

Definition land_count (resources : list TileResource) : nat :=
  length (filter (fun x => x <> desert) resources).

Definition tile_coords (t : Tile.t) : nat * Z * Z := (Tile.id t, Tile.q t, Tile.r t).

Fixpoint layout_coords (index : nat) (layout : list (Z * Z)) : list (nat * Z * Z) :=
  match layout with
  | [] => []
  | (q, r) :: rest => (index, q, r) :: layout_coords (S index) rest
  end.

(** The 19 standard hexes with a blank content. *)
Definition blank_tiles : list Tile.t :=
  map (fun '(i, q, r) => createTile i q r desert None)
      (layout_coords 0 STANDARD_HEX_LAYOUT).

(** The player has a settlement or city on a node flagged with a port of
    type [t]. *)
Definition on_port (gs : Enhanced.EState) (player : Player.t) (t : PortType) : Prop :=
  exists nodeId node port,
    nodeId ∈ Player.settlements player ++ Player.cities player
    /\ Enhanced.nodes gs !! nodeId = Some node
    /\ Enhanced.port node = Some port
    /\ Port.type port = t.

Definition portAccess_upto (gs : Enhanced.EState) (n : nat) : gmap nat (list Port.t) :=
  foldl (fun portAccess playerId =>
           match Enhanced.calculatePortAccess gs playerId with
           | Some accessiblePorts => <[playerId := accessiblePorts]> portAccess
           | None => portAccess
           end)
        ∅ (seq 0 n).

(** A player with one settlement on node 3, which carries the wood port. *)
Definition wood_port_state : Enhanced.EState :=
  Enhanced.mkState
    [Player.set_settlements [3%nat] (createPlayer 0)]
    (Enhanced.attachPortsToNodes
       (replicate 6 (Enhanced.mkNode None None None))
       [Port.mk [3; 4]%nat (port_of wood) 2]).

(** The fields of a player that [buildCity] leaves alone. *)
Definition same_player_rest (p p' : Player.t) : Prop :=
  Player.id p' = Player.id p
  /\ Player.roads p' = Player.roads p
  /\ Player.developmentCards p' = Player.developmentCards p
  /\ Player.developmentCardsPlayedThisTurn p' = Player.developmentCardsPlayedThisTurn p
  /\ Player.knightsPlayed p' = Player.knightsPlayed p
  /\ Player.hasPlayedDevCard p' = Player.hasPlayedDevCard p
  /\ Player.mustDiscardCards p' = Player.mustDiscardCards p.

(** The fields of the game state outside [board.nodes] and [players]. *)
Definition same_outside_nodes_and_players (s s' : GameState.t) : Prop :=
  GameState.phase s' = GameState.phase s
  /\ GameState.turnPhase s' = GameState.turnPhase s
  /\ GameState.currentPlayer s' = GameState.currentPlayer s
  /\ GameState.setupRound s' = GameState.setupRound s
  /\ GameState.setupDirection s' = GameState.setupDirection s
  /\ GameState.turnNumber s' = GameState.turnNumber s
  /\ GameState.lastDiceRoll s' = GameState.lastDiceRoll s
  /\ GameState.gameWinner s' = GameState.gameWinner s
  /\ GameState.developmentCardDeck s' = GameState.developmentCardDeck s
  /\ GameState.longestRoadPlayer s' = GameState.longestRoadPlayer s
  /\ GameState.longestRoadLength s' = GameState.longestRoadLength s
  /\ GameState.largestArmyPlayer s' = GameState.largestArmyPlayer s
  /\ GameState.largestArmySize s' = GameState.largestArmySize s
  /\ GameState.victoryPointsToWin s' = GameState.victoryPointsToWin s
  /\ Board.tiles (GameState.board s') = Board.tiles (GameState.board s)
  /\ Board.edges (GameState.board s') = Board.edges (GameState.board s)
  /\ Board.ports (GameState.board s') = Board.ports (GameState.board s)
  /\ Board.robberPosition (GameState.board s') = Board.robberPosition (GameState.board s).

(** ** The rules library: [calculateLongestRoad(playerRoads, edges)]

    The stand-alone sibling of the engine's longest-road code.  It looks
    roads up by [id] and marks visited edges, keyed by
    [normalizeEdgeId(node, neighbor)]: a canonical order of the two
    endpoints, here [edgeKey]. *)

Module CatanRules.

Definition findEdge (edges : list Edge.t) (roadId : nat) : option Edge.t :=
  List.find (fun e => bool_decide (Edge.id e = roadId)) edges.

(** [if (!edge) return;] skips a road id that names no edge. *)
Definition roadNetworkOf (playerRoads : list nat) (edges : list Edge.t) : RoadNetwork :=
  foldl (fun roadNetwork roadId =>
           match findEdge edges roadId with
           | None => roadNetwork
           | Some edge => addRoadToNetwork edge roadNetwork
           end)
        [] playerRoads.

(** [dfs(node, visited, length)], returning the largest [length] it
    reaches; the source keeps that maximum in [longestPath].  Each call
    marks one more edge, so the depth is bounded by the number of
    neighbour entries; [None] is an exhausted bound. *)
Fixpoint dfs (fuel : nat) (roadNetwork : RoadNetwork) (node : nat)
    (visited : list (nat * nat)) (length : Z) : option Z :=
  match fuel with
  | O => None
  | S fuel' =>
      foldl (fun longestPath neighbor =>
               best ← longestPath;
               let edge := edgeKey node neighbor in
               if decide (edge ∈ visited) then Some best
               else
                 deeper ← dfs fuel' roadNetwork neighbor (edge :: visited) (length + 1);
                 Some (Z.max best deeper))
            (Some length) (default [] (net_get roadNetwork node))
  end.

Definition calculateLongestRoad (playerRoads : list nat) (edges : list Edge.t) : option Z :=
  let roadNetwork := roadNetworkOf playerRoads edges in
  let fuel := S (List.length (flat_map snd roadNetwork)) in
  foldl (fun longestPath startNode =>
           best ← longestPath;
           found ← dfs fuel roadNetwork startNode [] 0;
           Some (Z.max best found))
        (Some 0) (map fst roadNetwork).

End CatanRules.

(** ** The rules as the specification words them *)

Module Spec.

(** The total as the rules word it, to compare with
    [calculateVictoryPoints]: settlements (1 each) + cities (2 each)
    + victory-point cards (1 each) + 2 if holding Longest Road + 2 if
    holding Largest Army. *)
Definition totalVictoryPoints (player : Player.t) (gameState : GameState.t) : Z :=
  Z.of_nat (length (Player.settlements player)) * 1
  + Z.of_nat (length (Player.cities player)) * 2
  + DevCards.victoryPoint (Player.developmentCards player) * 1
  + (if decide (GameState.longestRoadPlayer gameState = Some (Player.id player))
     then 2 else 0)
  + (if decide (GameState.largestArmyPlayer gameState = Some (Player.id player))
     then 2 else 0).

(** A node carries a building of somebody other than [playerId]. *)
Definition opponentBuilding (nodes : list Node.t) (playerId nodeId : nat) : bool :=
  match nodes !! nodeId with
  | Some node =>
      bool_decide (Node.building node <> None)
      && bool_decide (Node.owner node <> Some playerId)
  | None => false
  end.

(** The walk as the rules word it, to compare with [dfsLongestPath]: a
    depth-first walk over the player's own roads that marks visited edges,
    so that it may come back to a node but never reuses a road, and that
    does not continue through a node carrying an opponent's building. *)
Fixpoint longestFrom (fuel : nat) (nodes : list Node.t) (roadNetwork : RoadNetwork)
    (playerId currentNode : nat) (visitedEdges : list (nat * nat)) : Z :=
  match fuel with
  | O => 0
  | S fuel' =>
      foldl (fun best neighbor =>
               let edge := edgeKey currentNode neighbor in
               if decide (edge ∈ visitedEdges) then best
               else if opponentBuilding nodes playerId neighbor then Z.max best 1
               else Z.max best
                      (1 + longestFrom fuel' nodes roadNetwork playerId neighbor
                             (edge :: visitedEdges)))
            0 (default [] (net_get roadNetwork currentNode))
  end.

(** The maximum over all start nodes of the player's road graph; [None]
    when the player or one of its roads does not exist. *)
Definition longestRoad (s : GameState.t) (playerId : nat) : option Z :=
  player ← GameState.players s !! playerId;
  match buildRoadNetwork (edges_of s) (Player.roads player) [] with
  | Throw _ => None
  | Return roadNetwork =>
      Some (foldl (fun best startNode =>
                     Z.max best
                       (longestFrom (S (length (Player.roads player))) (nodes_of s)
                          roadNetwork (Player.id player) startNode []))
                  0 (map fst roadNetwork))
  end.

End Spec.

(** ** A scripted game

    The states used as concrete inputs are reached from a fresh game by
    commands alone. *)

Definition ignore {A} (m : Eng A) : Eng unit := bind m (fun _ => ret tt).

(** Runs the commands in order; [None] as soon as one throws. *)
Fixpoint run (cmds : list (Eng unit)) (s : GameState.t) : option GameState.t :=
  match cmds with
  | [] => Some s
  | c :: rest =>
      match c s with
      | (s', Return _) => run rest s'
      | (_, Throw _) => None
      end
  end.

Definition demo_board : Board.t := generateRandomBoard (fun _ => 0%nat) (fun _ => 0%nat).

Definition new_game : GameState.t := createInitialGameState 4 demo_board DEV_CARD_DECK.

(** The snake draft: players 0, 1, 2, 3, then 3, 2, 1, 0. *)
Definition setup_script : list (Eng unit) :=
  [ ignore (placeInitialSettlement 1); ignore (placeInitialRoad 1);
    ignore (placeInitialSettlement 7); ignore (placeInitialRoad 6);
    ignore (placeInitialSettlement 34); ignore (placeInitialRoad 44);
    ignore (placeInitialSettlement 45); ignore (placeInitialRoad 60);
    ignore (placeInitialSettlement 48); ignore (placeInitialRoad 63);
    ignore (placeInitialSettlement 32); ignore (placeInitialRoad 40);
    ignore (placeInitialSettlement 13); ignore (placeInitialRoad 14);
    ignore (placeInitialSettlement 3); ignore (placeInitialRoad 2) ]%nat.

(** Five turns of dice, after which player 0 extends its road to four
    edges; then player 1 builds three roads and reaches five. *)
Definition roads_script : list (Eng unit) :=
  setup_script ++
  [ ignore (rollDice 4 6); endTurn;
    ignore (rollDice 4 6); endTurn;
    ignore (rollDice 4 6); endTurn;
    ignore (rollDice 5 6); endTurn;
    ignore (rollDice 1 1); ignore (buildRoad 3); ignore (buildRoad 4); endTurn;
    ignore (rollDice 6 6);
    ignore (buildRoad 15); ignore (buildRoad 11); ignore (buildRoad 12) ]%nat.

(** Player 1 ends its turn, players 2 and 3 play, player 0 rolls. *)
Definition tie_script : list (Eng unit) :=
  roads_script ++
  [ endTurn;
    ignore (rollDice 1 3); endTurn;
    ignore (rollDice 3 3); endTurn;
    ignore (rollDice 1 2) ].

(** Player 0 closes the six roads around tile 0 and ends its turn. *)
Definition loop_script : list (Eng unit) :=
  tie_script ++ [ ignore (buildRoad 5); ignore (buildRoad 0); endTurn ]%nat.

Definition state_after (script : list (Eng unit)) : GameState.t :=
  default new_game (run script new_game).

(** Player 1 has just built its fifth road. *)
Definition game_five_roads : GameState.t := state_after roads_script.
(** Player 0 is about to build its fifth road; player 1 holds the award. *)
Definition game_before_tie : GameState.t := state_after tie_script.
(** Player 0 owns the six roads around tile 0; player 1 is to roll. *)
Definition game_loop : GameState.t := state_after loop_script.
(** Player 1 has rolled a 7 and must move the robber. *)
Definition game_robber : GameState.t :=
  state_after (loop_script ++ [ignore (rollDice 3 4)]).
(** Player 1 has rolled a 9 and ended its turn, player 2 has rolled a 3. *)
Definition game_city_ready : GameState.t :=
  state_after (loop_script ++ [ignore (rollDice 4 5); endTurn; ignore (rollDice 1 2)]).
(** Player 2 has upgraded node 34 to a city; player 3 is to roll. *)
Definition game_city : GameState.t :=
  state_after (loop_script ++ [ignore (rollDice 4 5); endTurn; ignore (rollDice 1 2);
                               ignore (buildCity 34); endTurn]).

Definition city_ready_script : list (Eng unit) :=
  loop_script ++ [ignore (rollDice 4 5); endTurn; ignore (rollDice 1 2)].

(** The same game configured to end at 3 victory points. *)
Definition quick_game : GameState.t :=
  let s := new_game in
  GameState.mk (GameState.phase s) (GameState.turnPhase s) (GameState.currentPlayer s)
    (GameState.setupRound s) (GameState.setupDirection s) (GameState.turnNumber s)
    (GameState.lastDiceRoll s) (GameState.gameWinner s) (GameState.board s)
    (GameState.players s) (GameState.developmentCardDeck s)
    (GameState.longestRoadPlayer s) (GameState.longestRoadLength s)
    (GameState.largestArmyPlayer s) (GameState.largestArmySize s) 3.

Definition quick_city_ready : GameState.t :=
  default quick_game (run city_ready_script quick_game).

(** A late position at the default threshold of 10, written down by hand
    on the board of [game_city_ready]: player 2 owns the settlements 34, 32
    and 50 and the cities 20, 26 and 52, nine points, and can pay for a
    city. *)
Definition late_nodes (nodes : list Node.t) : list Node.t :=
  foldl (fun nodes '(nodeId, b) =>
           alter (fun n => Node.set_owner (Some 2%nat) (Node.set_building (Some b) n))
                 nodeId nodes)
        nodes [(50, settlement); (20, city); (26, city); (52, city)]%nat.

Definition late_player (p : Player.t) : Player.t :=
  Player.set_points 9 9
    (Player.set_buildingsRemaining (Remaining.mk 2 1 13)
       (Player.set_cities [20; 26; 52]%nat
          (Player.set_settlements [34; 32; 50]%nat p))).

Definition late_game : GameState.t :=
  let s := game_city_ready in
  GameState.set_players (alter late_player 2%nat (GameState.players s))
    (GameState.set_board
       (Board.set_nodes (late_nodes (nodes_of s)) (GameState.board s)) s).

(** [p'] is [p] with other values in the two victory-point fields. *)
Definition same_but_points (p p' : Player.t) : Prop :=
  exists vp pvp, p' = Player.set_points vp pvp p.

(** [s'] is [s] up to the victory-point fields of the players. *)
Definition points_only (s s' : GameState.t) : Prop :=
  s' = GameState.set_players (GameState.players s') s
  /\ Forall2 same_but_points (GameState.players s) (GameState.players s').

(** The loop body of [checkVictoryCondition], named for the proofs. *)
Definition victoryCheck (i : nat) : Eng unit :=
  (updateVictoryPoints i ;;
   player <- (s <- gets (fun s => s) ;; defined (GameState.players s !! i)) ;;
   threshold <- gets GameState.victoryPointsToWin ;;
   if bool_decide (Player.victoryPoints player >= threshold) then
     modify (GameState.set_phase GAME_OVER) ;;
     modify (GameState.set_gameWinner (Some (Player.id player)))
   else ret tt)%eng.

(** What a run of victory checks over the players from index [k] on leaves
    behind. *)
Definition victory_checked (k : nat) (s s' : GameState.t) : Prop :=
  GameState.victoryPointsToWin s' = GameState.victoryPointsToWin s
  /\ Forall2 same_but_points (GameState.players s) (GameState.players s')
  /\ (forall (i : nat), (i < k)%nat -> GameState.players s' !! i = GameState.players s !! i)
  /\ (forall (i : nat) p', (k <= i)%nat -> GameState.players s' !! i = Some p' ->
        Player.victoryPoints p' = calculateVictoryPoints p')
  /\ ((GameState.phase s' = GAME_OVER
       /\ exists w, w ∈ GameState.players s'
                    /\ GameState.gameWinner s' = Some (Player.id w)
                    /\ GameState.victoryPointsToWin s' <= Player.victoryPoints w)
      \/ (GameState.phase s' = GameState.phase s
          /\ GameState.gameWinner s' = GameState.gameWinner s
          /\ forall (i : nat) p', (k <= i)%nat -> GameState.players s' !! i = Some p' ->
               Player.victoryPoints p' < GameState.victoryPointsToWin s')).

(** ** The resource invariant *)

Definition nonneg_resources (x : Resources.t) : Prop := forall r, 0 <= res_get r x.

Definition resources_nonneg (players : list Player.t) : Prop :=
  Forall (fun p => nonneg_resources (Player.resources p)) players.

(** Every player holds a nonnegative number of cards of every resource. *)
Definition Inv (s : GameState.t) : Prop := resources_nonneg (GameState.players s).

(** [m] keeps the invariant whether it returns or throws, and a value it
    returns satisfies [Q]. *)
Definition keeps {A} (m : Eng A) (Q : A -> Prop) : Prop :=
  forall s, Inv s -> Inv (fst (m s)) /\ forall a, snd (m s) = Return a -> Q a.

(** The amounts of a pending trade are positive, as [proposePlayerTrade]
    checked when it stored the trade. *)
Definition proposed (t : Trade.t) : Prop :=
  validateTradeResources (Trade.offerResources t) = true
  /\ validateTradeResources (Trade.requestResources t) = true.

(** *** A ledger of resource movements

    A run of [player.resources[r] += d] statements, each naming a player
    index, as one list; [total_gain] is what the list adds up to for one
    player and one resource. *)

Definition apply_gains (ops : list (nat * Resource * Z)) (players : list Player.t)
    : list Player.t :=
  foldl (fun ps op => alter (gain (snd (fst op)) (snd op)) (fst (fst op)) ps) players ops.

Fixpoint total_gain (ops : list (nat * Resource * Z)) (i : nat) (r : Resource) : Z :=
  match ops with
  | [] => 0
  | (j, r', d) :: rest =>
      (if decide (j = i /\ r' = r) then d else 0) + total_gain rest i r
  end.

(** The amount a list of entries holds for resource [r]. *)
Fixpoint bsum (es : list (Resource * Z)) (r : Resource) : Z :=
  match es with
  | [] => 0
  | (r', a) :: rest => (if decide (r' = r) then a else 0) + bsum rest r
  end.

(** [b[r]], 0 for an absent key. *)
Definition amount (b : Bundle.t) (r : Resource) : Z := default 0 (bundle_get r b).

(** The movements of one entry loop: each entry moves its amount from
    player [from] to player [to]. *)
Definition transfer_ops (from to : nat) (es : list (Resource * Z))
    : list (nat * Resource * Z) :=
  flat_map (fun e => [(from, fst e, - snd e); (to, fst e, snd e)]) es.

Definition take_ops (from : nat) (es : list (Resource * Z)) : list (nat * Resource * Z) :=
  map (fun e => (from, fst e, - snd e)) es.

(** *** A session: the engine's state with the trading manager's offers

    [TradingManager] keeps [activeTrades] next to the engine it was built
    on; a command is one call of a handler of either object, and [execute]
    is the session after it, whether the call returned or threw. *)

Module Session.
Record t := mk { game : GameState.t; activeTrades : gmap nat Trade.t }.
End Session.

Inductive Command : Type :=
  | PlaceInitialSettlement (nodeId : nat)
  | PlaceInitialRoad (edgeId : nat)
  | RollDice (dice1 dice2 : Z)
  | DiscardCards (playerId : nat) (cardsToDiscard : Bundle.t)
  | MoveRobber (tileId : nat) (targetPlayerId : option nat) (rnd : nat)
  | BuildSettlement (nodeId : nat)
  | BuildCity (nodeId : nat)
  | BuildRoad (edgeId : nat)
  | BuyDevelopmentCard
  | EndTurn
  | TradeWithBank (playerId : nat) (giveResources : Bundle.t) (receiveResource : Resource)
  | TradeWithPort (playerId : nat) (portType : PortType) (giveResources : Bundle.t)
      (receiveResource : Resource)
  | ProposePlayerTrade (tradeId fromPlayerId toPlayerId : nat)
      (offerResources requestResources : Bundle.t)
  | AcceptPlayerTrade (tradeId acceptingPlayerId : nat)
  | PlayMonopoly (playerId : nat) (resourceType : Resource)
  | PlayYearOfPlenty (playerId : nat) (resources : list Resource).

(** A handler of the engine: the offers stay as they are. *)
Definition on_game {A} (m : Eng A) (x : Session.t) : Session.t :=
  Session.mk (fst (m (Session.game x))) (Session.activeTrades x).

(** A handler of the trading manager that returns the new offers; a throw
    leaves the offers as they are. *)
Definition on_trades (m : Eng (gmap nat Trade.t)) (x : Session.t) : Session.t :=
  let (s', o) := m (Session.game x) in
  Session.mk s' (match o with
                 | Return activeTrades => activeTrades
                 | Throw _ => Session.activeTrades x
                 end).

Definition execute (c : Command) (x : Session.t) : Session.t :=
  match c with
  | PlaceInitialSettlement nodeId => on_game (placeInitialSettlement nodeId) x
  | PlaceInitialRoad edgeId => on_game (placeInitialRoad edgeId) x
  | RollDice dice1 dice2 => on_game (rollDice dice1 dice2) x
  | DiscardCards playerId cardsToDiscard => on_game (discardCards playerId cardsToDiscard) x
  | MoveRobber tileId targetPlayerId rnd => on_game (moveRobber tileId targetPlayerId rnd) x
  | BuildSettlement nodeId => on_game (buildSettlement nodeId) x
  | BuildCity nodeId => on_game (buildCity nodeId) x
  | BuildRoad edgeId => on_game (buildRoad edgeId) x
  | BuyDevelopmentCard => on_game buyDevelopmentCard x
  | EndTurn => on_game endTurn x
  | TradeWithBank playerId giveResources receiveResource =>
      on_game (tradeWithBank playerId giveResources receiveResource) x
  | TradeWithPort playerId portType giveResources receiveResource =>
      on_game (tradeWithPort playerId portType giveResources receiveResource) x
  | ProposePlayerTrade tradeId fromPlayerId toPlayerId offerResources requestResources =>
      on_trades (proposePlayerTrade (Session.activeTrades x) tradeId fromPlayerId
                   toPlayerId offerResources requestResources) x
  | AcceptPlayerTrade tradeId acceptingPlayerId =>
      on_trades (acceptPlayerTrade (Session.activeTrades x) tradeId acceptingPlayerId) x
  | PlayMonopoly playerId resourceType => on_game (playMonopoly playerId resourceType) x
  | PlayYearOfPlenty playerId resources => on_game (playYearOfPlenty playerId resources) x
  end.

Definition new_session (numPlayers : nat) (board : Board.t) (deck : list DevCardType)
    : Session.t :=
  Session.mk (createInitialGameState numPlayers board deck) ∅.

(** Counts are nonnegative and every stored offer passed
    [validateTradeResources]. *)
Definition session_ok (x : Session.t) : Prop :=
  Inv (Session.game x) /\ map_Forall (fun _ t => proposed t) (Session.activeTrades x).

(** The count of resource [r] that player [i] holds. *)
Definition count_of (players : list Player.t) (i : nat) (r : Resource) : option Z :=
  p ← players !! i; Some (res_get r (Player.resources p)).

(** *** The road network as a graph

    Every neighbour listed in the network is one of its keys:
    [calculateLongestRoadForPlayer] sets both ends of a road as keys before
    it pushes them. *)
Definition net_closed (roadNetwork : RoadNetwork) : Prop :=
  forall k ns n, (k, ns) ∈ roadNetwork -> n ∈ ns -> n ∈ map fst roadNetwork.

(** * More of the code *)

(** ** The board as a graph *)

(** The edge joins two different nodes of the board, and each of them
    lists the other among its neighbours. *)
Definition edge_joins (nodes : list Node.t) (e : Edge.t) : Prop :=
  Edge.fromNode e <> Edge.toNode e
  /\ match nodes !! Edge.fromNode e, nodes !! Edge.toNode e with
     | Some a, Some b =>
         Edge.toNode e ∈ Node.neighborNodes a /\ Edge.fromNode e ∈ Node.neighborNodes b
     | _, _ => False
     end.

#[global] Instance edge_joins_dec nodes e : Decision (edge_joins nodes e).
Proof.
  unfold edge_joins.
  destruct (nodes !! Edge.fromNode e), (nodes !! Edge.toNode e); apply _.
Defined.

(** The node is free, touches one to three tiles of the board and has two
    or three neighbours, each reached by an edge that [findEdgeBetween]
    finds. *)
Definition node_fits (numTiles : nat) (edges : list Edge.t) (node : Node.t) : Prop :=
  Node.building node = None /\ Node.owner node = None
  /\ (2 <= length (Node.neighborNodes node) <= 3)%nat
  /\ (1 <= length (Node.adjacentTiles node) <= 3)%nat
  /\ Forall (fun tileId => (tileId < numTiles)%nat) (Node.adjacentTiles node)
  /\ Forall (fun m => is_Some (findEdgeBetween edges (Node.id node) m))
            (Node.neighborNodes node).

#[global] Instance node_fits_dec numTiles edges node :
  Decision (node_fits numTiles edges node).
Proof. unfold node_fits. apply _. Defined.

(** ** The manual board editor ([createManualBoardEditor])

    [validateBoard(tiles)] collects error messages; [isValid] is
    [errors.length === 0].  An error is modelled by what its message
    interpolates. *)

Inductive BoardError :=
  | WrongCount (resource : TileResource) (expected found : nat)
  | WrongTokens.

(** [.sort((a, b) => a - b)] on numbers. *)
Definition sortNumbers (l : list Z) : list Z := merge_sort Z.le l.

Definition expectedCounts : list (Resource * nat) :=
  [(wood, 4); (brick, 3); (sheep, 4); (wheat, 4); (ore, 3)]%nat.

Definition validateBoard (tiles : list Tile.t) : list BoardError :=
  (* Check resource counts *)
  let errors :=
    omap (fun '(resource, expected) =>
            let found := count_resource (land resource) tiles in
            if decide (found <> expected)
            then Some (WrongCount (land resource) expected found) else None)
         expectedCounts in
  (* Check for exactly one desert *)
  let desertCount := count_resource desert tiles in
  let errors :=
    errors ++ (if decide (desertCount <> 1%nat)
               then [WrongCount desert 1 desertCount] else []) in
  (* Check token distribution *)
  let usedTokens := sortNumbers (omap Tile.token tiles) in
  let expectedTokens := sortNumbers TOKENS in
  errors ++ (if decide (usedTokens <> expectedTokens) then [WrongTokens] else []).

Definition isValid (tiles : list Tile.t) : bool := bool_decide (validateBoard tiles = []).

(** ** What a handler leaves alone

    [moves R m]: whatever [m] does, returning or throwing, the state it
    leaves is related by [R] to the state it started from.  [unchanged f]
    relates two states with the same [f]. *)

Definition moves {A} (R : GameState.t -> GameState.t -> Prop) (m : Eng A) : Prop :=
  forall s, R s (fst (m s)).

Definition unchanged {X} (f : GameState.t -> X) (s s' : GameState.t) : Prop := f s' = f s.

(** The tiles and the robber. *)
Definition robber_view (s : GameState.t) : list Tile.t * option nat :=
  (tiles_of s, Board.robberPosition (GameState.board s)).

(** A tile is blocked or marked as holding the robber only if the robber
    stands on it. *)
Definition robber_consistent (s : GameState.t) : Prop :=
  forall i t, tiles_of s !! i = Some t ->
    Tile.isBlocked t = true \/ Tile.hasRobber t = true ->
    Board.robberPosition (GameState.board s) = Some i.

(** ** Rolling a seven *)

(** What [handleRobberRoll] does to one player: more than 7 cards, and
    half of them, rounded down, must be discarded. *)
Definition flagDiscard (p : Player.t) : Player.t :=
  if bool_decide (getTotalResources p > 7)
  then Player.set_mustDiscardCards (getTotalResources p / 2) p
  else p.

Definition overLimit (p : Player.t) : bool := bool_decide (getTotalResources p > 7).

(** ** Production *)

(** The cards a building next to tile [tileId] receives for a roll: one
    card of the tile's resource if the tile carries the rolled token and is
    not blocked. *)
Definition tileYield (b : Board.t) (diceRoll : Z) (tileId : nat) : list Resource :=
  match Board.tiles b !! tileId with
  | Some tile =>
      if bool_decide (Tile.token tile = Some diceRoll) && negb (Tile.isBlocked tile)
      then match Tile.resource tile with
           | land r => [r]
           | desert => []
           end
      else []
  | None => []
  end.

Definition nodeYield (b : Board.t) (diceRoll : Z) (nodeId : nat) : list Resource :=
  match Board.nodes b !! nodeId with
  | Some node => flat_map (tileYield b diceRoll) (Node.adjacentTiles node)
  | None => []
  end.

(** Settlements first, then cities, each building once. *)
Definition playerYield (b : Board.t) (diceRoll : Z) (p : Player.t) : list Resource :=
  flat_map (nodeYield b diceRoll) (Player.settlements p ++ Player.cities p).

(** One [resources[r]++] per card. *)
Definition receive (cards : list Resource) (p : Player.t) : Player.t :=
  foldl (fun p r => gain r 1 p) p cards.

Definition count_card (r : Resource) (cards : list Resource) : Z :=
  Z.of_nat (length (filter (fun x => x = r) cards)).

(** ** A scripted session

    The snake draft of [setup_script] as commands, a roll of 7, and the
    robber moved to tile 0. *)
Definition setup_commands : list Command :=
  [ PlaceInitialSettlement 1; PlaceInitialRoad 1;
    PlaceInitialSettlement 7; PlaceInitialRoad 6;
    PlaceInitialSettlement 34; PlaceInitialRoad 44;
    PlaceInitialSettlement 45; PlaceInitialRoad 60;
    PlaceInitialSettlement 48; PlaceInitialRoad 63;
    PlaceInitialSettlement 32; PlaceInitialRoad 40;
    PlaceInitialSettlement 13; PlaceInitialRoad 14;
    PlaceInitialSettlement 3; PlaceInitialRoad 2 ]%nat.

Definition robber_commands : list Command :=
  setup_commands ++ [RollDice 3 4; MoveRobber 0 None 0].

(** * Properties *)

(** ** Board generation *)

Section Shuffle.
Context {A : Type}.
Implicit Types a : list A.

Lemma insert_head_Permutation a j x y :
  a !! j = Some y -> y :: <[j := x]> a ≡ₚ x :: a.
Proof.
  revert j. induction a as [|z a IH]; intros [|j] H; simplify_eq/=.
  - apply perm_swap.
  - rewrite (perm_swap z y), (IH _ H). apply perm_swap.
Qed.

Lemma swap_Permutation a i j : swap a i j ≡ₚ a.
Proof.
  unfold swap. destruct (a !! i) as [x|] eqn:Hi; [|done].
  destruct (a !! j) as [y|] eqn:Hj; [|done].
  revert i j Hi Hj. induction a as [|h a IH]; intros [|i] [|j] Hi Hj; simplify_eq/=.
  - done.
  - by apply insert_head_Permutation.
  - by apply insert_head_Permutation.
  - f_equiv. by apply IH.
Qed.

Lemma shuffle_loop_Permutation rnd i a : shuffle_loop rnd i a ≡ₚ a.
Proof.
  revert a. induction i as [|i IH]; intros a; simpl; [done|].
  rewrite IH. apply swap_Permutation.
Qed.

Lemma shuffleArray_Permutation rnd a : shuffleArray rnd a ≡ₚ a.
Proof. apply shuffle_loop_Permutation. Qed.

Lemma shuffleArray_length rnd a : length (shuffleArray rnd a) = length a.
Proof. apply Permutation_length, shuffleArray_Permutation. Qed.
End Shuffle.

Lemma pop_rev {A} (stack : list A) :
  pop (rev stack) = match stack with
                    | [] => (None, [])
                    | x :: r => (Some x, rev r)
                    end.
Proof. unfold pop. by rewrite rev_involutive. Qed.

Section AssignTiles.
Variable resources : list TileResource.

Lemma assignTiles_lookup index (layout : list (Z * Z)) :
  (index + length layout <= length resources)%nat -> layout <> [] ->
  exists x, resources !! (index mod length resources)%nat = Some x
            /\ drop index resources = x :: drop (S index) resources.
Proof.
  intros Hle Hne. destruct layout as [|? ?]; [done|]. simpl in Hle.
  rewrite Nat.mod_small by lia.
  destruct (lookup_lt_is_Some_2 resources index) as [x Hx]; [lia|].
  exists x. split; [done|]. by apply drop_S.
Qed.

Lemma assignTiles_resources layout index tokens :
  (index + length layout <= length resources)%nat ->
  map Tile.resource (assignTiles layout index resources tokens)
  = take (length layout) (drop index resources).
Proof.
  revert index tokens. induction layout as [|[q r] rest IH]; intros index tokens Hle.
  - done.
  - destruct (assignTiles_lookup index ((q, r) :: rest)) as (x & Hx & Hd); [done..|].
    simpl in *. rewrite Hx, Hd. simpl.
    destruct x, (pop tokens); simpl; f_equal; apply IH; lia.
Qed.

Lemma assignTiles_coords layout index tokens :
  (index + length layout <= length resources)%nat ->
  map tile_coords (assignTiles layout index resources tokens)
  = layout_coords index layout.
Proof.
  revert index tokens. induction layout as [|[q r] rest IH]; intros index tokens Hle.
  - done.
  - destruct (assignTiles_lookup index ((q, r) :: rest)) as (x & Hx & Hd); [done..|].
    simpl in *. rewrite Hx.
    destruct x, (pop tokens); simpl; f_equal; apply IH; lia.
Qed.

(** The tokens handed out, in tile order, are the top of the stack that
    [pop] consumes. *)
Lemma assignTiles_tokens layout index stack :
  (index + length layout <= length resources)%nat ->
  (land_count (take (length layout) (drop index resources)) <= length stack)%nat ->
  omap Tile.token (assignTiles layout index resources (rev stack))
  = take (land_count (take (length layout) (drop index resources))) stack
  /\ Forall (fun t => Tile.token t = None <-> Tile.resource t = desert)
            (assignTiles layout index resources (rev stack)).
Proof.
  revert index stack. induction layout as [|[q r] rest IH]; intros index stack Hle Hn.
  - done.
  - destruct (assignTiles_lookup index ((q, r) :: rest)) as (x & Hx & Hd); [done..|].
    simpl in *. rewrite Hx. rewrite Hd in Hn |- *. simpl in Hn |- *.
    unfold land_count in Hn |- *. rewrite filter_cons in Hn |- *.
    destruct x as [res|].
    + rewrite decide_True in Hn |- * by done. simpl in Hn |- *.
      rewrite pop_rev. destruct stack as [|tok stack]; [simpl in Hn; lia|].
      simpl in Hn. destruct (IH (S index) stack) as [IH1 IH2]; [lia | unfold land_count; lia |].
      simpl. split.
      * f_equal. apply IH1.
      * constructor; [|done]. simpl. split; intros; discriminate.
    + rewrite decide_False in Hn |- * by (intros H; by apply H).
      destruct (IH (S index) stack) as [IH1 IH2]; [lia | unfold land_count; lia |].
      simpl. split; [apply IH1|]. constructor; [|done]. done.
Qed.
End AssignTiles.

Lemma count_resource_map x tiles :
  count_resource x tiles = length (filter (fun y => y = x) (map Tile.resource tiles)).
Proof.
  unfold count_resource. induction tiles as [|t tiles IH]; [done|].
  simpl. rewrite !filter_cons. simpl.
  destruct (decide (Tile.resource t = x)); simpl; by rewrite IH.
Qed.

Lemma filter_length_Permutation {A} (P : A -> Prop) `{forall x, Decision (P x)}
    (l1 l2 : list A) :
  l1 ≡ₚ l2 -> length (filter P l1) = length (filter P l2).
Proof.
  induction 1 as [|x l1 l2 _ IH|x y l|l1 l2 l3 _ IH1 _ IH2].
  - done.
  - rewrite !filter_cons. destruct (decide (P x)); simpl; by rewrite IH.
  - rewrite !filter_cons. by destruct (decide (P x)), (decide (P y)).
  - by rewrite IH1.
Qed.

(** The node and edge graph depends on the tiles only through their ids
    and axial coordinates. *)
Lemma foldl_tile_coords {S} (f : S -> Tile.t -> S) :
  (forall st t t', tile_coords t = tile_coords t' -> f st t = f st t') ->
  forall l l' st, map tile_coords l = map tile_coords l' -> foldl f st l = foldl f st l'.
Proof.
  intros Hf. induction l as [|t l IH]; intros [|t' l'] st Hm; try discriminate; [done|].
  cbn [map] in Hm.
  assert (tile_coords t = tile_coords t') as Ht by congruence.
  assert (map tile_coords l = map tile_coords l') as Hm' by congruence.
  simpl. rewrite (Hf st t t') by done. by apply IH.
Qed.

Lemma generateNodesAndEdges_coords tiles tiles' :
  map tile_coords tiles = map tile_coords tiles' ->
  generateNodesAndEdges tiles = generateNodesAndEdges tiles'.
Proof.
  intros Hm. unfold generateNodesAndEdges.
  assert (foldl addTileCorners ([], []) tiles = foldl addTileCorners ([], []) tiles') as ->.
  { apply foldl_tile_coords; [|done].
    intros st [] [] Ht. unfold addTileCorners, tile_coords in *. by simplify_eq/=. }
  destruct (foldl addTileCorners ([], []) tiles') as [nodeMap nodes].
  assert (foldl (addTileSides nodeMap) ([], [], nodes) tiles
          = foldl (addTileSides nodeMap) ([], [], nodes) tiles') as ->; [|done].
  apply foldl_tile_coords; [|done].
  intros st [] [] Ht. unfold addTileSides, tile_coords in *. by simplify_eq/=.
Qed.

Lemma standard_topology :
  length (fst (generateNodesAndEdges blank_tiles)) = 54%nat
  /\ length (snd (generateNodesAndEdges blank_tiles)) = 72%nat.
Proof. vm_compute. done. Qed.

Lemma flag_ports_length (ports : list (list nat * PortType)) (nodes : list Node.t) :
  length (foldl (fun nodes '(ns, ty) =>
                   foldl (fun nodes nodeId => alter (Node.set_port (Some ty)) nodeId nodes)
                         nodes ns)
                nodes ports) = length nodes.
Proof.
  revert nodes. induction ports as [|[ns ty] ports IH]; intros nodes; [done|].
  cbn [foldl]. rewrite IH. clear. revert nodes.
  induction ns as [|n ns IH]; intros nodes; [done|].
  cbn [foldl]. rewrite IH. apply length_alter.
Qed.

Lemma generatePorts_length nodes : length (snd (generatePorts nodes)) = length nodes.
Proof. apply flag_ports_length. Qed.

Lemma generateTiles_resources rnd1 rnd2 :
  map Tile.resource (generateTiles rnd1 rnd2) = shuffleArray rnd1 STANDARD_RESOURCES.
Proof.
  unfold generateTiles.
  pose proof (shuffleArray_length rnd1 STANDARD_RESOURCES) as Hlen.
  rewrite assignTiles_resources by (rewrite Hlen; vm_compute; lia).
  rewrite drop_0, take_ge; [done|]. rewrite Hlen. vm_compute. lia.
Qed.

Lemma generateTiles_coords rnd1 rnd2 :
  map tile_coords (generateTiles rnd1 rnd2) = map tile_coords blank_tiles.
Proof.
  unfold generateTiles.
  pose proof (shuffleArray_length rnd1 STANDARD_RESOURCES) as Hlen.
  rewrite assignTiles_coords by (rewrite Hlen; vm_compute; lia). done.
Qed.

Lemma generateTiles_tokens rnd1 rnd2 :
  omap Tile.token (generateTiles rnd1 rnd2) ≡ₚ TOKENS
  /\ Forall (fun t => Tile.token t = None <-> Tile.resource t = desert)
            (generateTiles rnd1 rnd2).
Proof.
  unfold generateTiles.
  set (resources := shuffleArray rnd1 STANDARD_RESOURCES).
  set (tokens := shuffleArray rnd2 TOKENS).
  assert (length resources = 19%nat) as Hlen by apply shuffleArray_length.
  assert (length tokens = 18%nat) as Hlent by apply shuffleArray_length.
  assert (land_count resources = 18%nat) as Hland.
  { unfold land_count.
    rewrite (filter_length_Permutation _ resources STANDARD_RESOURCES)
      by apply shuffleArray_Permutation.
    done. }
  rewrite <- (rev_involutive tokens).
  assert (take (length STANDARD_HEX_LAYOUT) (drop 0 resources) = resources) as Hall.
  { rewrite drop_0, take_ge; [done|]. rewrite Hlen. vm_compute. lia. }
  destruct (assignTiles_tokens resources STANDARD_HEX_LAYOUT 0 (rev tokens)) as [H1 H2].
  - rewrite Hlen. vm_compute. lia.
  - rewrite Hall, Hland, length_rev, Hlent. lia.
  - split; [|done]. rewrite H1, Hall, Hland.
    rewrite take_ge by (rewrite length_rev, Hlent; lia).
    rewrite <- Permutation_rev. apply shuffleArray_Permutation.
Qed.

Lemma generateRandomBoard_tiles rnd1 rnd2 :
  Board.tiles (generateRandomBoard rnd1 rnd2) = generateTiles rnd1 rnd2.
Proof.
  unfold generateRandomBoard.
  destruct (generateNodesAndEdges _) as [nodes edges].
  by destruct (generatePorts nodes) as [ports nodes'].
Qed.

Lemma generateRandomBoard_graph rnd1 rnd2 :
  length (Board.nodes (generateRandomBoard rnd1 rnd2)) = 54%nat
  /\ length (Board.edges (generateRandomBoard rnd1 rnd2)) = 72%nat.
Proof.
  unfold generateRandomBoard.
  rewrite (generateNodesAndEdges_coords _ blank_tiles) by apply generateTiles_coords.
  destruct standard_topology as [Hn He].
  destruct (generateNodesAndEdges blank_tiles) as [nodes edges].
  pose proof (generatePorts_length nodes) as Hp.
  destruct (generatePorts nodes) as [ports nodes']. simpl in *. split; congruence.
Qed.

(** C7.  Whatever the two shuffles draw, the generated board has 19 tiles,
    one desert, 4 wood, 3 brick, 4 sheep, 4 wheat and 3 ore tiles; the
    tokens on the tiles are a rearrangement of the 18 standard tokens, a
    tile has no token exactly when it is the desert, no tile carries a 7;
    and the graph has 54 nodes and 72 edges. *)
Theorem generated_board_is_standard (rnd1 rnd2 : nat -> nat) :
  let board := generateRandomBoard rnd1 rnd2 in
  let tiles := Board.tiles board in
  length tiles = 19%nat
  /\ count_resource desert tiles = 1%nat
  /\ count_resource (land wood) tiles = 4%nat
  /\ count_resource (land brick) tiles = 3%nat
  /\ count_resource (land sheep) tiles = 4%nat
  /\ count_resource (land wheat) tiles = 4%nat
  /\ count_resource (land ore) tiles = 3%nat
  /\ omap Tile.token tiles ≡ₚ TOKENS
  /\ Forall (fun t => Tile.token t = None <-> Tile.resource t = desert) tiles
  /\ Forall (fun t => Tile.token t <> Some 7) tiles
  /\ length (Board.nodes board) = 54%nat
  /\ length (Board.edges board) = 72%nat.
Proof.
  intros board tiles. subst board tiles. rewrite generateRandomBoard_tiles.
  pose proof (generateTiles_resources rnd1 rnd2) as Hres.
  pose proof (shuffleArray_Permutation rnd1 STANDARD_RESOURCES) as Hperm.
  destruct (generateTiles_tokens rnd1 rnd2) as [Htok Hnone].
  destruct (generateRandomBoard_graph rnd1 rnd2) as [Hn He].
  assert (forall x, count_resource x (generateTiles rnd1 rnd2)
                    = length (filter (fun y => y = x) STANDARD_RESOURCES)) as Hcount.
  { intros x. rewrite count_resource_map, Hres. by apply filter_length_Permutation. }
  split_and!; try (rewrite Hcount; reflexivity); try done.
  - rewrite <- (length_map Tile.resource), Hres. apply shuffleArray_length.
  - apply Forall_forall. intros t Ht H7.
    assert (7 ∈ omap Tile.token (generateTiles rnd1 rnd2)) as Hin.
    { apply list_elem_of_omap. by exists t. }
    rewrite Htok in Hin. vm_compute in Hin.
    repeat (apply elem_of_cons in Hin as [Hin|Hin]; [discriminate|]).
    by apply elem_of_nil in Hin.
Qed.

(** ** Trade ratio resolution *)

Lemma has_port_spec t playerPorts :
  Enhanced.has_port t playerPorts = true <-> exists port, port ∈ playerPorts /\ Port.type port = t.
Proof.
  unfold Enhanced.has_port. split.
  - destruct (List.find _ _) as [port|] eqn:Hf; [intros _|discriminate].
    apply find_some in Hf as [Hin Ht]. exists port. split.
    + by apply list_elem_of_In.
    + by apply bool_decide_eq_true in Ht.
  - intros (port & Hin & Ht).
    destruct (List.find _ _) as [?|] eqn:Hf; [done|].
    apply list_elem_of_In in Hin. apply (find_none _ _ Hf port) in Hin.
    apply bool_decide_eq_false in Hin. done.
Qed.

Lemma calculatePortAccess_spec gs playerId player t :
  Enhanced.players gs !! playerId = Some player ->
  (exists ports, Enhanced.calculatePortAccess gs playerId = Some ports
                 /\ (Enhanced.has_port t ports = true <-> on_port gs player t)).
Proof.
  intros Hp. unfold Enhanced.calculatePortAccess. rewrite Hp. simpl.
  eexists. split; [done|]. rewrite has_port_spec. unfold on_port. split.
  - intros (port & Hin & Ht). apply list_elem_of_omap in Hin as (nodeId & Hin & Hn).
    destruct (Enhanced.nodes gs !! nodeId) as [node|] eqn:Hnode; [|done].
    simpl in Hn. by exists nodeId, node, port.
  - intros (nodeId & node & port & Hin & Hnode & Hport & Ht).
    exists port. split; [|done]. apply list_elem_of_omap. exists nodeId.
    split; [done|]. by rewrite Hnode.
Qed.

Lemma portAccess_upto_S gs n :
  portAccess_upto gs (S n)
  = match Enhanced.calculatePortAccess gs n with
    | Some accessiblePorts => <[n := accessiblePorts]> (portAccess_upto gs n)
    | None => portAccess_upto gs n
    end.
Proof. unfold portAccess_upto. by rewrite seq_S, foldl_app. Qed.

Lemma portAccess_upto_lookup gs n playerId :
  portAccess_upto gs n !! playerId
  = if decide (playerId < n)%nat then Enhanced.calculatePortAccess gs playerId else None.
Proof.
  induction n as [|n IH].
  - by destruct (decide (playerId < 0)%nat); [lia|].
  - rewrite portAccess_upto_S.
    destruct (decide (playerId = n)) as [->|Hne].
    + rewrite decide_True by lia. rewrite decide_False in IH by lia.
      destruct (Enhanced.calculatePortAccess gs n); [by rewrite lookup_insert_eq|done].
    + assert (match Enhanced.calculatePortAccess gs n with
              | Some accessiblePorts => <[n := accessiblePorts]> (portAccess_upto gs n)
              | None => portAccess_upto gs n
              end !! playerId = portAccess_upto gs n !! playerId) as ->.
      { destruct (Enhanced.calculatePortAccess gs n); [by rewrite lookup_insert_ne|done]. }
      rewrite IH. destruct (decide (playerId < n)%nat), (decide (playerId < S n)%nat);
        try done; lia.
Qed.

Lemma initializePortAccess_lookup gs playerId :
  (playerId < length (Enhanced.players gs))%nat ->
  Enhanced.initializePortAccess gs !! playerId = Enhanced.calculatePortAccess gs playerId.
Proof.
  intros Hlt. change (Enhanced.initializePortAccess gs)
    with (portAccess_upto gs (length (Enhanced.players gs))).
  rewrite portAccess_upto_lookup. by rewrite decide_True.
Qed.



(** ** Reasoning about handlers *)

Ltac eng_unfold :=
  unfold bind, throw_if, read, gets, modify, ret, throw, query, defined,
    modify_player, modify_node, modify_board, modify_edge, modify_tile,
    updateVictoryPoints in *.

(** Splits the run of a handler along every test it performs. *)
Ltac eng_cases := repeat (case_match; simplify_eq/=; try done).

(** ** Frame of [buildCity] *)

(** C10.  A successful [buildCity nodeId] changes the targeted node from a
    settlement to a city and nothing else of it (owner, port and
    adjacency); of the acting player it changes only resources, the
    settlement and city lists, the remaining-building counters and the two
    victory-point fields.  Every tile, every edge, every other node, every
    other player and every other field of the game state is unchanged. *)
Theorem buildCity_frame (nodeId : nat) (s s' : GameState.t) :
  buildCity nodeId s = (s', Return true) ->
  same_outside_nodes_and_players s s'
  /\ (forall n, n <> nodeId -> nodes_of s' !! n = nodes_of s !! n)
  /\ (exists node,
        nodes_of s !! nodeId = Some node
        /\ Node.building node = Some settlement
        /\ nodes_of s' !! nodeId
           = Some (Node.mk (Node.id node) (Node.adjacentTiles node)
                     (Node.neighborNodes node) (Some city) (Node.owner node)
                     (Node.port node)))
  /\ (forall i, i <> GameState.currentPlayer s ->
        GameState.players s' !! i = GameState.players s !! i)
  /\ (exists p p',
        GameState.players s !! GameState.currentPlayer s = Some p
        /\ GameState.players s' !! GameState.currentPlayer s = Some p'
        /\ same_player_rest p p').
Proof.
  intros H. unfold buildCity in H. eng_unfold. eng_cases.
  match goal with H : nodes_of _ !! _ = Some ?a |- _ => rename H into Hnode, a into node end.
  match goal with H : getCurrentPlayer _ = Some ?a |- _ => rename H into Hp, a into p end.
  match goal with H : _ || _ = false |- _ =>
    apply orb_false_iff in H as [Hb _]; apply bool_decide_eq_false in Hb;
    apply dec_stable in Hb end.
  unfold getCurrentPlayer, nodes_of in *.
  split_and!.
  - by repeat split.
  - intros n Hn. simpl. rewrite list_lookup_alter_ne by congruence. reflexivity.
  - exists node. split_and!; [done..|]. simpl.
    rewrite list_lookup_alter_eq, Hnode. reflexivity.
  - intros i Hi. simpl. rewrite !list_lookup_alter_ne by congruence. reflexivity.
  - exists p. eexists. split; [done|]. split.
    + simpl. rewrite !list_lookup_alter_eq, Hp. simpl. reflexivity.
    + by repeat split.
Qed.

(** ** The scripted game runs *)

Lemma game_five_roads_reached : run roads_script new_game = Some game_five_roads.
Proof. vm_compute. reflexivity. Qed.

Lemma game_before_tie_reached : run tie_script new_game = Some game_before_tie.
Proof. vm_compute. reflexivity. Qed.

Lemma game_loop_reached : run loop_script new_game = Some game_loop.
Proof. vm_compute. reflexivity. Qed.

Lemma game_robber_reached :
  run (loop_script ++ [ignore (rollDice 3 4)]) new_game = Some game_robber.
Proof. vm_compute. reflexivity. Qed.

Lemma game_city_ready_reached : run city_ready_script new_game = Some game_city_ready.
Proof. vm_compute. reflexivity. Qed.

Lemma game_city_reached :
  run (loop_script ++ [ignore (rollDice 4 5); endTurn; ignore (rollDice 1 2);
                       ignore (buildCity 34); endTurn]) new_game
  = Some game_city.
Proof. vm_compute. reflexivity. Qed.

Lemma quick_city_ready_reached : run city_ready_script quick_game = Some quick_city_ready.
Proof. vm_compute. reflexivity. Qed.

(** ** Failing commands *)

(** C1.  [moveRobber] with a victim id that names no player fails with a
    [TypeError] raised by [stealRandomCard], after the robber has been
    moved: the state left behind differs from the state before the call.
    The state is reached by commands from a fresh game; player 1 has rolled
    a 7, the robber stands on tile 17, and there are four players. *)
Theorem moveRobber_failure_keeps_mutation :
  let s := game_robber in
  let s' := fst (moveRobber 0 (Some 9%nat) 0 s) in
  length (GameState.players s) = 4%nat
  /\ GameState.turnPhase s = ROBBER_PLACEMENT
  /\ snd (moveRobber 0 (Some 9%nat) 0 s) = Throw TypeError
  /\ Board.robberPosition (GameState.board s) = Some 17%nat
  /\ Board.robberPosition (GameState.board s') = Some 0%nat
  /\ (Tile.hasRobber <$> tiles_of s !! 0%nat) = Some false
  /\ (Tile.hasRobber <$> tiles_of s' !! 0%nat) = Some true
  /\ s' <> s.
Proof.
  split_and!; try (vm_compute; reflexivity).
  intros H. apply (f_equal (fun s => Board.robberPosition (GameState.board s))) in H.
  vm_compute in H. discriminate H.
Qed.

(** ** Victory points *)

Lemma calculateVictoryPoints_unfold player :
  calculateVictoryPoints player
  = Z.of_nat (length (Player.settlements player))
    + 2 * Z.of_nat (length (Player.cities player))
    + DevCards.victoryPoint (Player.developmentCards player).
Proof. unfold calculateVictoryPoints, VP_settlement, VP_city, VP_victoryPointCard. lia. Qed.

(** C2.  The total that [updateVictoryPoints] stores never contains the
    two awards: it is settlements + 2·cities + victory-point cards for
    every player.  In the scripted game, right after player 1's fifth road
    made it the holder of Longest Road and every player's points were
    recomputed, player 1's total is 2 where the rule gives 4; the bonus
    only enters [publicVictoryPoints]. *)
Theorem total_points_omit_awards :
  (forall player,
      calculateVictoryPoints player
      = Z.of_nat (length (Player.settlements player))
        + 2 * Z.of_nat (length (Player.cities player))
        + DevCards.victoryPoint (Player.developmentCards player))
  /\ exists p,
       GameState.players game_five_roads !! 1%nat = Some p
       /\ GameState.longestRoadPlayer game_five_roads = Some (Player.id p)
       /\ length (Player.settlements p) = 2%nat
       /\ Player.victoryPoints p = 2
       /\ Player.publicVictoryPoints p = 4
       /\ Spec.totalVictoryPoints p game_five_roads = 4.
Proof.
  split; [apply calculateVictoryPoints_unfold|].
  eexists. split; [vm_compute; reflexivity|]. vm_compute. done.
Qed.

(** ** Resource production *)

(** C4.  In the scripted game player 2 owns the city on node 34, which
    touches the ore tiles 14 and 15, both with token 4 and unblocked, and
    the settlement on node 32, which touches tile 14.  A roll of 4 moves
    the turn to [ACTIONS] and raises player 2's ore from 1 to 4: one card
    per tile for the city, as for the settlement, where the rule gives the
    city two cards per tile, 6 in all. *)
Theorem city_produces_one_card_per_tile :
  let s := game_city in
  let s' := fst (rollDice 1 3 s) in
  (exists p n34 n32 t14 t15,
      GameState.players s !! 2%nat = Some p
      /\ Player.cities p = [34%nat] /\ Player.settlements p = [32%nat]
      /\ res_get ore (Player.resources p) = 1
      /\ nodes_of s !! 34%nat = Some n34 /\ Node.adjacentTiles n34 = [10; 14; 15]%nat
      /\ nodes_of s !! 32%nat = Some n32 /\ Node.adjacentTiles n32 = [9; 13; 14]%nat
      /\ tiles_of s !! 14%nat = Some t14 /\ tiles_of s !! 15%nat = Some t15
      /\ Tile.token t14 = Some 4 /\ Tile.token t15 = Some 4
      /\ Tile.resource t14 = land ore /\ Tile.resource t15 = land ore
      /\ Tile.isBlocked t14 = false /\ Tile.isBlocked t15 = false
      /\ Forall (fun t => Tile.token t = Some 4 -> Tile.id t = 14%nat \/ Tile.id t = 15%nat)
                (tiles_of s))
  /\ snd (rollDice 1 3 s) = Return (1, 3, 4)
  /\ GameState.turnPhase s' = ACTIONS
  /\ (res_get ore <$> (Player.resources <$> GameState.players s' !! 2%nat)) = Some 4.
Proof.
  split_and!; try (vm_compute; reflexivity).
  do 5 eexists. split_and!; try (vm_compute; reflexivity).
  apply (bool_decide_unpack _). vm_compute. reflexivity.
Qed.

(** ** Longest road *)

(** C5.  In the scripted game player 0 owns the six roads around tile 0, a
    closed loop through the nodes 0 to 5 with no opponent building on it.
    The engine's recomputation returns 5, because [dfsLongestPath] marks
    visited nodes and cannot come back to the start node; marking visited
    edges, as the rule says and as [calculateLongestRoad] of the rules
    library does, gives 6. *)
Theorem engine_longest_road_misses_loop :
  (Player.roads <$> GameState.players game_loop !! 0%nat) = Some [1; 2; 3; 4; 5; 0]%nat
  /\ map (fun e => (Edge.fromNode e, Edge.toNode e)) (take 6 (edges_of game_loop))
     = [(0, 1); (1, 2); (2, 3); (3, 4); (4, 5); (5, 0)]%nat
  /\ calculateLongestRoadForPlayer 0 game_loop = Return 5
  /\ Spec.longestRoad game_loop 0 = Some 6
  /\ CatanRules.calculateLongestRoad [1; 2; 3; 4; 5; 0]%nat (edges_of game_loop) = Some 6.
Proof. split_and!; vm_compute; reflexivity. Qed.

(** C6, as stated, fails.  In the scripted game player 1 holds Longest
    Road with 5 roads and player 0 has 4.  Player 0 builds its fifth road:
    both lengths are now 5, a tie, and the award moves from player 1 to
    player 0. *)
Lemma tie_moves_longest_road :
  let s := game_before_tie in
  let s' := fst (buildRoad 5 s) in
  snd (buildRoad 5 s) = Return true
  /\ GameState.currentPlayer s = 0%nat
  /\ GameState.longestRoadPlayer s = Some 1%nat
  /\ calculateLongestRoadForPlayer 0 s = Return 4
  /\ calculateLongestRoadForPlayer 1 s = Return 5
  /\ calculateLongestRoadForPlayer 0 s' = Return 5
  /\ calculateLongestRoadForPlayer 1 s' = Return 5
  /\ GameState.longestRoadPlayer s' = Some 0%nat.
Proof. split_and!; vm_compute; reflexivity. Qed.


(** ** Recomputing victory points touches nothing else *)

Lemma same_but_points_refl p : same_but_points p p.
Proof. exists (Player.victoryPoints p), (Player.publicVictoryPoints p). by destruct p. Qed.

Lemma same_but_points_trans p1 p2 p3 :
  same_but_points p1 p2 -> same_but_points p2 p3 -> same_but_points p1 p3.
Proof. intros (v & w & ->) (v' & w' & ->). by exists v', w'. Qed.

Lemma points_only_refl s : points_only s s.
Proof.
  split; [by destruct s|].
  apply Forall2_same_length_lookup. split; [done|].
  intros i p p' H1 H2. simplify_eq. apply same_but_points_refl.
Qed.

Lemma points_only_trans s1 s2 s3 :
  points_only s1 s2 -> points_only s2 s3 -> points_only s1 s3.
Proof.
  intros [E1 F1] [E2 F2]. split.
  - rewrite E2. rewrite E1. by destruct s1.
  - eapply Forall2_trans; [|done..]. apply same_but_points_trans.
Qed.

Lemma updateVictoryPoints_points_only i s :
  exists s', updateVictoryPoints i s = (s', Return tt) /\ points_only s s'.
Proof.
  eexists. split; [reflexivity|]. split; [by destruct s|]. simpl.
  apply Forall2_alter_r.
  - apply Forall2_same_length_lookup. split; [done|].
    intros j p p' H1 H2. simplify_eq. apply same_but_points_refl.
  - intros p p' _ _ H. eapply same_but_points_trans; [done|]. by eexists _, _.
Qed.

Lemma forEach_updateVictoryPoints indices s :
  exists s', forEach indices updateVictoryPoints s = (s', Return tt) /\ points_only s s'.
Proof.
  revert s. induction indices as [|i indices IH]; intros s.
  - exists s. split; [done|]. apply points_only_refl.
  - destruct (updateVictoryPoints_points_only i s) as (s1 & H1 & P1).
    destruct (IH s1) as (s2 & H2 & P2).
    exists s2. split; [|by eapply points_only_trans].
    simpl. unfold bind. by rewrite H1.
Qed.

Lemma points_only_longestRoadPlayer s s' :
  points_only s s' -> GameState.longestRoadPlayer s' = GameState.longestRoadPlayer s.
Proof. intros [-> _]. done. Qed.

(** ** The depth bound of [dfsLongestPath] *)

Lemma net_get_elem roadNetwork k ns :
  net_get roadNetwork k = Some ns -> (k, ns) ∈ roadNetwork.
Proof.
  unfold net_get. destruct (List.find _ _) as [[k' ns']|] eqn:Hf; [|done].
  intros [= <-]. apply find_some in Hf as [Hin Hk].
  apply bool_decide_eq_true in Hk. simpl in Hk. subst k'. by apply list_elem_of_In.
Qed.

Lemma net_get_None roadNetwork k :
  net_get roadNetwork k = None -> k ∉ map fst roadNetwork.
Proof.
  unfold net_get. destruct (List.find _ _) as [kv|] eqn:Hf; [done|]. intros _ Hin.
  apply list_elem_of_fmap in Hin as ([k' ns] & -> & Hin).
  apply list_elem_of_In in Hin.
  pose proof (find_none _ _ Hf _ Hin) as Hk. simpl in Hk.
  by apply bool_decide_eq_false in Hk.
Qed.

Lemma keys_net_push k v roadNetwork :
  map fst (net_push k v roadNetwork) = map fst roadNetwork.
Proof.
  unfold net_push. rewrite map_map. apply map_ext. intros [k' ns]. simpl.
  by destruct (decide (k' = k)).
Qed.

Lemma keys_net_ensure k roadNetwork :
  k ∈ map fst (net_ensure k roadNetwork)
  /\ forall x, x ∈ map fst roadNetwork -> x ∈ map fst (net_ensure k roadNetwork).
Proof.
  unfold net_ensure. destruct (net_get roadNetwork k) as [ns|] eqn:Hg.
  - split; [|done]. apply net_get_elem in Hg.
    apply list_elem_of_fmap. by exists (k, ns).
  - rewrite map_app. simpl. split.
    + apply elem_of_app. right. apply list_elem_of_here.
    + intros x Hx. apply elem_of_app. by left.
Qed.

Lemma net_closed_ensure k roadNetwork :
  net_closed roadNetwork -> net_closed (net_ensure k roadNetwork).
Proof.
  intros Hc k' ns n Hin Hn. apply keys_net_ensure.
  unfold net_ensure in Hin. destruct (net_get roadNetwork k); [by eapply Hc|].
  apply elem_of_app in Hin as [Hin|Hin]; [by eapply Hc|].
  apply list_elem_of_singleton in Hin. simplify_eq. by apply elem_of_nil in Hn.
Qed.

Lemma net_closed_push k v roadNetwork :
  v ∈ map fst roadNetwork -> net_closed roadNetwork -> net_closed (net_push k v roadNetwork).
Proof.
  intros Hv Hc k' ns n Hin Hn. rewrite keys_net_push.
  unfold net_push in Hin. apply list_elem_of_fmap in Hin as ([k0 ns0] & Heq & Hin).
  simpl in Heq. destruct (decide (k0 = k)); simplify_eq.
  - apply elem_of_app in Hn as [Hn|Hn]; [by eapply Hc|].
    apply list_elem_of_singleton in Hn. by subst n.
  - by eapply Hc.
Qed.

Lemma net_closed_addRoad edge roadNetwork :
  net_closed roadNetwork -> net_closed (addRoadToNetwork edge roadNetwork).
Proof.
  intros Hc. unfold addRoadToNetwork. cbv zeta.
  apply net_closed_push.
  { rewrite keys_net_push.
    apply (proj2 (keys_net_ensure _ _)), (proj1 (keys_net_ensure _ _)). }
  apply net_closed_push; [apply (proj1 (keys_net_ensure _ _))|].
  by apply net_closed_ensure, net_closed_ensure.
Qed.

Lemma net_closed_build edges roads roadNetwork roadNetwork' :
  net_closed roadNetwork ->
  buildRoadNetwork edges roads roadNetwork = Return roadNetwork' ->
  net_closed roadNetwork'.
Proof.
  revert roadNetwork. induction roads as [|edgeId roads IH]; intros roadNetwork Hc; simpl.
  - by intros [= <-].
  - destruct (edges !! edgeId) as [edge|]; [|done].
    apply IH. by apply net_closed_addRoad.
Qed.

Lemma buildRoadNetwork_fuel edges roads roadNetwork :
  buildRoadNetwork edges roads roadNetwork <> Throw OutOfFuel.
Proof.
  revert roadNetwork. induction roads as [|edgeId roads IH]; intros roadNetwork; simpl.
  - done.
  - by destruct (edges !! edgeId).
Qed.

(** The nodes on a path are distinct keys of the network, so a path is no
    longer than the network has keys. *)
Lemma path_length (roadNetwork : RoadNetwork) (path : list nat) :
  NoDup path -> (forall x, x ∈ path -> x ∈ map fst roadNetwork) ->
  (length path <= length roadNetwork)%nat.
Proof.
  intros Hnd Hsub. rewrite <- (length_map fst roadNetwork).
  apply submseteq_length, NoDup_submseteq; done.
Qed.

Lemma dfsLongestPath_fuel nodes roadNetwork playerId :
  net_closed roadNetwork ->
  forall fuel currentNode visited,
    NoDup (currentNode :: visited) ->
    (forall x, x ∈ currentNode :: visited -> x ∈ map fst roadNetwork) ->
    (length roadNetwork + 1 <= length visited + fuel)%nat ->
    dfsLongestPath fuel nodes roadNetwork currentNode visited playerId <> Throw OutOfFuel.
Proof.
  intros Hc fuel. induction fuel as [|fuel IH]; intros currentNode visited Hnd Hsub Hlen.
  - pose proof (path_length roadNetwork _ Hnd Hsub) as Hp. simpl in Hp. lia.
  - simpl.
    assert (forall n, n ∈ default [] (net_get roadNetwork currentNode) ->
                      n ∈ map fst roadNetwork) as Hns.
    { destruct (net_get roadNetwork currentNode) as [ns|] eqn:Hg; simpl.
      - intros n Hn. eapply Hc; [by apply net_get_elem|done].
      - intros n Hn. by apply elem_of_nil in Hn. }
    revert Hns. generalize (default [] (net_get roadNetwork currentNode)).
    generalize 0. intros maxLength ns. revert maxLength.
    induction ns as [|neighbor ns IHns]; intros maxLength Hns; [done|].
    assert (forall n, n ∈ ns -> n ∈ map fst roadNetwork) as Hns'
      by (intros n Hn; apply Hns; by right).
    destruct (decide (neighbor ∈ currentNode :: visited)) as [Hv|Hv]; [by apply IHns|].
    destruct (nodes !! neighbor) as [node|]; [|done].
    destruct (_ && _); [by apply IHns|].
    destruct (dfsLongestPath fuel nodes roadNetwork neighbor (currentNode :: visited) playerId)
      as [len|e] eqn:Hd.
    + by apply IHns.
    + intros [= ->]. revert Hd. apply IH.
      * by constructor.
      * intros x [->|Hx]%elem_of_cons; [apply Hns; by left|by apply Hsub].
      * simpl. lia.
Qed.

Lemma longestFromStarts_fuel nodes roadNetwork playerId starts maxLength :
  net_closed roadNetwork ->
  (forall x, x ∈ starts -> x ∈ map fst roadNetwork) ->
  longestFromStarts nodes roadNetwork starts playerId maxLength <> Throw OutOfFuel.
Proof.
  intros Hc. revert maxLength.
  induction starts as [|startNode starts IH]; intros maxLength Hsub;
    cbn [longestFromStarts]; [done|].
  destruct (dfsLongestPath (S (length roadNetwork)) nodes roadNetwork startNode []
              playerId) as [len|e] eqn:Hd.
  - apply IH. intros x Hx. apply Hsub. by right.
  - intros [= ->]. revert Hd. apply dfsLongestPath_fuel; [done| | |simpl; lia].
    + apply NoDup_singleton.
    + intros x ->%list_elem_of_singleton. apply Hsub. by left.
Qed.

Lemma calculateLongestRoadForPlayer_fuel playerId s :
  calculateLongestRoadForPlayer playerId s <> Throw OutOfFuel.
Proof.
  unfold calculateLongestRoadForPlayer, qbind, qgets, qdefined, qret.
  destruct (GameState.players s !! playerId) as [player|]; [|done].
  destruct (decide (Player.roads player = [])); [done|].
  destruct (buildRoadNetwork _ _ _) as [roadNetwork|e] eqn:Hb.
  - apply longestFromStarts_fuel; [|done].
    eapply net_closed_build; [|done]. intros k ns x Hin. by apply elem_of_nil in Hin.
  - intros [= ->]. by apply buildRoadNetwork_fuel in Hb.
Qed.

Lemma longestRoadCandidate_fuel players longestRoadPlayer longestRoadLength s :
  longestRoadCandidate players longestRoadPlayer longestRoadLength s <> Throw OutOfFuel.
Proof.
  revert longestRoadPlayer longestRoadLength.
  induction players as [|player players IH]; intros longestRoadPlayer longestRoadLength;
    simpl; [done|].
  unfold qbind.
  destruct (calculateLongestRoadForPlayer (Player.id player) s) as [len|e] eqn:Hc.
  - destruct (_ && _); apply IH.
  - intros [= ->]. by apply calculateLongestRoadForPlayer_fuel in Hc.
Qed.

Lemma checkLongestRoad_fuel s : snd (checkLongestRoad s) <> Throw OutOfFuel.
Proof.
  unfold checkLongestRoad. unfold bind, gets, query.
  destruct (longestRoadCandidate (GameState.players s) None 0 s) as [[w l]|e] eqn:Hc.
  - simpl. destruct (decide (w <> GameState.longestRoadPlayer s)); [|done].
    unfold bind, modify.
    destruct (forEach_updateVictoryPoints (player_indices s)
                (GameState.set_longestRoad w l s)) as (s2 & H2 & _).
    by rewrite H2.
  - simpl. intros [= ->]. by apply longestRoadCandidate_fuel in Hc.
Qed.

(** ** Who holds Longest Road *)

Lemma longestRoadCandidate_spec s players w0 l0 w l :
  longestRoadCandidate players w0 l0 s = Return (w, l) ->
  (w = w0 /\ l = l0
   /\ Forall (fun q => exists len,
                calculateLongestRoadForPlayer (Player.id q) s = Return len
                /\ (len < 5 \/ len <= l0)) players)
  \/ (exists (i : nat) p,
        players !! i = Some p /\ w = Some (Player.id p)
        /\ calculateLongestRoadForPlayer (Player.id p) s = Return l
        /\ 5 <= l /\ l0 < l
        /\ forall (j : nat) q, players !! j = Some q ->
             exists len, calculateLongestRoadForPlayer (Player.id q) s = Return len
                         /\ len <= l /\ ((j < i)%nat -> len < l)).
Proof.
  revert w0 l0. induction players as [|h rest IH]; intros w0 l0 H.
  - left. simpl in H. unfold qret in H. by simplify_eq.
  - simpl in H. unfold qbind in H.
    destruct (calculateLongestRoadForPlayer (Player.id h) s) as [len|] eqn:Hlen; [|done].
    destruct (bool_decide (len >= 5) && bool_decide (len > l0)) eqn:Hsel.
    + apply andb_true_iff in Hsel as [H5 Hgt].
      apply bool_decide_eq_true in H5, Hgt.
      destruct (IH _ _ H) as [(-> & -> & Hall)|(i & p & Hi & -> & Hp & Hl5 & Hlt & Hothers)].
      * right. exists 0%nat, h. split_and!; [done..|lia|lia|].
        intros [|j] q Hq; simplify_eq/=.
        -- exists len. split_and!; [done|lia|lia].
        -- destruct (Forall_lookup_1 _ _ _ _ Hall Hq) as (len' & Hc & Hb).
           exists len'. split_and!; [done|lia|lia].
      * right. exists (S i), p. split_and!; [done..|lia|].
        intros [|j] q Hq; simplify_eq/=.
        -- exists len. split_and!; [done|lia|lia].
        -- destruct (Hothers _ _ Hq) as (len' & Hc & Hle & Hlt').
           exists len'. split_and!; [done..|]. intros. apply Hlt'. lia.
    + assert (len < 5 \/ len <= l0) as Hb.
      { apply andb_false_iff in Hsel as [Hf|Hf]; apply bool_decide_eq_false in Hf; lia. }
      destruct (IH _ _ H) as [(-> & -> & Hall)|(i & p & Hi & -> & Hp & Hl5 & Hlt & Hothers)].
      * left. split_and!; [done..|]. constructor; [|done]. by exists len.
      * right. exists (S i), p. split_and!; [done..|].
        intros [|j] q Hq; simplify_eq/=.
        -- exists len. split_and!; [done|lia|lia].
        -- destruct (Hothers _ _ Hq) as (len' & Hc & Hle & Hlt').
           exists len'. split_and!; [done..|]. intros. apply Hlt'. lia.
Qed.

(** C6, amended.  After [checkLongestRoad] the award is held by the first
    player, in player order, among those whose road length is the highest
    and at least 5; nobody holds it when no player reaches 5.  The previous
    holder plays no part in the choice.  The search of the model is never
    cut short by its depth bound. *)
Theorem checkLongestRoad_holder (s : GameState.t) :
  snd (checkLongestRoad s) <> Throw OutOfFuel
  /\ forall s',
      checkLongestRoad s = (s', Return tt) ->
      match GameState.longestRoadPlayer s' with
      | None =>
          Forall (fun q => exists len,
                    calculateLongestRoadForPlayer (Player.id q) s = Return len /\ len < 5)
                 (GameState.players s)
      | Some holder =>
          exists (i : nat) p len,
            GameState.players s !! i = Some p /\ holder = Player.id p
            /\ calculateLongestRoadForPlayer (Player.id p) s = Return len
            /\ 5 <= len
            /\ forall (j : nat) q, GameState.players s !! j = Some q ->
                 exists len', calculateLongestRoadForPlayer (Player.id q) s = Return len'
                              /\ len' <= len /\ ((j < i)%nat -> len' < len)
      end.
Proof.
  split; [apply checkLongestRoad_fuel|].
  intros s' H. unfold checkLongestRoad in H. unfold bind, gets, query in H.
  destruct (longestRoadCandidate (GameState.players s) None 0 s) as [[w l]|] eqn:Hc; [|done].
  simpl in H.
  assert (GameState.longestRoadPlayer s' = w) as ->.
  { destruct (decide (w <> GameState.longestRoadPlayer s)) as [Hne|Heq].
    - unfold bind, modify in H.
      destruct (forEach_updateVictoryPoints (player_indices s)
                  (GameState.set_longestRoad w l s)) as (s2 & H2 & P2).
      rewrite H2 in H. simplify_eq. by rewrite (points_only_longestRoadPlayer _ _ P2).
    - apply dec_stable in Heq. unfold ret in H. by simplify_eq. }
  destruct (longestRoadCandidate_spec _ _ _ _ _ _ Hc)
    as [(-> & -> & Hall)|(i & p & Hi & -> & Hp & Hl5 & Hlt & Hothers)].
  - eapply Forall_impl; [done|]. intros q (len & Hq & Hb). exists len. split; [done|lia].
  - exists i, p, l. split_and!; done.
Qed.

Lemma checkLongestRoad_holder_witness :
  exists (i : nat) p len,
    GameState.players game_loop !! i = Some p /\ 0%nat = Player.id p
    /\ calculateLongestRoadForPlayer (Player.id p) game_loop = Return len
    /\ 5 <= len
    /\ forall (j : nat) q, GameState.players game_loop !! j = Some q ->
         exists len', calculateLongestRoadForPlayer (Player.id q) game_loop = Return len'
                      /\ len' <= len /\ ((j < i)%nat -> len' < len).
Proof.
  exact (proj2 (checkLongestRoad_holder game_loop) game_loop
           ltac:(vm_compute; reflexivity)).
Defined.

(** ** The victory check *)

Lemma checkVictoryCondition_unfold s :
  checkVictoryCondition s = forEach (player_indices s) victoryCheck s.
Proof. reflexivity. Qed.

Lemma same_but_points_calc p p' :
  same_but_points p p' -> calculateVictoryPoints p' = calculateVictoryPoints p
                          /\ Player.id p' = Player.id p.
Proof. intros (v & w & ->). done. Qed.

Lemma victoryCheck_step (k : nat) s p :
  GameState.players s !! k = Some p ->
  exists s1 p1,
    victoryCheck k s = (s1, Return tt)
    /\ GameState.victoryPointsToWin s1 = GameState.victoryPointsToWin s
    /\ GameState.players s1 = alter (fun _ => p1) k (GameState.players s)
    /\ same_but_points p p1
    /\ Player.victoryPoints p1 = calculateVictoryPoints p1
    /\ ((GameState.victoryPointsToWin s <= Player.victoryPoints p1
         /\ GameState.phase s1 = GAME_OVER
         /\ GameState.gameWinner s1 = Some (Player.id p1))
        \/ (Player.victoryPoints p1 < GameState.victoryPointsToWin s
            /\ GameState.phase s1 = GameState.phase s
            /\ GameState.gameWinner s1 = GameState.gameWinner s)).
Proof.
  intros Hp.
  set (p1 := Player.set_points (calculateVictoryPoints p)
               (calculatePublicVictoryPoints p s) p).
  assert (alter (fun player =>
                   Player.set_points (calculateVictoryPoints player)
                     (calculatePublicVictoryPoints player s) player) k (GameState.players s)
          = alter (fun _ => p1) k (GameState.players s)) as Halter.
  { apply list_alter_ext; [|done..]. intros q Hq. by simplify_eq. }
  unfold victoryCheck. eng_unfold. simpl. rewrite Halter.
  rewrite list_lookup_alter_eq, Hp. simpl.
  destruct (bool_decide (calculateVictoryPoints p >= GameState.victoryPointsToWin s)) eqn:Hd.
  - apply bool_decide_eq_true in Hd. eexists _, p1. split; [reflexivity|].
    split_and!; try done.
    + by eexists _, _.
    + left. simpl. split_and!; [lia|done..].
  - apply bool_decide_eq_false in Hd. eexists _, p1. split; [reflexivity|].
    split_and!; try done.
    + by eexists _, _.
    + right. simpl. split_and!; [lia|done..].
Qed.

Lemma victoryCheck_loop (m k : nat) s :
  length (GameState.players s) = (k + m)%nat ->
  exists s', forEach (seq k m) victoryCheck s = (s', Return tt) /\ victory_checked k s s'.
Proof.
  revert k s. induction m as [|m IH]; intros k s Hlen.
  - exists s. split; [done|]. unfold victory_checked. split_and!; try done.
    + apply Forall2_same_length_lookup. split; [done|].
      intros i p p' H1 H2. simplify_eq. apply same_but_points_refl.
    + intros i p' Hi Hp. apply lookup_lt_Some in Hp. lia.
    + right. split_and!; [done..|]. intros i p' Hi Hp. apply lookup_lt_Some in Hp. lia.
  - destruct (lookup_lt_is_Some_2 (GameState.players s) k) as [p Hp]; [lia|].
    destruct (victoryCheck_step k s p Hp) as (s1 & p1 & Hrun & Hthr & Hpl & Hsame & Hvp & Hcase).
    assert (length (GameState.players s1) = (S k + m)%nat) as Hlen1.
    { rewrite Hpl, length_alter. lia. }
    destruct (IH (S k) s1 Hlen1) as (s' & Hrun' & Hthr' & Hf2 & Hbefore & Hfrom & Hcase').
    assert (GameState.players s' !! k = Some p1) as Hk.
    { rewrite Hbefore by lia. rewrite Hpl, list_lookup_alter_eq, Hp. done. }
    exists s'. split.
    { cbn [seq forEach]. unfold bind at 1. rewrite Hrun. exact Hrun'. }
    unfold victory_checked. split_and!.
    + congruence.
    + eapply Forall2_trans; [apply same_but_points_trans| |exact Hf2].
      rewrite Hpl. apply Forall2_alter_r.
      * apply Forall2_same_length_lookup. split; [done|].
        intros i q q' H1 H2. simplify_eq. apply same_but_points_refl.
      * intros q q' Hq _ _. by simplify_eq.
    + intros i Hi. rewrite Hbefore by lia. rewrite Hpl.
      rewrite list_lookup_alter_ne by lia. done.
    + intros i p' Hi Hp'. destruct (decide (i = k)) as [->|Hne].
      * by simplify_eq.
      * apply (Hfrom i); [lia|done].
    + destruct Hcase' as [Hover|(Hph & Hw & Hbelow)]; [by left|].
      destruct Hcase as [(Hge & Hph1 & Hw1)|(Hlt & Hph1 & Hw1)].
      * left. split; [congruence|]. exists p1. split_and!.
        -- by eapply list_elem_of_lookup_2.
        -- congruence.
        -- rewrite Hthr', Hthr. done.
      * right. split_and!; [congruence..|].
        intros i p' Hi Hp'. destruct (decide (i = k)) as [->|Hne].
        -- simplify_eq. rewrite Hthr', Hthr. done.
        -- apply Hbelow with i; [lia|done].
Qed.

Lemma set_longestRoad_same s :
  GameState.set_longestRoad (GameState.longestRoadPlayer s) (GameState.longestRoadLength s) s = s.
Proof. by destruct s. Qed.

(** [checkLongestRoad] changes the award fields and victory points only,
    whether it returns or throws. *)
Lemma checkLongestRoad_effect s s' r :
  checkLongestRoad s = (s', r) ->
  exists w l, points_only (GameState.set_longestRoad w l s) s'.
Proof.
  intros H. unfold checkLongestRoad in H. unfold bind, gets, query in H.
  destruct (longestRoadCandidate (GameState.players s) None 0 s) as [[w l]|] eqn:Hc.
  - simpl in H. destruct (decide (w <> GameState.longestRoadPlayer s)).
    + unfold bind, modify in H.
      destruct (forEach_updateVictoryPoints (player_indices s)
                  (GameState.set_longestRoad w l s)) as (s2 & H2 & P2).
      rewrite H2 in H. simplify_eq. by exists w, l.
    + unfold ret in H. simplify_eq.
      exists (GameState.longestRoadPlayer s'), (GameState.longestRoadLength s').
      rewrite set_longestRoad_same. apply points_only_refl.
  - simplify_eq.
    exists (GameState.longestRoadPlayer s'), (GameState.longestRoadLength s').
    rewrite set_longestRoad_same. apply points_only_refl.
Qed.

Lemma checkLongestRoad_phase s s' r :
  checkLongestRoad s = (s', r) ->
  GameState.phase s' = GameState.phase s /\ GameState.gameWinner s' = GameState.gameWinner s.
Proof.
  intros H. destruct (checkLongestRoad_effect _ _ _ H) as (w & l & [-> _]). done.
Qed.

Lemma buildSettlement_phase nodeId s s' :
  buildSettlement nodeId s = (s', Return true) ->
  GameState.phase s' = GameState.phase s /\ GameState.gameWinner s' = GameState.gameWinner s.
Proof.
  intros H. unfold buildSettlement in H. eng_unfold. eng_cases.
  match goal with H : checkLongestRoad _ = _ |- _ => apply checkLongestRoad_phase in H as [-> ->] end.
  done.
Qed.

Lemma buyDevelopmentCard_phase s s' card :
  buyDevelopmentCard s = (s', Return card) ->
  GameState.phase s' = GameState.phase s /\ GameState.gameWinner s' = GameState.gameWinner s.
Proof. intros H. unfold buyDevelopmentCard in H. eng_unfold. eng_cases. Qed.



Lemma buildCity_frame_witness :
  buildCity 34 game_city_ready = (fst (buildCity 34 game_city_ready), Return true)
  /\ same_outside_nodes_and_players game_city_ready (fst (buildCity 34 game_city_ready))
  /\ forall i, i <> GameState.currentPlayer game_city_ready ->
       GameState.players (fst (buildCity 34 game_city_ready)) !! i
       = GameState.players game_city_ready !! i.
Proof.
  assert (buildCity 34 game_city_ready = (fst (buildCity 34 game_city_ready), Return true))
    as Hrun by (vm_compute; reflexivity).
  split; [exact Hrun|].
  destruct (buildCity_frame 34 game_city_ready _ Hrun) as (Hout & _ & _ & Hplayers & _).
  split; [exact Hout|exact Hplayers].
Defined.

(** ** Resource counts under the commands *)

Section Keeps.
Context {A B : Type}.

Lemma keeps_weaken (m : Eng A) (Q Q' : A -> Prop) :
  keeps m Q -> (forall a, Q a -> Q' a) -> keeps m Q'.
Proof. intros H HQ s Hs. destruct (H s Hs) as [Hi Hq]. split; [done|]. eauto. Qed.

Lemma keeps_bind (m : Eng A) (k : A -> Eng B) (Q : A -> Prop) (R : B -> Prop) :
  keeps m Q -> (forall a, Q a -> keeps (k a) R) -> keeps (bind m k) R.
Proof.
  intros Hm Hk s Hs. unfold bind. destruct (Hm s Hs) as [Hi Hq].
  destruct (m s) as [s1 [a|e]]; simpl in *.
  - apply (Hk a); [by apply Hq|done].
  - split; [done|]. intros; discriminate.
Qed.

Lemma keeps_ret (a : A) : keeps (ret a) (fun x => x = a).
Proof. intros s Hs. split; [done|]. simpl. intros; by simplify_eq. Qed.

Lemma keeps_throw (e : Error) (Q : A -> Prop) : keeps (throw e) Q.
Proof. intros s Hs. split; [done|]. simpl. intros; discriminate. Qed.

Lemma keeps_gets (f : GameState.t -> A) :
  keeps (gets f) (fun a => exists s, Inv s /\ a = f s).
Proof. intros s Hs. split; [done|]. simpl. intros; simplify_eq. eauto. Qed.

Lemma keeps_query (q : Query A) : keeps (query q) (fun _ => True).
Proof. intros s Hs. split; [done|]. done. Qed.

Lemma keeps_read (f : GameState.t -> option A) :
  keeps (read f) (fun a => exists s, Inv s /\ f s = Some a).
Proof.
  intros s Hs. split; [done|]. unfold read. simpl.
  destruct (f s) eqn:Hf; intros; simplify_eq. eauto.
Qed.

Lemma keeps_defined (o : option A) : keeps (defined o) (fun a => o = Some a).
Proof.
  intros s Hs. split; [done|]. unfold defined. simpl.
  destruct o; intros; by simplify_eq.
Qed.

End Keeps.

Lemma keeps_forEach {A} (l : list A) (body : A -> Eng unit) :
  (forall x, keeps (body x) (fun _ => True)) -> keeps (forEach l body) (fun _ => True).
Proof.
  intros Hb. induction l as [|x l IH]; simpl.
  - eapply keeps_weaken; [apply keeps_ret|done].
  - eapply keeps_bind; [apply Hb|]. intros _ _. apply IH.
Qed.

Lemma keeps_throw_if c msg : keeps (throw_if c msg) (fun _ => c = false).
Proof.
  unfold throw_if. destruct c.
  - apply keeps_throw.
  - eapply keeps_weaken; [apply keeps_ret|done].
Qed.

Lemma keeps_modify f :
  (forall s, Inv s -> Inv (f s)) -> keeps (modify f) (fun _ => True).
Proof. intros Hf s Hs. split; [by apply Hf|done]. Qed.

Lemma keeps_modify_player i f :
  (forall p, nonneg_resources (Player.resources p) -> nonneg_resources (Player.resources (f p))) ->
  keeps (modify_player i f) (fun _ => True).
Proof.
  intros Hf. apply keeps_modify. intros s Hs. unfold Inv in *. simpl.
  apply Forall_alter; [done|]. intros p _. apply Hf.
Qed.

Lemma keeps_modify_board f : keeps (modify_board f) (fun _ => True).
Proof. apply keeps_modify. intros s Hs. done. Qed.

Lemma keeps_updateVictoryPoints i : keeps (updateVictoryPoints i) (fun _ => True).
Proof.
  apply keeps_modify. intros s Hs. unfold Inv in *. simpl.
  apply Forall_alter; [done|]. intros p _ Hp. done.
Qed.

Lemma res_get_set r r' v x :
  res_get r' (res_set r v x) = if decide (r = r') then v else res_get r' x.
Proof. by destruct x, r, r'. Qed.

Lemma res_get_add r r' d x :
  res_get r' (res_add r d x) = res_get r' x + (if decide (r = r') then d else 0).
Proof. unfold res_add. rewrite res_get_set. destruct (decide (r = r')); subst; lia. Qed.

Lemma nonneg_gain r d p :
  0 <= d -> nonneg_resources (Player.resources p) ->
  nonneg_resources (Player.resources (gain r d p)).
Proof.
  intros Hd Hp r'. simpl. rewrite res_get_add. specialize (Hp r').
  destruct (decide (r = r')); lia.
Qed.

(** Paying is safe once [canAffordBuilding] said yes. *)
Lemma nonneg_payForBuilding player b :
  canAffordBuilding player b = true ->
  nonneg_resources (Player.resources player) ->
  nonneg_resources (payForBuilding player b).
Proof.
  intros Hc Hp r. unfold canAffordBuilding, payForBuilding in *.
  destruct player as [? res ? ? ? ? ? ? ? ? ? ? ?]. simpl in *.
  pose proof (Hp wood). pose proof (Hp brick). pose proof (Hp sheep).
  pose proof (Hp wheat). pose proof (Hp ore). destruct res. simpl in *.
  destruct b; simpl in Hc;
    repeat (apply andb_true_iff in Hc as [?%bool_decide_eq_true Hc]);
    destruct r; simpl; lia.
Qed.

(** Applies the rules of [keeps] along the structure of a handler. *)
Ltac keeps_step :=
  match goal with
  | |- keeps (bind (throw_if _ _) _) _ =>
      eapply keeps_bind; [apply keeps_throw_if|intros _ ?]
  | |- keeps (bind (read _) _) _ =>
      eapply keeps_bind; [apply keeps_read|intros ? (? & ? & ?)]
  | |- keeps (bind (gets _) _) _ =>
      eapply keeps_bind; [apply keeps_gets|intros ? (? & ? & ?)]
  | |- keeps (bind (query _) _) _ =>
      eapply keeps_bind; [apply keeps_query|intros ? _]
  | |- keeps (bind (defined _) _) _ =>
      eapply keeps_bind; [apply keeps_defined|intros ? ?]
  | |- keeps (bind _ _) _ => eapply keeps_bind; [|intros ? ?]
  | |- keeps (ret _) _ => eapply keeps_weaken; [apply keeps_ret|done]
  | |- keeps (throw _) _ => apply keeps_throw
  | |- keeps (throw_if _ _) _ => eapply keeps_weaken; [apply keeps_throw_if|done]
  | |- keeps (forEach _ _) _ => apply keeps_forEach; intros ?
  | |- keeps (modify_board _) _ => apply keeps_modify_board
  | |- keeps (modify_node _ _) _ => apply keeps_modify_board
  | |- keeps (modify_edge _ _) _ => apply keeps_modify_board
  | |- keeps (modify_tile _ _) _ => apply keeps_modify_board
  | |- keeps (updateVictoryPoints _) _ => apply keeps_updateVictoryPoints
  | |- keeps (modify_player _ (gain _ 1)) _ =>
      apply keeps_modify_player; intros ? ?; by apply nonneg_gain
  | |- keeps (modify_player _ _) _ => apply keeps_modify_player; intros ? ?; try done
  | |- keeps (modify _) _ => apply keeps_modify; intros ? ?; try done
  | |- keeps (defined _) _ =>
      first [apply keeps_defined
            | eapply keeps_weaken; [apply keeps_defined|done]
            | refine (keeps_weaken _ _ (fun _ => True) (keeps_defined _) _); done]
  | |- keeps (read _) _ =>
      first [apply keeps_read
            | eapply keeps_weaken; [apply keeps_read|done]
            | refine (keeps_weaken _ _ (fun _ => True) (keeps_read _) _); done]
  | |- keeps (gets _) _ =>
      first [apply keeps_gets
            | eapply keeps_weaken; [apply keeps_gets|done]
            | refine (keeps_weaken _ _ (fun _ => True) (keeps_gets _) _); done]
  | |- keeps (query _) _ =>
      first [apply keeps_query
            | eapply keeps_weaken; [apply keeps_query|done]
            | refine (keeps_weaken _ _ (fun _ => True) (keeps_query _) _); done]
  | |- keeps (if _ then _ else _) _ => case_match
  | |- keeps (match _ with _ => _ end) _ => case_match
  end.

Ltac keeps_auto := repeat keeps_step.

(** Uses a lemma about a unit-valued handler at any postcondition that
    holds of [tt]. *)
Ltac keeps_by lem :=
  first [apply lem | eapply keeps_weaken; [apply lem | by intros []]].

Lemma keeps_grantInitialResources i nodeId :
  keeps (grantInitialResources i nodeId) (fun _ => True).
Proof. unfold grantInitialResources. keeps_auto. Qed.

Lemma keeps_checkVictoryCondition : keeps checkVictoryCondition (fun _ => True).
Proof. unfold checkVictoryCondition. keeps_auto. Qed.

Lemma keeps_checkLongestRoad : keeps checkLongestRoad (fun _ => True).
Proof. unfold checkLongestRoad. keeps_auto. Qed.

Lemma keeps_placeInitialSettlement nodeId :
  keeps (placeInitialSettlement nodeId) (fun _ => True).
Proof.
  unfold placeInitialSettlement. keeps_auto.
  keeps_by keeps_grantInitialResources.
Qed.

Lemma keeps_startMainGame : keeps startMainGame (fun _ => True).
Proof. unfold startMainGame. keeps_auto. Qed.

Lemma keeps_endSetupTurn : keeps endSetupTurn (fun _ => True).
Proof. unfold endSetupTurn. keeps_auto; keeps_by keeps_startMainGame. Qed.

Lemma keeps_placeInitialRoad edgeId : keeps (placeInitialRoad edgeId) (fun _ => True).
Proof. unfold placeInitialRoad. keeps_auto; keeps_by keeps_endSetupTurn. Qed.

Lemma keeps_flagDiscards indices n : keeps (flagDiscards indices n) (fun _ => True).
Proof.
  revert n. induction indices as [|i indices IH]; intros n; simpl.
  - keeps_auto.
  - keeps_auto; apply IH.
Qed.

Lemma keeps_handleRobberRoll : keeps handleRobberRoll (fun _ => True).
Proof.
  unfold handleRobberRoll. keeps_step.
  eapply keeps_bind; [apply keeps_flagDiscards|]. intros. keeps_auto.
Qed.

Lemma keeps_produceForNodes diceRoll i nodeIds :
  keeps (produceForNodes diceRoll i nodeIds) (fun _ => True).
Proof. unfold produceForNodes. keeps_auto. Qed.

Lemma keeps_produceResources diceRoll : keeps (produceResources diceRoll) (fun _ => True).
Proof.
  unfold produceResources. keeps_auto.
  - keeps_by keeps_produceForNodes.
  - keeps_by keeps_produceForNodes.
Qed.

Lemma keeps_rollDice dice1 dice2 : keeps (rollDice dice1 dice2) (fun _ => True).
Proof.
  unfold rollDice. keeps_auto.
  - keeps_by keeps_handleRobberRoll.
  - keeps_by keeps_produceResources.
Qed.

Lemma keeps_endTurn : keeps endTurn (fun _ => True).
Proof. unfold endTurn. keeps_auto. keeps_by keeps_checkVictoryCondition. Qed.

Lemma Inv_current_player s p :
  Inv s -> getCurrentPlayer s = Some p -> nonneg_resources (Player.resources p).
Proof. intros Hs Hp. exact (Forall_lookup_1 _ _ _ _ Hs Hp). Qed.

Lemma Inv_player s i p :
  Inv s -> GameState.players s !! i = Some p -> nonneg_resources (Player.resources p).
Proof. intros Hs Hp. exact (Forall_lookup_1 _ _ _ _ Hs Hp). Qed.

(** Closes the payment step of a build handler. *)
Ltac pay_step :=
  cbv beta in *; simpl; apply nonneg_payForBuilding;
  [ by apply negb_false_iff | eauto using Inv_current_player ].

Lemma keeps_buildSettlement nodeId : keeps (buildSettlement nodeId) (fun _ => True).
Proof.
  unfold buildSettlement. keeps_auto.
  - pay_step.
  - keeps_by keeps_checkLongestRoad.
Qed.

Lemma keeps_buildCity nodeId : keeps (buildCity nodeId) (fun _ => True).
Proof. unfold buildCity. keeps_auto. pay_step. Qed.

Lemma keeps_buildRoad edgeId : keeps (buildRoad edgeId) (fun _ => True).
Proof.
  unfold buildRoad. keeps_auto.
  - pay_step.
  - keeps_by keeps_checkLongestRoad.
Qed.

Lemma keeps_buyDevelopmentCard : keeps buyDevelopmentCard (fun _ => True).
Proof. unfold buyDevelopmentCard. keeps_auto. pay_step. Qed.

Lemma keeps_playYearOfPlenty playerId resources :
  keeps (playYearOfPlenty playerId resources) (fun _ => True).
Proof. unfold playYearOfPlenty. keeps_auto. Qed.

(** [monopolize] only ever adds positive amounts to its running total. *)
Lemma keeps_monopolize indices playerId resourceType totalStolen :
  keeps (monopolize indices playerId resourceType totalStolen)
        (fun total => totalStolen <= total).
Proof.
  revert totalStolen. induction indices as [|i indices IH]; intros totalStolen; simpl.
  - eapply keeps_weaken; [apply keeps_ret|]. intros total Ht. simpl in Ht. lia.
  - keeps_step. repeat case_match.
    + eapply keeps_bind.
      * apply keeps_modify_player. intros p Hp r. simpl. rewrite res_get_set.
        destruct (decide (resourceType = r)); [lia|apply Hp].
      * intros _ _. eapply keeps_weaken; [apply IH|]. intros total Ht. simpl in Ht.
        match goal with H : bool_decide (_ > 0) = true |- _ =>
          apply bool_decide_eq_true in H end. lia.
    + apply IH.
    + apply IH.
Qed.

Lemma keeps_playMonopoly playerId resourceType :
  keeps (playMonopoly playerId resourceType) (fun _ => True).
Proof.
  unfold playMonopoly. keeps_step. case_match; [keeps_auto|].
  keeps_step. eapply keeps_bind; [apply keeps_monopolize|]. intros totalStolen Ht.
  keeps_step.
  - apply keeps_modify_player. intros p Hp. by apply nonneg_gain.
  - keeps_auto.
Qed.

(** *** The ledger *)

Lemma apply_gains_app ops1 ops2 players :
  apply_gains (ops1 ++ ops2) players = apply_gains ops2 (apply_gains ops1 players).
Proof. unfold apply_gains. apply foldl_app. Qed.

Lemma apply_gains_cons j r d ops players :
  apply_gains ((j, r, d) :: ops) players = apply_gains ops (alter (gain r d) j players).
Proof. reflexivity. Qed.

Lemma apply_gains_length ops players : length (apply_gains ops players) = length players.
Proof.
  revert players. induction ops as [|[[j r] d] ops IH]; intros players; [done|].
  rewrite apply_gains_cons, IH. apply length_alter.
Qed.

Lemma total_gain_app ops1 ops2 i r :
  total_gain (ops1 ++ ops2) i r = total_gain ops1 i r + total_gain ops2 i r.
Proof.
  induction ops1 as [|[[j r'] d] ops1 IH]; simpl; [lia|]. rewrite IH. lia.
Qed.

Lemma apply_gains_lookup ops players i p :
  players !! i = Some p ->
  exists p', apply_gains ops players !! i = Some p'
             /\ forall r, res_get r (Player.resources p')
                          = res_get r (Player.resources p) + total_gain ops i r.
Proof.
  revert players p. induction ops as [|[[j r'] d] ops IH]; intros players p Hp.
  - exists p. split; [done|]. intros r. simpl. lia.
  - rewrite apply_gains_cons. simpl.
    destruct (decide (j = i)) as [->|Hne].
    + destruct (IH (alter (gain r' d) i players) (gain r' d p)) as (p' & Hp' & Hres).
      { by rewrite list_lookup_alter_eq, Hp. }
      exists p'. split; [done|]. intros r. rewrite Hres. simpl. rewrite res_get_add.
      destruct (decide (r' = r)) as [->|?].
      * rewrite decide_True by done. lia.
      * rewrite decide_False by (intros [_ ?]; done). lia.
    + destruct (IH (alter (gain r' d) j players) p) as (p' & Hp' & Hres).
      { by rewrite list_lookup_alter_ne. }
      exists p'. split; [done|]. intros r. rewrite Hres.
      rewrite decide_False by (intros [? _]; done). lia.
Qed.

Lemma apply_gains_nonneg ops players :
  (forall i p r, players !! i = Some p ->
                 0 <= res_get r (Player.resources p) + total_gain ops i r) ->
  resources_nonneg (apply_gains ops players).
Proof.
  intros H. apply Forall_lookup_2. intros i p' Hp'.
  destruct (lookup_lt_is_Some_2 players i) as [p Hp].
  { apply lookup_lt_Some in Hp'. by rewrite apply_gains_length in Hp'. }
  destruct (apply_gains_lookup ops players i p Hp) as (p'' & Hp'' & Hres).
  simplify_eq. intros r. rewrite Hres. by eapply H.
Qed.

Lemma total_gain_take from es i r :
  total_gain (take_ops from es) i r = if decide (from = i) then - bsum es r else 0.
Proof.
  induction es as [|[r' a] es IH]; simpl.
  - by destruct (decide (from = i)).
  - rewrite IH. destruct (decide (from = i)), (decide (r' = r)).
    + rewrite decide_True by done. lia.
    + rewrite decide_False by (intros [_ ?]; done). lia.
    + rewrite decide_False by (intros [? _]; done). lia.
    + rewrite decide_False by (intros [? _]; done). lia.
Qed.

Lemma transfer_ops_cons from to r a es :
  transfer_ops from to ((r, a) :: es)
  = (from, r, - a) :: (to, r, a) :: transfer_ops from to es.
Proof. reflexivity. Qed.

Lemma total_gain_transfer from to es i r :
  total_gain (transfer_ops from to es) i r
  = (if decide (to = i) then bsum es r else 0)
    - (if decide (from = i) then bsum es r else 0).
Proof.
  induction es as [|[r' a] es IH].
  - simpl. destruct (decide (to = i)), (decide (from = i)); lia.
  - rewrite transfer_ops_cons. cbn [total_gain bsum]. rewrite IH. clear IH.
    destruct (decide (to = i)), (decide (from = i)), (decide (r' = r));
      repeat match goal with
             | |- context [decide (?P /\ ?Q)] =>
                 first [rewrite (decide_True (P := P /\ Q)) by done
                       | rewrite (decide_False (P := P /\ Q)) by (intros [? ?]; done)]
             end; lia.
Qed.

Lemma all_resources r : r ∈ RESOURCES.
Proof. destruct r; unfold RESOURCES; set_solver. Qed.

Lemma entries_elem b r c : (r, c) ∈ entries b <-> bundle_get r b = Some c.
Proof.
  unfold entries. rewrite list_elem_of_omap. split.
  - intros (r0 & _ & H). destruct (bundle_get r0 b) eqn:Hb; simplify_eq/=. done.
  - intros H. exists r. split; [apply all_resources|]. by rewrite H.
Qed.

Lemma bsum_entries b r : bsum (entries b) r = amount b r.
Proof.
  unfold amount.
  destruct b as [[?|] [?|] [?|] [?|] [?|]], r; cbn;
    repeat (case_decide; try discriminate); try congruence; lia.
Qed.

Lemma single_entry_Some b e : single_entry b = Some e -> entries b = [e].
Proof.
  unfold single_entry. destruct (entries b) as [|e' [|? ?]]; intros; by simplify_eq.
Qed.

(** *** Loops over the entries of a bundle *)

Lemma set_players_same s : GameState.set_players (GameState.players s) s = s.
Proof. by destruct s. Qed.

(** A loop of checks leaves the state alone, and if it returns every
    check has passed. *)
Lemma forEach_checks {A} (l : list A) (body : A -> Eng unit)
    (Q : A -> GameState.t -> Prop) :
  (forall x s, fst (body x s) = s /\ (snd (body x s) = Return tt -> Q x s)) ->
  forall s, fst (forEach l body s) = s
            /\ (snd (forEach l body s) = Return tt -> Forall (fun x => Q x s) l).
Proof.
  intros Hb. induction l as [|x l IH]; intros s; simpl.
  - split; [done|]. intros _. constructor.
  - unfold bind. destruct (Hb x s) as [Hs Hq].
    destruct (body x s) as [s1 [[]|e]]; simpl in *; subst s1.
    + destruct (IH s) as [Hs' Hq']. split; [done|].
      intros Hr. constructor; [by apply Hq|by apply Hq'].
    + split; [done|]. intros; discriminate.
Qed.

Lemma forEach_take (i : nat) (es : list (Resource * Z)) (body : Resource * Z -> Eng unit) :
  (forall e s, body e s
               = (GameState.set_players
                    (alter (gain (fst e) (- snd e)) i (GameState.players s)) s,
                  Return tt)) ->
  forall s, forEach es body s
            = (GameState.set_players (apply_gains (take_ops i es) (GameState.players s)) s,
               Return tt).
Proof.
  intros Hb. induction es as [|[r a] es IH]; intros s; simpl.
  - unfold ret. by rewrite set_players_same.
  - unfold bind. rewrite Hb, IH. simpl. by destruct s.
Qed.

Lemma forEach_transfer (from to : nat) (es : list (Resource * Z))
    (body : Resource * Z -> Eng unit) :
  (forall e s,
      (from < length (GameState.players s))%nat ->
      (to < length (GameState.players s))%nat ->
      body e s
      = (GameState.set_players
           (alter (gain (fst e) (snd e)) to
              (alter (gain (fst e) (- snd e)) from (GameState.players s))) s,
         Return tt)) ->
  forall s,
    (from < length (GameState.players s))%nat ->
    (to < length (GameState.players s))%nat ->
    forEach es body s
    = (GameState.set_players
         (apply_gains (transfer_ops from to es) (GameState.players s)) s,
       Return tt).
Proof.
  intros Hb. induction es as [|[r a] es IH]; intros s Hf Ht; cbn [forEach].
  - unfold ret. cbn. by rewrite set_players_same.
  - unfold bind. rewrite Hb by done. rewrite IH.
    + rewrite transfer_ops_cons, !apply_gains_cons. simpl. by destruct s.
    + simpl. by rewrite !length_alter.
    + simpl. by rewrite !length_alter.
Qed.

(** Steps over a leading [throw_if]: the throwing branch keeps the state. *)
Ltac step_throw_if :=
  unfold bind at 1; unfold throw_if at 1;
  match goal with
  | |- context [if ?c then throw _ else ret _] => destruct c eqn:?
  end;
  [done | unfold ret at 1; cbv beta iota].

Lemma keeps_discardCards playerId cardsToDiscard :
  keeps (discardCards playerId cardsToDiscard) (fun _ => True).
Proof.
  intros s Hs. split; [|done]. unfold discardCards.
  unfold bind at 1. unfold read.
  destruct (GameState.players s !! playerId) as [player|] eqn:Hp; [|done].
  step_throw_if. step_throw_if.
  unfold bind at 1.
  match goal with |- context [forEach ?l ?b s] =>
    destruct (forEach_checks l b
                (fun e _ => snd e <= res_get (fst e) (Player.resources player))) with (s := s)
      as [Hst Hchk]
  end.
  { intros [r c] s0. unfold throw_if.
    destruct (bool_decide (res_get r (Player.resources player) < c)) eqn:Hd;
      simpl; split; try done.
    intros _. apply bool_decide_eq_false in Hd. lia. }
  destruct (forEach _ _ s) as [s1 [[]|e]]; simpl in Hst; subst s1; [|done].
  specialize (Hchk eq_refl).
  unfold bind at 1. rewrite (forEach_take playerId).
  2: { intros [r c] s0. reflexivity. }
  assert (resources_nonneg
            (apply_gains (take_ops playerId (entries cardsToDiscard)) (GameState.players s)))
    as Hnn.
  { apply apply_gains_nonneg. intros i p r Hi.
    rewrite total_gain_take, bsum_entries.
    pose proof (Inv_player s i p Hs Hi r) as Hge.
    destruct (decide (playerId = i)) as [->|_]; [|lia].
    simplify_eq. unfold amount.
    destruct (bundle_get r cardsToDiscard) as [c|] eqn:Hb; simpl; [|lia].
    apply entries_elem in Hb.
    apply (proj1 (Forall_forall _ _) Hchk) in Hb. simpl in Hb. lia. }
  eng_unfold. simpl. case_match; simpl; unfold Inv; simpl;
    (apply Forall_alter; [done|]); intros p _ Hpn; done.
Qed.

(** *** Steal, bank and port trades *)

Lemma available_card (victim : Player.t) (i : nat) r :
  flat_map (fun r => replicate (Z.to_nat (res_get r (Player.resources victim))) r)
           RESOURCES !! i = Some r ->
  1 <= res_get r (Player.resources victim).
Proof.
  intros H. apply list_elem_of_lookup_2 in H.
  apply list_elem_of_In, in_flat_map in H as (r0 & _ & Hin).
  apply list_elem_of_In, elem_of_replicate in Hin as [-> Hn]. lia.
Qed.

Lemma Inv_alter s i f :
  Inv s ->
  (forall p, GameState.players s !! i = Some p ->
             nonneg_resources (Player.resources (f p))) ->
  resources_nonneg (alter f i (GameState.players s)).
Proof. intros Hs Hf. apply Forall_alter; [done|]. intros p Hp _. by apply Hf. Qed.

Lemma nonneg_lose r d p :
  0 <= res_get r (Player.resources p) + d -> nonneg_resources (Player.resources p) ->
  nonneg_resources (Player.resources (gain r d p)).
Proof.
  intros Hd Hp r'. simpl. rewrite res_get_add. specialize (Hp r').
  destruct (decide (r = r')); subst; lia.
Qed.

Lemma keeps_stealRandomCard stealer victim rnd :
  keeps (stealRandomCard stealer victim rnd) (fun _ => True).
Proof.
  intros s Hs. split; [|done].
  unfold stealRandomCard. unfold bind at 1, read at 1.
  destruct (GameState.players s !! victim) as [v|] eqn:Hv; [|done].
  cbv zeta.
  destruct (flat_map _ _ !! _) as [stolen|] eqn:Hst; [|done].
  apply available_card in Hst.
  assert (resources_nonneg (alter (gain stolen (-1)) victim (GameState.players s))) as H1.
  { apply Inv_alter; [done|]. intros p Hp. simplify_eq.
    apply nonneg_lose; [lia|]. by eapply Inv_player. }
  eng_unfold. simpl.
  destruct (alter _ victim _ !! stealer) eqn:Hs2; simpl; [|done].
  unfold Inv. simpl. apply Forall_alter; [done|]. intros p _ Hp. by apply nonneg_gain.
Qed.

Lemma keeps_moveRobber tileId targetPlayerId rnd :
  keeps (moveRobber tileId targetPlayerId rnd) (fun _ => True).
Proof.
  unfold moveRobber. keeps_auto.
  eapply keeps_weaken; [apply keeps_stealRandomCard|done].
Qed.

Lemma keeps_tradeWithBank playerId giveResources receiveResource :
  keeps (tradeWithBank playerId giveResources receiveResource) (fun _ => True).
Proof.
  intros s Hs. split; [|done].
  destruct (tradeWithBank playerId giveResources receiveResource s) as [s' o] eqn:H. simpl.
  unfold tradeWithBank in H. eng_unfold. eng_cases.
  match goal with H : bool_decide (_ < _) = false |- _ =>
    apply bool_decide_eq_false in H; rename H into Hge end.
  unfold Inv. simpl.
  apply Forall_alter; [|intros p _ Hp; by apply nonneg_gain].
  apply Inv_alter; [done|]. intros p Hp. simplify_eq.
  apply nonneg_lose; [lia|]. by eapply Inv_player.
Qed.

Lemma keeps_tradeWithPort playerId portType giveResources receiveResource :
  keeps (tradeWithPort playerId portType giveResources receiveResource) (fun _ => True).
Proof.
  intros s Hs. split; [|done].
  destruct (tradeWithPort playerId portType giveResources receiveResource s) as [s' o] eqn:H.
  simpl. unfold tradeWithPort in H. unfold getPortTradeRatio in H.
  destruct (single_entry giveResources) as [[r a]|] eqn:Hse.
  - rewrite (single_entry_Some _ _ Hse) in H. simpl in H. eng_unfold. eng_cases.
    all: repeat match goal with H : bool_decide _ = false |- _ =>
      apply bool_decide_eq_false in H end.
    all: unfold Inv; simpl;
      (apply Forall_alter; [|intros p _ Hp; by apply nonneg_gain]);
      (apply Inv_alter; [done|]); intros p Hp; simplify_eq;
      (apply nonneg_lose; [lia|]); by eapply Inv_player.
  - eng_unfold. eng_cases.
Qed.

Ltac split_throw_if :=
  unfold bind at 1; unfold throw_if at 1;
  match goal with
  | |- context [if ?c then throw _ else ret _] => destruct c eqn:?
  end; [|unfold ret at 1; cbv beta iota].

Lemma proposePlayerTrade_state activeTrades tradeId fromPlayerId toPlayerId offer request s :
  exists o,
    proposePlayerTrade activeTrades tradeId fromPlayerId toPlayerId offer request s = (s, o)
    /\ forall activeTrades', o = Return activeTrades' ->
         activeTrades'
         = <[tradeId := Trade.mk fromPlayerId toPlayerId offer request pending]> activeTrades
         /\ proposed (Trade.mk fromPlayerId toPlayerId offer request pending).
Proof.
  unfold proposePlayerTrade. unfold bind at 1, gets at 1. cbv beta iota.
  split_throw_if; [by eexists|].
  split_throw_if; [by eexists|].
  destruct (GameState.players s !! fromPlayerId) as [fromPlayer|]; [|by eexists].
  destruct (GameState.players s !! toPlayerId) as [toPlayer|]; [|by eexists].
  split_throw_if; [by eexists|].
  unfold bind at 1, throw_if at 1.
  destruct (negb (validateTradeResources offer) || negb (validateTradeResources request))
    eqn:Hv; [by eexists|].
  unfold ret at 1. cbv beta iota. unfold bind at 1.
  match goal with |- context [forEach ?l ?b s] =>
    destruct (forEach_checks l b (fun _ _ => True)) with (s := s) as [Hst _]
  end.
  { intros [r c] s0. unfold throw_if. case_match; simpl; by split. }
  destruct (forEach _ _ s) as [s1 [[]|e]]; simpl in Hst; subst s1; [|by eexists].
  eexists. split; [done|]. intros ? ?. simplify_eq. split; [done|].
  apply orb_false_iff in Hv as [H1 H2]. apply negb_false_iff in H1, H2. by split.
Qed.

(** *** Accepting a proposed trade *)

Lemma amount_nonneg b r : validateTradeResources b = true -> 0 <= amount b r.
Proof.
  unfold validateTradeResources, amount. intros [_ H]%andb_true_iff.
  destruct (bundle_get r b) as [c|] eqn:Hb; simpl; [|lia].
  apply entries_elem in Hb. rewrite forallb_forall in H.
  apply list_elem_of_In, H, bool_decide_eq_true in Hb. simpl in Hb. lia.
Qed.

Lemma entries_nonempty b : validateTradeResources b = true -> entries b <> [].
Proof.
  unfold validateTradeResources. intros [H _]%andb_true_iff.
  by apply negb_true_iff, bool_decide_eq_false in H.
Qed.

Lemma amount_checked b (i : nat) (players : list Player.t) p r :
  Forall (fun e : Resource * Z =>
            exists q, players !! i = Some q /\ snd e <= res_get (fst e) (Player.resources q))
         (entries b) ->
  players !! i = Some p -> nonneg_resources (Player.resources p) ->
  amount b r <= res_get r (Player.resources p).
Proof.
  intros Hall Hp Hnn. unfold amount.
  destruct (bundle_get r b) as [c|] eqn:Hb; simpl; [|apply Hnn].
  apply entries_elem in Hb. rewrite Forall_forall in Hall.
  destruct (Hall _ Hb) as (q & Hq & Hle). simpl in Hle. by simplify_eq.
Qed.

Lemma checked_player (es : list (Resource * Z)) i (players : list Player.t) :
  es <> [] ->
  Forall (fun e : Resource * Z =>
            exists q, players !! i = Some q /\ snd e <= res_get (fst e) (Player.resources q))
         es ->
  (i < length players)%nat.
Proof.
  intros Hne Hall. destruct es as [|e es]; [done|].
  apply Forall_cons in Hall as [(q & Hq & _) _]. by apply lookup_lt_Some in Hq.
Qed.

Lemma keeps_acceptPlayerTrade activeTrades tradeId acceptingPlayerId :
  (forall trade, activeTrades !! tradeId = Some trade -> proposed trade) ->
  keeps (acceptPlayerTrade activeTrades tradeId acceptingPlayerId) (fun _ => True).
Proof.
  intros Hprop s Hs. split; [|done]. unfold acceptPlayerTrade.
  destruct (activeTrades !! tradeId) as [trade|] eqn:Ht; [|done].
  destruct (Hprop trade eq_refl) as [Hoff Hreq].
  step_throw_if. step_throw_if. cbv zeta.
  set (from := Trade.fromPlayerId trade). set (to := Trade.toPlayerId trade).
  unfold bind at 1.
  match goal with |- context [forEach ?l ?b s] =>
    destruct (forEach_checks l b
      (fun e s => exists q, GameState.players s !! from = Some q
                            /\ snd e <= res_get (fst e) (Player.resources q)))
      with (s := s) as [Hst Hchk1]
  end.
  { intros [r c] s0. unfold bind, read.
    destruct (GameState.players s0 !! from) as [q|] eqn:Hq; [|done].
    unfold throw_if.
    destruct (bool_decide (res_get r (Player.resources q) < c)) eqn:Hd;
      simpl; split; try done.
    intros _. exists q. split; [done|]. apply bool_decide_eq_false in Hd. simpl. lia. }
  destruct (forEach _ _ s) as [s1 [[]|e]]; simpl in Hst; subst s1; [|done].
  specialize (Hchk1 eq_refl).
  unfold bind at 1.
  match goal with |- context [forEach ?l ?b s] =>
    destruct (forEach_checks l b
      (fun e s => exists q, GameState.players s !! to = Some q
                            /\ snd e <= res_get (fst e) (Player.resources q)))
      with (s := s) as [Hst Hchk2]
  end.
  { intros [r c] s0. unfold bind, read.
    destruct (GameState.players s0 !! to) as [q|] eqn:Hq; [|done].
    unfold throw_if.
    destruct (bool_decide (res_get r (Player.resources q) < c)) eqn:Hd;
      simpl; split; try done.
    intros _. exists q. split; [done|]. apply bool_decide_eq_false in Hd. simpl. lia. }
  destruct (forEach _ _ s) as [s1 [[]|e]]; simpl in Hst; subst s1; [|done].
  specialize (Hchk2 eq_refl).
  assert (from < length (GameState.players s))%nat as Hfrom.
  { apply (checked_player (entries (Trade.offerResources trade)));
      [by apply entries_nonempty|done]. }
  assert (to < length (GameState.players s))%nat as Hto.
  { apply (checked_player (entries (Trade.requestResources trade)));
      [by apply entries_nonempty|done]. }
  unfold bind at 1. rewrite (forEach_transfer from to); [|clear|done|done].
  2: { intros [r a] s0 Hf Hto0. unfold bind, read, modify_player, modify, ret.
       destruct (lookup_lt_is_Some_2 _ _ Hf) as [pf ->]. simpl.
       destruct (lookup_lt_is_Some_2 (alter (gain r (- a)) from (GameState.players s0)) to)
         as [pt ->]; [by rewrite length_alter|].
       by destruct s0. }
  cbv beta iota. unfold bind at 1. rewrite (forEach_transfer to from); [|clear|..].
  2: { intros [r a] s0 Hf Hto0. unfold bind, read, modify_player, modify, ret.
       destruct (lookup_lt_is_Some_2 _ _ Hf) as [pf ->]. simpl.
       destruct (lookup_lt_is_Some_2 (alter (gain r (- a)) to (GameState.players s0)) from)
         as [pt ->]; [by rewrite length_alter|].
       by destruct s0. }
  2,3: simpl; by rewrite apply_gains_length.
  cbv beta iota. unfold ret. simpl. unfold Inv. simpl.
  rewrite <- apply_gains_app. apply apply_gains_nonneg. intros i p r Hp.
  rewrite total_gain_app, !total_gain_transfer, !bsum_entries.
  pose proof (amount_nonneg _ r Hoff). pose proof (amount_nonneg _ r Hreq).
  pose proof (Inv_player _ _ _ Hs Hp r) as Hr.
  pose proof (fun H => amount_checked (Trade.offerResources trade) from _ p r Hchk1 H
                         (Inv_player _ _ _ Hs Hp)) as H1.
  pose proof (fun H => amount_checked (Trade.requestResources trade) to _ p r Hchk2 H
                         (Inv_player _ _ _ Hs Hp)) as H2.
  destruct (decide (to = i)), (decide (from = i)); subst;
    try specialize (H1 Hp); try specialize (H2 Hp); lia.
Qed.

(** *** The port-aware trading system *)

Lemma executeBankTrade_nonneg portAccess players playerId giveResource receiveResource amount :
  0 <= amount -> resources_nonneg players ->
  resources_nonneg
    (fst (Enhanced.executeBankTrade portAccess players playerId giveResource
            receiveResource amount)).
Proof.
  intros Ha Hnn. unfold Enhanced.executeBankTrade.
  destruct (players !! playerId) as [player|] eqn:Hp; [|done]. cbv zeta.
  unfold Enhanced.validateBankTrade.
  destruct (bool_decide _) eqn:Hv; simpl; [|done].
  apply bool_decide_eq_true in Hv.
  apply Forall_alter; [|intros p _ Hpn; by apply nonneg_gain].
  apply Forall_alter; [done|]. intros p Hp' Hpn. simplify_eq.
  apply nonneg_lose; [lia|done].
Qed.

Lemma foldl_gains (f : Resource * Z -> Z) i es players :
  foldl (fun ps e => alter (gain (fst e) (f e)) i ps) players es
  = apply_gains (map (fun e => (i, fst e, f e)) es) players.
Proof.
  revert players. induction es as [|e es IH]; intros players; [done|].
  cbn [foldl map]. rewrite IH. by destruct e.
Qed.

Lemma total_gain_map (f : Resource * Z -> Z) i es j r :
  total_gain (map (fun e => (i, fst e, f e)) es) j r
  = if decide (i = j) then bsum (map (fun e => (fst e, f e)) es) r else 0.
Proof.
  induction es as [|[r' a] es IH]; simpl.
  - by destruct (decide (i = j)).
  - rewrite IH. destruct (decide (i = j)), (decide (r' = r)).
    + rewrite decide_True by done. lia.
    + rewrite decide_False by (intros [_ ?]; done). lia.
    + rewrite decide_False by (intros [? _]; done). lia.
    + rewrite decide_False by (intros [? _]; done). lia.
Qed.

Lemma bsum_opp es r :
  bsum (map (fun e : Resource * Z => (fst e, - snd e)) es) r
  = - bsum (map (fun e : Resource * Z => (fst e, snd e)) es) r.
Proof.
  induction es as [|[r' a] es IH]; simpl; [done|].
  rewrite IH. destruct (decide (r' = r)); lia.
Qed.

(** [transferResources] takes with one hand what it gives with the other:
    every count is what it was. *)
Lemma transferResources_counts fromIdx toIdx giveResources receiveResources players i p :
  players !! i = Some p ->
  exists p',
    Enhanced.transferResources fromIdx toIdx giveResources receiveResources players !! i
    = Some p'
    /\ forall r, res_get r (Player.resources p') = res_get r (Player.resources p).
Proof.
  intros Hp. unfold Enhanced.transferResources. cbv zeta.
  rewrite (foldl_gains (fun e => - snd e) fromIdx), (foldl_gains snd toIdx),
    (foldl_gains (fun e => - snd e) toIdx), (foldl_gains snd fromIdx).
  rewrite <- !apply_gains_app.
  match goal with |- context [apply_gains ?ops players] =>
    destruct (apply_gains_lookup ops players i p Hp) as (p' & Hp' & Hres)
  end.
  exists p'. split; [done|]. intros r. rewrite Hres.
  rewrite !total_gain_app.
  rewrite (total_gain_map (fun e => - snd e) fromIdx), (total_gain_map snd toIdx),
    (total_gain_map (fun e => - snd e) toIdx), (total_gain_map snd fromIdx).
  rewrite !bsum_opp.
  destruct (decide (fromIdx = i)), (decide (toIdx = i)); lia.
Qed.

Lemma transferResources_nonneg fromIdx toIdx giveResources receiveResources players :
  resources_nonneg players ->
  resources_nonneg
    (Enhanced.transferResources fromIdx toIdx giveResources receiveResources players).
Proof.
  intros Hnn. apply Forall_lookup_2. intros i p' Hp'.
  destruct (lookup_lt_is_Some_2 players i) as [p Hp].
  { apply lookup_lt_Some in Hp'. revert Hp'. unfold Enhanced.transferResources. cbv zeta.
    rewrite (foldl_gains (fun e => - snd e) fromIdx), (foldl_gains snd toIdx),
      (foldl_gains (fun e => - snd e) toIdx), (foldl_gains snd fromIdx).
    by rewrite !apply_gains_length. }
  destruct (transferResources_counts fromIdx toIdx giveResources receiveResources
              players i p Hp) as (p'' & Hp'' & Hres).
  simplify_eq. intros r. rewrite Hres. exact (Forall_lookup_1 _ _ _ _ Hnn Hp r).
Qed.

(** *** Sessions *)

Lemma Inv_createInitialGameState numPlayers board deck :
  Inv (createInitialGameState numPlayers board deck).
Proof.
  unfold Inv, resources_nonneg. simpl. apply Forall_fmap, Forall_forall.
  intros i _ r. by destruct r.
Qed.

Lemma on_game_ok {A} (m : Eng A) (Q : A -> Prop) x :
  keeps m Q -> session_ok x -> session_ok (on_game m x).
Proof. intros Hm [Hg Ht]. split; [apply Hm, Hg|done]. Qed.

Lemma propose_ok tradeId fromPlayerId toPlayerId offerResources requestResources x :
  session_ok x ->
  session_ok (on_trades (proposePlayerTrade (Session.activeTrades x) tradeId fromPlayerId
                           toPlayerId offerResources requestResources) x).
Proof.
  intros [Hg Ht]. unfold on_trades.
  destruct (proposePlayerTrade_state (Session.activeTrades x) tradeId fromPlayerId
              toPlayerId offerResources requestResources (Session.game x))
    as (o & -> & Ho).
  split; [done|]. simpl. destruct o as [activeTrades|e]; [|done].
  destruct (Ho activeTrades eq_refl) as [-> Hp]. by apply map_Forall_insert_2.
Qed.

Lemma accept_ok tradeId acceptingPlayerId x :
  session_ok x ->
  session_ok (on_trades (acceptPlayerTrade (Session.activeTrades x) tradeId
                           acceptingPlayerId) x).
Proof.
  intros [Hg Ht]. unfold on_trades.
  destruct (keeps_acceptPlayerTrade (Session.activeTrades x) tradeId acceptingPlayerId)
    with (s := Session.game x) as [Hinv _]; [by intros trade ?%Ht|done|].
  destruct (acceptPlayerTrade _ _ _ _) as [s' o] eqn:Hacc. split; [done|]. simpl.
  destruct o as [activeTrades|e]; [|done].
  unfold acceptPlayerTrade in Hacc.
  destruct (Session.activeTrades x !! tradeId) as [trade|] eqn:Hl; [|done].
  assert (activeTrades = <[tradeId := Trade.set_status accepted trade]>
                           (Session.activeTrades x)) as ->.
  { revert Hacc. cbv zeta. unfold bind, ret.
    repeat (destruct (_ : GameState.t * Outcome unit) as [? [[]|?]]; try done).
    by intros [= _ <-]. }
  apply map_Forall_insert_2; [|done]. apply Ht in Hl. exact Hl.
Qed.

(** Every command of the engine, of the trading manager and of the
    development-card manager leaves every count nonnegative, whether it
    returns or throws. *)
Theorem execute_keeps_counts_nonnegative (c : Command) (x : Session.t) :
  session_ok x -> session_ok (execute c x).
Proof.
  intros Hx. destruct c; simpl;
    first [ by apply propose_ok | by apply accept_ok
          | eapply on_game_ok; [|exact Hx] ].
  - apply keeps_placeInitialSettlement.
  - apply keeps_placeInitialRoad.
  - apply keeps_rollDice.
  - apply keeps_discardCards.
  - apply keeps_moveRobber.
  - apply keeps_buildSettlement.
  - apply keeps_buildCity.
  - apply keeps_buildRoad.
  - apply keeps_buyDevelopmentCard.
  - apply keeps_endTurn.
  - apply keeps_tradeWithBank.
  - apply keeps_tradeWithPort.
  - apply keeps_playMonopoly.
  - apply keeps_playYearOfPlenty.
Qed.

(** In every session played from a new game, every player holds a
    nonnegative number of cards of every resource. *)
Theorem played_counts_nonnegative numPlayers board deck (commands : list Command) :
  session_ok (foldl (fun x c => execute c x) (new_session numPlayers board deck) commands).
Proof.
  assert (session_ok (new_session numPlayers board deck)) as H0.
  { split; [apply Inv_createInitialGameState|apply map_Forall_empty]. }
  revert H0. generalize (new_session numPlayers board deck).
  induction commands as [|c commands IH]; intros x Hx; [done|].
  simpl. by apply IH, execute_keeps_counts_nonnegative.
Qed.

(** C9.  Not every trading operation keeps the counts nonnegative: on a new
    four-player game, where nobody holds a card, [executeBankTrade] of the
    port-aware trading system called for player 0 with wood for brick and
    amount -1 passes its validation (0 >= -4), reports success, and leaves
    player 0 with 4 wood and -1 brick. *)
Theorem bank_trade_drives_count_below_zero :
  let players := GameState.players new_game in
  let after := Enhanced.executeBankTrade ∅ players 0 wood brick (-1) in
  resources_nonneg players
  /\ snd after = Return true
  /\ count_of (fst after) 0 wood = Some 4
  /\ count_of (fst after) 0 brick = Some (-1)
  /\ ~ resources_nonneg (fst after).
Proof.
  cbv zeta. split; [apply Inv_createInitialGameState|].
  split; [reflexivity|]. split; [reflexivity|]. split; [reflexivity|].
  intros H. apply (Forall_lookup_1 _ _ 0%nat _ H eq_refl brick). reflexivity.
Qed.

(** * More properties *)

(** ** Shuffling and the generated board *)

(** X1.  [shuffleArray] only rearranges: whatever the random draws, the
    result has the elements of the argument, each as often as the
    argument has it, and so the same length. *)
Theorem shuffleArray_rearranges {A} (rnd : nat -> nat) (array : list A) :
  shuffleArray rnd array ≡ₚ array
  /\ length (shuffleArray rnd array) = length array.
Proof. split; [apply shuffleArray_Permutation|apply shuffleArray_length]. Qed.

Lemma generateRandomBoard_fixed_part rnd1 rnd2 :
  Board.nodes (generateRandomBoard rnd1 rnd2) = Board.nodes demo_board
  /\ Board.edges (generateRandomBoard rnd1 rnd2) = Board.edges demo_board
  /\ Board.ports (generateRandomBoard rnd1 rnd2) = Board.ports demo_board.
Proof.
  unfold demo_board, generateRandomBoard.
  rewrite (generateNodesAndEdges_coords (generateTiles rnd1 rnd2) blank_tiles)
    by apply generateTiles_coords.
  rewrite (generateNodesAndEdges_coords (generateTiles _ _) blank_tiles)
    by apply generateTiles_coords.
  destruct (generateNodesAndEdges blank_tiles) as [nodes edges].
  by destruct (generatePorts nodes) as [ports nodes'].
Qed.


Lemma assignTiles_unblocked layout index resources tokens :
  Forall (fun t => Tile.hasRobber t = false /\ Tile.isBlocked t = false)
         (assignTiles layout index resources tokens).
Proof.
  revert index tokens. induction layout as [|[q r] rest IH]; intros index tokens; simpl.
  - constructor.
  - destruct (resources !! _) as [x|]; [|constructor].
    destruct x, (pop tokens); constructor; try done; apply IH.
Qed.

Lemma layout_coords_id layout index i x :
  layout_coords index layout !! i = Some x -> fst (fst x) = (index + i)%nat.
Proof.
  revert index i. induction layout as [|[q r] rest IH]; intros index i H; [done|].
  destruct i as [|i]; simpl in H.
  - simplify_eq. simpl. lia.
  - apply IH in H. lia.
Qed.

Lemma lookup_map {A B} (f : A -> B) (l : list A) (i : nat) x :
  l !! i = Some x -> map f l !! i = Some (f x).
Proof. revert i. induction l as [|y l IH]; intros [|i] H; simplify_eq/=; [done|by apply IH]. Qed.

Lemma blank_coords : map tile_coords blank_tiles = layout_coords 0 STANDARD_HEX_LAYOUT.
Proof. vm_compute. reflexivity. Qed.

Lemma generateTiles_ids rnd1 rnd2 i t :
  generateTiles rnd1 rnd2 !! i = Some t -> Tile.id t = i.
Proof.
  intros Ht. apply (lookup_map tile_coords) in Ht.
  rewrite generateTiles_coords, blank_coords in Ht.
  by apply layout_coords_id in Ht.
Qed.

(** X3.  On every generated board the robber stands on the desert tile:
    [robberPosition] is the index and id of a tile whose resource is the
    desert and which has no token.  No tile is marked as holding the
    robber or as blocked yet. *)
Theorem robber_starts_on_the_desert (rnd1 rnd2 : nat -> nat) :
  let board := generateRandomBoard rnd1 rnd2 in
  (exists i t,
      Board.robberPosition board = Some i
      /\ Board.tiles board !! i = Some t
      /\ Tile.id t = i /\ Tile.resource t = desert /\ Tile.token t = None)
  /\ Forall (fun t => Tile.hasRobber t = false /\ Tile.isBlocked t = false)
            (Board.tiles board).
Proof.
  cbv zeta. rewrite generateRandomBoard_tiles. split; [|apply assignTiles_unblocked].
  assert (Board.robberPosition (generateRandomBoard rnd1 rnd2)
          = Some (match findDesertTile (generateTiles rnd1 rnd2) with
                  | Some t => Tile.id t
                  | None => O
                  end)) as ->.
  { unfold generateRandomBoard.
    destruct (generateNodesAndEdges _) as [nodes edges].
    by destruct (generatePorts nodes) as [ports nodes']. }
  pose proof (generateTiles_ids rnd1 rnd2) as Hids.
  destruct (generateTiles_tokens rnd1 rnd2) as [_ Hall].
  assert (desert ∈ map Tile.resource (generateTiles rnd1 rnd2)) as Hdesert.
  { rewrite generateTiles_resources, shuffleArray_Permutation.
    vm_compute. repeat (first [apply list_elem_of_here | apply list_elem_of_further]). }
  revert Hids Hall Hdesert. generalize (generateTiles rnd1 rnd2). clear rnd1 rnd2.
  intros tiles Hids Hall Hdesert. unfold findDesertTile.
  destruct (List.find _ tiles) as [t|] eqn:Hf.
  - apply find_some in Hf as [Hin Hd]. apply bool_decide_eq_true in Hd.
    apply list_elem_of_In, list_elem_of_lookup_1 in Hin as [i Hi].
    pose proof (Hids _ _ Hi) as Hid.
    exists i, t. rewrite Hid. split_and!; try done.
    by apply (Forall_lookup_1 _ _ _ _ Hall Hi).
  - exfalso. apply list_elem_of_fmap in Hdesert as (t & Ht & Hin).
    apply list_elem_of_In in Hin.
    pose proof (find_none _ _ Hf _ Hin) as Hn. simpl in Hn.
    by apply bool_decide_eq_false in Hn.
Qed.

(** ** The board editor's validator *)

Lemma sortNumbers_eq l1 l2 : sortNumbers l1 = sortNumbers l2 <-> l1 ≡ₚ l2.
Proof.
  unfold sortNumbers. split; intros H.
  - rewrite <- (merge_sort_Permutation Z.le l1), H. apply merge_sort_Permutation.
  - apply (Sorted_unique Z.le); [apply Sorted_merge_sort, _..|].
    by rewrite !merge_sort_Permutation.
Qed.

(** X4.  [validateBoard] reports no error exactly for the standard
    contents: 4 wood, 3 brick, 4 sheep, 4 wheat, 3 ore tiles, one desert,
    and the non-null tokens being a rearrangement of the 18 standard
    tokens.  The number of tiles and the desert's token are not checked
    beyond that. *)
Theorem validateBoard_accepts_standard_contents (tiles : list Tile.t) :
  isValid tiles = true
  <-> count_resource (land wood) tiles = 4%nat
      /\ count_resource (land brick) tiles = 3%nat
      /\ count_resource (land sheep) tiles = 4%nat
      /\ count_resource (land wheat) tiles = 4%nat
      /\ count_resource (land ore) tiles = 3%nat
      /\ count_resource desert tiles = 1%nat
      /\ omap Tile.token tiles ≡ₚ TOKENS.
Proof.
  unfold isValid. rewrite bool_decide_eq_true, <- sortNumbers_eq.
  unfold validateBoard, expectedCounts. cbn [omap list_omap].
  generalize (sortNumbers (omap Tile.token tiles)) (sortNumbers TOKENS).
  generalize (count_resource (land wood) tiles) (count_resource (land brick) tiles)
    (count_resource (land sheep) tiles) (count_resource (land wheat) tiles)
    (count_resource (land ore) tiles) (count_resource desert tiles).
  intros n1 n2 n3 n4 n5 n6 used expected.
  repeat case_decide; simpl; split; try done; try (intros; split_and!; lia);
    try (intros (? & ? & ? & ? & ? & ? & ?); lia || done).
Qed.

(** X5.  Every board the generator produces passes the editor's
    validator, whatever the shuffles draw. *)
Theorem generated_board_is_valid (rnd1 rnd2 : nat -> nat) :
  validateBoard (Board.tiles (generateRandomBoard rnd1 rnd2)) = [].
Proof.
  rewrite generateRandomBoard_tiles.
  pose proof (generateTiles_resources rnd1 rnd2) as Hres.
  pose proof (shuffleArray_Permutation rnd1 STANDARD_RESOURCES) as Hperm.
  destruct (generateTiles_tokens rnd1 rnd2) as [Htok _].
  assert (forall x, count_resource x (generateTiles rnd1 rnd2)
                    = length (filter (fun y => y = x) STANDARD_RESOURCES)) as Hcount.
  { intros x. rewrite count_resource_map, Hres. by apply filter_length_Permutation. }
  apply sortNumbers_eq in Htok.
  unfold validateBoard, expectedCounts. cbn [omap list_omap].
  rewrite !Hcount, Htok. reflexivity.
Qed.

(** ** What a handler leaves alone *)

#[global] Instance unchanged_refl {X} (f : GameState.t -> X) : Reflexive (unchanged f).
Proof. by intros s. Qed.

#[global] Instance unchanged_trans {X} (f : GameState.t -> X) : Transitive (unchanged f).
Proof. unfold unchanged. intros s1 s2 s3 H1 H2. congruence. Qed.

Section Moves.
Context (R : GameState.t -> GameState.t -> Prop) `{!Reflexive R, !Transitive R}.

Lemma moves_bind {A B} (m : Eng A) (k : A -> Eng B) :
  moves R m -> (forall a, moves R (k a)) -> moves R (bind m k).
Proof.
  intros Hm Hk s. unfold bind. specialize (Hm s).
  destruct (m s) as [s1 [a|e]]; simpl in *; [|done].
  by etrans; [|apply Hk].
Qed.

Lemma moves_ret {A} (a : A) : moves R (ret a).
Proof. by intros s. Qed.

Lemma moves_throw {A} (e : Error) : moves R (throw (A := A) e).
Proof. by intros s. Qed.

Lemma moves_gets {A} (f : GameState.t -> A) : moves R (gets f).
Proof. by intros s. Qed.

Lemma moves_query {A} (q : Query A) : moves R (query q).
Proof. by intros s. Qed.

Lemma moves_read {A} (f : GameState.t -> option A) : moves R (read f).
Proof. by intros s. Qed.

Lemma moves_defined {A} (o : option A) : moves R (defined o).
Proof. intros s. unfold defined. by destruct o. Qed.

Lemma moves_throw_if c msg : moves R (throw_if c msg).
Proof. intros s. unfold throw_if. by destruct c. Qed.

Lemma moves_forEach {A} (l : list A) (body : A -> Eng unit) :
  (forall x, moves R (body x)) -> moves R (forEach l body).
Proof.
  intros Hb. induction l as [|x l IH]; simpl; [apply moves_ret|].
  apply moves_bind; [apply Hb|]. intros _. apply IH.
Qed.

Lemma moves_modify f : (forall s, R s (f s)) -> moves R (modify f).
Proof. intros Hf s. apply Hf. Qed.

End Moves.

(** Follows the structure of a handler; what is left are its writes and
    the handlers it calls. *)
Ltac moves_step :=
  match goal with
  | |- moves _ (bind _ _) => apply moves_bind; [try apply _; try apply _| |intros ?]
  | |- moves _ (ret _) => apply moves_ret; apply _
  | |- moves _ (throw _) => apply moves_throw; apply _
  | |- moves _ (gets _) => apply moves_gets; apply _
  | |- moves _ (query _) => apply moves_query; apply _
  | |- moves _ (read _) => apply moves_read; apply _
  | |- moves _ (defined _) => apply moves_defined; apply _
  | |- moves _ (throw_if _ _) => apply moves_throw_if; apply _
  | |- moves _ (forEach _ _) => apply moves_forEach; [apply _..|intros ?]
  | |- moves _ (if _ then _ else _) => case_match
  | |- moves _ (match _ with _ => _ end) => case_match
  | |- moves _ (let '(_, _) := ?x in _) => destruct x
  end.

Ltac moves_auto := repeat moves_step.

(** A write that does not touch what [f] reads. *)
Ltac moves_write :=
  match goal with
  | |- moves _ (modify_player _ _) => apply moves_modify; intros ?; reflexivity
  | |- moves _ (modify_board _) => apply moves_modify; intros ?; reflexivity
  | |- moves _ (modify_node _ _) => apply moves_modify; intros ?; reflexivity
  | |- moves _ (modify_edge _ _) => apply moves_modify; intros ?; reflexivity
  | |- moves _ (modify_tile _ _) => apply moves_modify; intros ?; reflexivity
  | |- moves _ (updateVictoryPoints _) => apply moves_modify; intros ?; reflexivity
  | |- moves _ (modify _) => apply moves_modify; intros ?; reflexivity
  end.

Ltac moves_frame := moves_auto; try moves_write.

(** Opens the helpers a handler calls. *)
Ltac moves_open :=
  progress unfold grantInitialResources, endSetupTurn, startMainGame, handleRobberRoll,
    produceResources, produceForNodes, checkVictoryCondition, checkLongestRoad,
    stealRandomCard.

Ltac moves_all := repeat first [moves_step | moves_write | moves_open].

(** ** The robber and the blocked tile *)

Lemma robber_flagDiscards indices n : moves (unchanged robber_view) (flagDiscards indices n).
Proof.
  revert n. induction indices as [|i indices IH]; intros n; simpl; moves_all; apply IH.
Qed.

Lemma robber_monopolize indices playerId resourceType total :
  moves (unchanged robber_view) (monopolize indices playerId resourceType total).
Proof.
  revert total. induction indices as [|i indices IH]; intros total; simpl;
    moves_all; apply IH.
Qed.

Lemma robber_other_commands (c : Command) (x : Session.t) :
  (forall tileId targetPlayerId rnd, c <> MoveRobber tileId targetPlayerId rnd) ->
  robber_view (Session.game (execute c x)) = robber_view (Session.game x).
Proof.
  intros Hc. destruct c; simpl; unfold on_game, on_trades; simpl.
  all: try match goal with
       | |- robber_view (fst (?m _)) = _ =>
           assert (moves (unchanged robber_view) m) as Hm; [|apply Hm]
       end.
  - unfold placeInitialSettlement. moves_all.
  - unfold placeInitialRoad. moves_all.
  - unfold rollDice. moves_all. apply robber_flagDiscards.
  - unfold discardCards. moves_all.
  - by destruct (Hc tileId targetPlayerId rnd).
  - unfold buildSettlement. moves_all.
  - unfold buildCity. moves_all.
  - unfold buildRoad. moves_all.
  - unfold buyDevelopmentCard. moves_all.
  - unfold endTurn. moves_all.
  - unfold tradeWithBank. moves_all.
  - unfold tradeWithPort. moves_all.
  - match goal with |- context [proposePlayerTrade ?a ?b ?c ?d ?e ?f ?s] =>
      assert (moves (unchanged robber_view) (proposePlayerTrade a b c d e f)) as Hm;
        [unfold proposePlayerTrade; moves_all|];
      specialize (Hm s); destruct (proposePlayerTrade a b c d e f s); exact Hm
    end.
  - match goal with |- context [acceptPlayerTrade ?a ?b ?c ?s] =>
      assert (moves (unchanged robber_view) (acceptPlayerTrade a b c)) as Hm;
        [unfold acceptPlayerTrade; moves_all|];
      specialize (Hm s); destruct (acceptPlayerTrade a b c s); exact Hm
    end.
  - unfold playMonopoly. moves_all. apply robber_monopolize.
  - unfold playYearOfPlenty. moves_all.
Qed.

Lemma robber_consistent_view s s' :
  robber_view s' = robber_view s -> robber_consistent s -> robber_consistent s'.
Proof.
  unfold robber_view, robber_consistent. intros [= Ht Hr] Hs i t. rewrite Ht, Hr. apply Hs.
Qed.

Lemma robber_consistent_place (tileId : nat) (tiles : list Tile.t) (old : option nat) :
  (forall (i : nat) (t : Tile.t), tiles !! i = Some t ->
     Tile.isBlocked t = true \/ Tile.hasRobber t = true -> old = Some i) ->
  forall (i : nat) (t : Tile.t),
    alter (Tile.set_robber true) tileId
      (match old with
       | Some o => alter (Tile.set_robber false) o tiles
       | None => tiles
       end) !! i = Some t ->
    Tile.isBlocked t = true \/ Tile.hasRobber t = true -> i = tileId.
Proof.
  intros Hs i t Hi Hb. destruct (decide (i = tileId)) as [|Hne]; [done|]. exfalso.
  rewrite list_lookup_alter_ne in Hi by done.
  destruct old as [o|].
  - destruct (decide (i = o)) as [->|Hno].
    + rewrite list_lookup_alter_eq in Hi.
      destruct (tiles !! o) as [t0|]; simplify_eq/=. by destruct Hb.
    + rewrite list_lookup_alter_ne in Hi by done.
      specialize (Hs _ _ Hi Hb). by simplify_eq.
  - by specialize (Hs _ _ Hi Hb).
Qed.

Lemma robber_moveRobber tileId targetPlayerId rnd s :
  robber_consistent s -> robber_consistent (fst (moveRobber tileId targetPlayerId rnd s)).
Proof.
  intros Hs. unfold moveRobber. unfold bind at 1, gets at 1. cbv beta iota.
  split_throw_if; [done|]. split_throw_if; [done|]. split_throw_if; [done|].
  set (old := Board.robberPosition (GameState.board s)) in *.
  assert (forall (rest : Eng unit) s1,
            robber_view s1 = (alter (Tile.set_robber true) tileId
                                (match old with
                                 | Some o => alter (Tile.set_robber false) o (tiles_of s)
                                 | None => tiles_of s
                                 end), Some tileId) ->
            moves (unchanged robber_view) rest ->
            robber_consistent (fst (rest s1))) as Hrest.
  { intros rest s1 Hv Hm. eapply robber_consistent_view; [apply Hm|].
    intros i t Hi Hb. unfold robber_view in Hv. injection Hv as Ht Hr.
    rewrite Hr. f_equal. symmetry. rewrite Ht in Hi.
    by eapply (robber_consistent_place tileId (tiles_of s) old). }
  destruct old as [o|] eqn:Hold.
  - unfold bind at 1. unfold bind at 1, read at 1.
    destruct (tiles_of s !! o) as [t0|] eqn:Ho; [|done].
    cbv beta iota. unfold modify_tile at 1, modify_board at 1, modify at 1. cbv beta iota.
    unfold bind at 1, modify_board at 1, modify at 1. cbv beta iota.
    unfold bind at 1, modify_tile at 1, modify_board at 1, modify at 1. cbv beta iota.
    apply Hrest; [by destruct s as [? ? ? ? ? ? ? ? []]|]. moves_all.
  - unfold bind at 1, ret at 1. cbv beta iota.
    unfold bind at 1, modify_board at 1, modify at 1. cbv beta iota.
    unfold bind at 1, modify_tile at 1, modify_board at 1, modify at 1. cbv beta iota.
    apply Hrest; [by destruct s as [? ? ? ? ? ? ? ? []]|]. moves_all.
Qed.

Lemma robber_execute (c : Command) (x : Session.t) :
  robber_consistent (Session.game x) -> robber_consistent (Session.game (execute c x)).
Proof.
  intros Hx.
  assert ((exists tileId targetPlayerId rnd, c = MoveRobber tileId targetPlayerId rnd)
          \/ forall tileId targetPlayerId rnd, c <> MoveRobber tileId targetPlayerId rnd)
    as [(tileId & targetPlayerId & rnd & ->)|Hc] by (destruct c; eauto).
  - simpl. by apply robber_moveRobber.
  - eapply robber_consistent_view; [|done]. by apply robber_other_commands.
Qed.

Lemma generated_tiles_unblocked (rnd1 rnd2 : nat -> nat) :
  Forall (fun t => Tile.hasRobber t = false /\ Tile.isBlocked t = false)
         (Board.tiles (generateRandomBoard rnd1 rnd2)).
Proof. rewrite generateRandomBoard_tiles. apply assignTiles_unblocked. Qed.

Lemma robber_consistent_played (numPlayers : nat) (board : Board.t)
    (deck : list DevCardType) (commands : list Command) :
  Forall (fun t => Tile.hasRobber t = false /\ Tile.isBlocked t = false)
         (Board.tiles board) ->
  robber_consistent
    (Session.game (foldl (fun x c => execute c x)
                         (new_session numPlayers board deck) commands)).
Proof.
  intros Hfree.
  assert (robber_consistent (Session.game (new_session numPlayers board deck))) as H0.
  { intros i t Ht Hb. exfalso.
    pose proof (Forall_lookup_1 _ _ _ _ Hfree Ht) as [H1 H2].
    destruct Hb; congruence. }
  revert H0. generalize (new_session numPlayers board deck).
  induction commands as [|c commands IH]; intros x Hx; [done|].
  simpl. by apply IH, robber_execute.
Qed.


(** ** Rolling the dice *)

Lemma flagDiscards_range (m : nat) : forall (k : nat) (n : Z) (s : GameState.t),
  (k + m <= length (GameState.players s))%nat ->
  exists players',
    flagDiscards (seq k m) n s
    = (GameState.set_players players' s,
       Return (n + Z.of_nat (length (filter (fun p => overLimit p = true)
                                            (take m (drop k (GameState.players s)))))))
    /\ length players' = length (GameState.players s)
    /\ forall j : nat,
         players' !! j
         = if decide (k <= j < k + m)%nat
           then flagDiscard <$> GameState.players s !! j
           else GameState.players s !! j.
Proof.
  induction m as [|m IH]; intros k n s Hk.
  - exists (GameState.players s). simpl. unfold ret. rewrite set_players_same.
    split_and!; [f_equal; f_equal; lia|done|].
    intros j. destruct (decide _); [lia|done].
  - destruct (lookup_lt_is_Some_2 (GameState.players s) k) as [p Hp]; [lia|].
    cbn [seq flagDiscards]. unfold bind at 1, read at 1. rewrite Hp. cbv beta iota.
    rewrite (drop_S _ _ _ Hp). cbn [take]. rewrite filter_cons.
    change (bool_decide (getTotalResources p > 7)) with (overLimit p).
    destruct (overLimit p) eqn:Hover.
    + unfold bind at 1, modify_player at 1, modify at 1. cbv beta iota.
      set (s1 := GameState.set_players _ s).
      destruct (IH (S k) (n + 1) s1) as (players' & Hrun & Hlen & Hget).
      { subst s1. simpl. rewrite length_alter. lia. }
      exists players'. rewrite Hrun. subst s1. simpl in *.
      rewrite drop_alter. rewrite (decide_False (P := (S k <= k)%nat)) by lia.
      split_and!.
      * destruct s. simpl. f_equal. f_equal. simpl. lia.
      * by rewrite Hlen, length_alter.
      * intros j. rewrite Hget. destruct (decide (j = k)) as [->|Hjk].
        -- rewrite decide_False by lia. rewrite decide_True by lia.
           rewrite list_lookup_alter_eq, Hp. simpl. unfold flagDiscard.
           change (bool_decide (getTotalResources p > 7)) with (overLimit p).
           by rewrite Hover.
        -- rewrite list_lookup_alter_ne by done.
           repeat case_decide; try done; lia.
    + destruct (IH (S k) n s) as (players' & Hrun & Hlen & Hget); [lia|].
      exists players'. rewrite Hrun.
      split_and!; [done|done|].
      intros j. rewrite Hget. destruct (decide (j = k)) as [->|Hjk].
      * rewrite decide_False by lia. rewrite decide_True by lia.
        rewrite Hp. simpl. unfold flagDiscard.
           change (bool_decide (getTotalResources p > 7)) with (overLimit p).
           by rewrite Hover.
      * repeat case_decide; try done; lia.
Qed.

Lemma flagDiscards_all n s :
  flagDiscards (player_indices s) n s
  = (GameState.set_players (map flagDiscard (GameState.players s)) s,
     Return (n + Z.of_nat (length (filter (fun p => overLimit p = true)
                                          (GameState.players s))))).
Proof.
  destruct (flagDiscards_range (length (GameState.players s)) 0 n s) as (ps & Hrun & Hlen & Hget);
    [lia|].
  unfold player_indices. rewrite Hrun. rewrite drop_0, firstn_all.
  f_equal. f_equal. apply list_eq. intros j. rewrite Hget.
  destruct (decide _) as [Hj|Hj].
  - by rewrite list_lookup_fmap.
  - rewrite list_lookup_fmap. rewrite (lookup_ge_None_2 (GameState.players s) j) by lia. done.
Qed.

Lemma existsb_filter {A} (f : A -> bool) (l : list A) :
  existsb f l = bool_decide (Z.of_nat (length (filter (fun x => f x = true) l)) > 0).
Proof.
  induction l as [|x l IH]; [done|]. cbn [existsb]. rewrite filter_cons.
  destruct (f x); cbn [orb].
  - destruct (decide (true = true)) as [_|Hn]; [|done].
    symmetry. apply bool_decide_eq_true. cbn [length]. lia.
  - destruct (decide (false = true)) as [Hn|_]; [done|]. exact IH.
Qed.

(** X7.  Rolling a seven, in full: in [MAIN_GAME] at [DICE_ROLL] the call
    never throws; it records the roll, flags every player holding more
    than 7 cards with half of the cards, rounded down, to discard, leaves
    the other players as they are, and moves to [DISCARD_CARDS] if some
    player is flagged and to [ROBBER_PLACEMENT] otherwise.  Nobody
    receives a card. *)
Theorem rollDice_seven (dice1 dice2 : Z) (s : GameState.t) :
  GameState.phase s = MAIN_GAME -> GameState.turnPhase s = DICE_ROLL ->
  dice1 + dice2 = 7 ->
  rollDice dice1 dice2 s
  = (GameState.set_turnPhase
       (if existsb overLimit (GameState.players s) then DISCARD_CARDS else ROBBER_PLACEMENT)
       (GameState.set_players (map flagDiscard (GameState.players s))
          (GameState.set_lastDiceRoll (Some 7) s)),
     Return (dice1, dice2, 7)).
Proof.
  intros Hphase Hturn H7. unfold rollDice. unfold bind at 1, gets at 1. cbv beta iota.
  split_throw_if.
  { match goal with H : bool_decide _ = true |- _ => apply bool_decide_eq_true in H end.
    congruence. }
  split_throw_if.
  { match goal with H : bool_decide (GameState.turnPhase s <> _) = true |- _ =>
      apply bool_decide_eq_true in H end.
    congruence. }
  cbv zeta. rewrite H7.
  unfold bind at 1, modify at 1. cbv beta iota.
  destruct (decide (7 = 7)) as [_|Hne]; [|done].
  unfold bind at 1, handleRobberRoll. unfold bind at 1, gets at 1. cbv beta iota.
  unfold bind at 1.
  rewrite (flagDiscards_all 0 (GameState.set_lastDiceRoll (Some 7) s)). cbv beta iota.
  rewrite existsb_filter. rewrite Z.add_0_l.
  change (GameState.players (GameState.set_lastDiceRoll (Some 7) s))
    with (GameState.players s).
  destruct (bool_decide (_ > 0)); unfold modify, ret; cbv beta iota; by destruct s.
Qed.

Lemma rollDice_seven_witness :
  rollDice 3 4 game_loop
  = (GameState.set_turnPhase
       (if existsb overLimit (GameState.players game_loop)
        then DISCARD_CARDS else ROBBER_PLACEMENT)
       (GameState.set_players (map flagDiscard (GameState.players game_loop))
          (GameState.set_lastDiceRoll (Some 7) game_loop)),
     Return (3, 4, 7)).
Proof.
  apply rollDice_seven; [vm_compute; reflexivity | vm_compute; reflexivity | reflexivity].
Defined.

(** *** Production *)

Lemma receive_app cards1 cards2 p :
  receive (cards1 ++ cards2) p = receive cards2 (receive cards1 p).
Proof. apply foldl_app. Qed.

Lemma receive_resources cards p r :
  res_get r (Player.resources (receive cards p))
  = res_get r (Player.resources p) + count_card r cards.
Proof.
  unfold count_card. revert p. induction cards as [|x cards IH]; intros p.
  - simpl. lia.
  - cbn [receive foldl]. fold (receive cards (gain x 1 p)). rewrite IH. simpl.
    rewrite res_get_add, filter_cons.
    destruct (decide (x = r)); simpl; lia.
Qed.

Lemma receive_rest cards p :
  receive cards p = Player.set_resources (Player.resources (receive cards p)) p.
Proof.
  revert p. induction cards as [|x cards IH]; intros p.
  - by destruct p.
  - cbn [receive foldl]. fold (receive cards (gain x 1 p)). rewrite IH at 1.
    by destruct p.
Qed.

Lemma alter_receive (i : nat) cards1 cards2 (players : list Player.t) :
  alter (receive cards2) i (alter (receive cards1) i players)
  = alter (receive (cards1 ++ cards2)) i players.
Proof.
  rewrite list_alter_alter_eq. apply list_alter_ext; [|done].
  intros p _. simpl. by rewrite receive_app.
Qed.

Lemma alter_receive_nil (i : nat) (players : list Player.t) :
  alter (receive []) i players = players.
Proof. apply list_alter_id. done. Qed.

Lemma produce_tiles diceRoll (i : nat) tileIds : forall s s',
  forEach tileIds (fun tileId =>
    tile <- read (fun s => tiles_of s !! tileId) ;;
    if bool_decide (Tile.token tile = Some diceRoll) && negb (Tile.isBlocked tile)
    then match Tile.resource tile with
         | land r => modify_player i (gain r 1)
         | desert => ret tt
         end
    else ret tt)%eng s = (s', Return tt) ->
  s' = GameState.set_players
         (alter (receive (flat_map (tileYield (GameState.board s) diceRoll) tileIds)) i
                (GameState.players s)) s.
Proof.
  induction tileIds as [|tileId tileIds IH]; intros s s' H.
  - simpl in H. unfold ret in H. simplify_eq. simpl.
    by rewrite alter_receive_nil, set_players_same.
  - cbn [forEach] in H. unfold bind at 1 in H. unfold bind at 1, read at 1 in H.
    cbn [flat_map]. unfold tileYield at 1. unfold tiles_of in H.
    destruct (Board.tiles (GameState.board s) !! tileId) as [tile|]; [|done].
    cbv beta iota in H.
    destruct (bool_decide (Tile.token tile = Some diceRoll) && negb (Tile.isBlocked tile)).
    + destruct (Tile.resource tile) as [r|].
      * unfold modify_player, modify in H. cbv beta iota in H.
        apply IH in H. rewrite H. simpl.
        rewrite (alter_receive i [r]). by destruct s.
      * unfold ret in H. cbv beta iota in H. by apply IH in H.
    + unfold ret in H. cbv beta iota in H. by apply IH in H.
Qed.

Lemma produce_nodes diceRoll (i : nat) nodeIds : forall s s',
  produceForNodes diceRoll i nodeIds s = (s', Return tt) ->
  s' = GameState.set_players
         (alter (receive (flat_map (nodeYield (GameState.board s) diceRoll) nodeIds)) i
                (GameState.players s)) s.
Proof.
  unfold produceForNodes.
  induction nodeIds as [|nodeId nodeIds IH]; intros s s' H.
  - simpl in H. unfold ret in H. simplify_eq. simpl.
    by rewrite alter_receive_nil, set_players_same.
  - cbn [forEach] in H. unfold bind at 1 in H. unfold bind at 1, read at 1 in H.
    cbn [flat_map]. unfold nodeYield at 1. unfold nodes_of in H.
    destruct (Board.nodes (GameState.board s) !! nodeId) as [node|]; [|done].
    cbv beta iota in H.
    match type of H with
    | context [forEach ?l ?body s] => destruct (forEach l body s) as [s1 o1] eqn:Ht
    end.
    destruct o1 as [[]|e]; [|done].
    apply produce_tiles in Ht. apply IH in H. rewrite H, Ht. simpl.
    rewrite alter_receive. by destruct s.
Qed.

Lemma produce_players diceRoll (m : nat) : forall (k : nat) s s',
  forEach (seq k m) (fun i =>
    player <- read (fun s => GameState.players s !! i) ;;
    produceForNodes diceRoll i (Player.settlements player) ;;
    produceForNodes diceRoll i (Player.cities player))%eng s = (s', Return tt) ->
  exists players',
    s' = GameState.set_players players' s
    /\ length players' = length (GameState.players s)
    /\ forall j : nat,
         players' !! j
         = if decide (k <= j < k + m)%nat
           then (fun p => receive (playerYield (GameState.board s) diceRoll p) p)
                  <$> GameState.players s !! j
           else GameState.players s !! j.
Proof.
  induction m as [|m IH]; intros k s s' H.
  - simpl in H. unfold ret in H. injection H as Hs. subst s'.
    exists (GameState.players s).
    rewrite set_players_same. split_and!; [done..|].
    intros j. destruct (decide _); [lia|done].
  - cbn [seq forEach] in H. unfold bind at 1 in H. unfold bind at 1, read at 1 in H.
    destruct (GameState.players s !! k) as [p|] eqn:Hp; [|done].
    cbv beta iota in H. unfold bind at 1 in H.
    destruct (produceForNodes diceRoll k (Player.settlements p) s) as [s1 [[]|e]] eqn:H1;
      [|done].
    destruct (produceForNodes diceRoll k (Player.cities p) s1) as [s2 [[]|e]] eqn:H2;
      [|done].
    apply produce_nodes in H1, H2. apply IH in H as (players' & -> & Hlen & Hget).
    assert (s2 = GameState.set_players
                   (alter (receive (playerYield (GameState.board s) diceRoll p)) k
                          (GameState.players s)) s) as ->.
    { rewrite H2, H1. simpl. rewrite alter_receive.
      unfold playerYield. rewrite flat_map_app. by destruct s. }
    exists players'. simpl in *. split_and!.
    + by destruct s.
    + by rewrite Hlen, length_alter.
    + intros j. rewrite Hget. destruct (decide (j = k)) as [->|Hjk].
      * rewrite decide_False by lia. rewrite decide_True by lia.
        rewrite list_lookup_alter_eq, Hp. done.
      * rewrite list_lookup_alter_ne by done.
        repeat case_decide; try done; lia.
Qed.

Lemma produceResources_players diceRoll s s' :
  produceResources diceRoll s = (s', Return tt) ->
  s' = GameState.set_players
         (map (fun p => receive (playerYield (GameState.board s) diceRoll p) p)
              (GameState.players s)) s.
Proof.
  unfold produceResources. unfold bind at 1, gets at 1. cbv beta iota.
  unfold player_indices. intros H.
  apply produce_players in H as (players' & -> & Hlen & Hget).
  f_equal. apply list_eq. intros j. rewrite Hget, list_lookup_fmap.
  destruct (decide _) as [Hj|Hj]; [done|].
  rewrite (lookup_ge_None_2 (GameState.players s) j) by lia. done.
Qed.

(** X8.  Rolling another total than seven, when the call returns: the roll
    is recorded, the turn moves to [ACTIONS], and every player receives
    one card for each pair of a building of theirs and an adjacent tile
    that carries the rolled token and is not blocked, of that tile's
    resource.  A city is counted like a settlement, once per tile.
    Nothing else changes. *)
Theorem rollDice_production (dice1 dice2 : Z) (s s' : GameState.t) (result : Z * Z * Z) :
  rollDice dice1 dice2 s = (s', Return result) -> dice1 + dice2 <> 7 ->
  result = (dice1, dice2, dice1 + dice2)
  /\ s' = GameState.set_turnPhase ACTIONS
            (GameState.set_players
               (map (fun p => receive (playerYield (GameState.board s) (dice1 + dice2) p) p)
                    (GameState.players s))
               (GameState.set_lastDiceRoll (Some (dice1 + dice2)) s))
  /\ Forall2 (fun p p' =>
                p' = Player.set_resources (Player.resources p') p
                /\ forall r, res_get r (Player.resources p')
                             = res_get r (Player.resources p)
                               + count_card r (playerYield (GameState.board s)
                                                 (dice1 + dice2) p))
             (GameState.players s) (GameState.players s').
Proof.
  intros H H7. unfold rollDice in H. unfold bind at 1, gets at 1 in H. cbv beta iota in H.
  unfold bind at 1, throw_if at 1 in H.
  destruct (bool_decide (GameState.phase s <> MAIN_GAME)); [done|].
  unfold ret at 1 in H. cbv beta iota in H.
  unfold bind at 1, throw_if at 1 in H.
  destruct (bool_decide (GameState.turnPhase s <> DICE_ROLL)); [done|].
  unfold ret at 1 in H. cbv beta iota zeta in H.
  unfold bind at 1, modify at 1 in H. cbv beta iota in H.
  rewrite decide_False in H by done.
  unfold bind at 1 in H. unfold bind at 1 in H.
  destruct (produceResources _ _) as [s1 [[]|e]] eqn:Hprod; [|done].
  apply produceResources_players in Hprod. subst s1.
  unfold modify, ret in H. simpl in H. simplify_eq.
  split; [done|]. split; [by destruct s|]. simpl.
  apply Forall2_fmap_r, Forall_Forall2_diag, Forall_forall. intros p _. split.
  - apply receive_rest.
  - intros r. apply receive_resources.
Qed.

Lemma rollDice_production_witness :
  exists s',
    rollDice 1 3 game_city = (s', Return (1, 3, 4))
    /\ Forall2 (fun p p' =>
                  p' = Player.set_resources (Player.resources p') p
                  /\ forall r, res_get r (Player.resources p')
                               = res_get r (Player.resources p)
                                 + count_card r (playerYield (GameState.board game_city) 4 p))
               (GameState.players game_city) (GameState.players s').
Proof.
  eexists. split; [vm_compute; reflexivity|].
  refine (proj2 (proj2 (rollDice_production 1 3 game_city _ (1, 3, 4) _ _))).
  - vm_compute. reflexivity.
  - discriminate.
Defined.

